(** * NatsuLib string core: views, search, growable storage

    A shallow embedding of [NatsuLib/natString.h]: the non-owning
    [StringView] (slicing, checked access, comparison, character-run and
    substring search), the small-buffer [StringStorage] and the owning
    [String] built on it.

    Conventions of the embedding.
    - [size_t] and [std::ptrdiff_t] are 64-bit; values are integers of [Z]
      and every conversion or wrap-around of the source is written out
      with [to_size_t] / [to_ptrdiff_t].
    - A code unit is an integer; the cast to the unsigned code-unit type
      is [UChar].
    - A pointer into a code-unit sequence is the index of the unit it
      points to; dereferencing outside the sequence is undefined
      behaviour and shows up as [Undefined].
    - Loops are run with explicit fuel; every use supplies a bound, which
      is proved to suffice on views that lie inside the sequence they
      borrow. *)

From stdpp Require Import base numbers list option gmap strings.

Local Open Scope Z_scope.

Module NatsuLib.

(** ** Machine integers *)

Definition size_t_modulus : Z := 2 ^ 64.
Definition ptrdiff_t_half : Z := 2 ^ 63.

(** [static_cast<size_t>(z)] *)
Definition to_size_t (z : Z) : Z := z mod size_t_modulus.

(** [static_cast<std::ptrdiff_t>(z)] (two's complement) *)
Definition to_ptrdiff_t (z : Z) : Z :=
  (z + ptrdiff_t_half) mod size_t_modulus - ptrdiff_t_half.

Definition is_size_t (z : Z) : Prop := 0 <= z < size_t_modulus.
Definition is_ptrdiff_t (z : Z) : Prop := - ptrdiff_t_half <= z < ptrdiff_t_half.

(** ** Encodings *)

Inductive StringType := Utf8 | Utf16 | Utf32.

(** Width in bits of [StringEncodingTrait<stringType>::CharType]
    ([char], [char16_t], [char32_t]). *)
Definition CharBits (stringType : StringType) : Z :=
  match stringType with
  | Utf8 => 8
  | Utf16 => 16
  | Utf32 => 32
  end.

(** [static_cast<std::make_unsigned_t<CharType>>(c)] *)
Definition UChar (stringType : StringType) (c : Z) : Z :=
  c mod 2 ^ CharBits stringType.

(** ** Outcomes of running a member function *)

(** Modelled from the spec: [natException.h] and the [nat_Throw] macro are
    not part of the sources at hand; section 6 of the specification says
    a checked access raises a recoverable out-of-range condition carrying
    a descriptive message, so an exception is its message. *)
Inductive natException := natException_ (description : string).

Inductive outcome (A : Type) :=
| Returns (a : A)
| Throws (e : natException)
| Undefined
| OutOfFuel.
Arguments Returns {A} a.
Arguments Throws {A} e.
Arguments Undefined {A}.
Arguments OutOfFuel {A}.

(** [p[0]] for a pointer [p] into the sequence [mem]. *)
Definition deref (mem : list Z) (p : Z) : option Z :=
  if p <? 0 then None else mem !! Z.to_nat p.

(** The code units of a literal of the basic character set. *)
Definition u8 (s : string) : list Z :=
  (fun a => Z.of_nat (Ascii.nat_of_ascii a)) <$> String.list_ascii_of_string s.

Module detail_.

(** [npos = size_t(-1)] *)
Definition npos : Z := to_size_t (-1).

Definition MaxAllocaSize : Z := 65536.

(** *** GetEndOfString *)

(** The scan for the terminator: [end] moves up while [*end != CharType{}]. *)
Fixpoint GetEndOfString_run (fuel : nat) (mem : list Z) (end_ : Z) : outcome Z :=
  match fuel with
  | O => OutOfFuel
  | S fuel' =>
    match deref mem end_ with
    | None => Undefined
    | Some c =>
      if negb (c =? 0) then GetEndOfString_run fuel' mem (end_ + 1) else Returns end_
    end
  end.

(** [end] moves up by one per iteration and a dereference past the
    sequence is undefined, so the length of the sequence bounds the
    number of iterations. *)
Definition GetEndOfString (mem : list Z) (begin_ : Z) : outcome Z :=
  GetEndOfString_run (S (length mem)) mem begin_.

(** *** SearchCharRepeat *)

(** The two [assert]s at the head of [SearchCharRepeat]. *)
Definition SearchCharRepeat_asserts (srcBegin srcEnd repeatCount : Z) : bool :=
  negb (repeatCount =? 0) && (repeatCount <? to_size_t (srcEnd - srcBegin)).

(** Control points of the two nested loops. *)
Inductive scr_state :=
| scr_scan (current : Z)
| scr_verify (current matchLen : Z).

Fixpoint SearchCharRepeat_run (fuel : nat) (mem : list Z) (srcEnd searchChar repeatCount : Z)
    (st : scr_state) : outcome Z :=
  match fuel with
  | O => OutOfFuel
  | S fuel' =>
    match st with
    | scr_scan current =>
      if srcEnd - current <? to_ptrdiff_t repeatCount then Returns npos
      else match deref mem current with
           | None => Undefined
           | Some c =>
             if c =? searchChar
             then SearchCharRepeat_run fuel' mem srcEnd searchChar repeatCount (scr_verify current 1)
             else SearchCharRepeat_run fuel' mem srcEnd searchChar repeatCount (scr_scan (current + 1))
           end
    | scr_verify current matchLen =>
      if repeatCount <=? to_size_t matchLen then Returns (to_size_t (srcEnd - current))
      else match deref mem (current + matchLen) with
           | None => Undefined
           | Some c =>
             if negb (c =? searchChar)
             then SearchCharRepeat_run fuel' mem srcEnd searchChar repeatCount
                    (scr_scan (current + matchLen + 1))
             else SearchCharRepeat_run fuel' mem srcEnd searchChar repeatCount
                    (scr_verify current (matchLen + 1))
           end
    end
  end.

(** Every control step moves the position under examination ([current]
    while scanning, [current + matchLen] while verifying) up by one, so
    the window length plus the final test bounds the number of steps. *)
Definition SearchCharRepeat (mem : list Z) (srcBegin srcEnd searchChar repeatCount : Z) : outcome Z :=
  SearchCharRepeat_run (S (Z.to_nat (srcEnd - srcBegin))) mem srcEnd searchChar repeatCount
    (scr_scan srcBegin).

(** *** MatchString *)

(** The two [assert]s at the head of [MatchString]. *)
Definition MatchString_asserts (srcBegin srcEnd patternBegin patternEnd : Z) : bool :=
  negb (srcBegin =? srcEnd)
  && (to_size_t (patternEnd - patternBegin) <=? to_size_t (srcEnd - srcBegin)).

(** The failure table as an array of [tableSize] entries of
    [std::ptrdiff_t]: the construction and the search on a block that
    holds the whole table, with a store outside it (the unconditional
    [table[0] = 0] when the table has no entry) left out.  The block the
    code obtains, [tableSize] bytes from [alloca] or [tableSize] entries
    from [new], is [table_room] below, and [build_table_in_block],
    [MatchString_in_block] run on it.  Entries not yet written show as
    0; the loop reads only entries below [pos], which it has written. *)
Definition table_get (table : list Z) (i : Z) : option Z :=
  if i <? 0 then None else table !! Z.to_nat i.

Definition table_set (table : list Z) (i v : Z) : list Z :=
  if i <? 0 then table else <[Z.to_nat i := v]> table.

(** The [do ... while] loop that fills the table; one unit of fuel per
    iteration, [continue] included. *)
Fixpoint build_table_loop (fuel : nat) (patMem : list Z) (patternBegin patternSize : Z)
    (pos cand : Z) (table : list Z) : outcome (list Z) :=
  match fuel with
  | O => OutOfFuel
  | S fuel' =>
    let next pos' cand' table' :=
      if to_size_t pos' <? to_size_t (patternSize - 1)
      then build_table_loop fuel' patMem patternBegin patternSize pos' cand' table'
      else Returns table' in
    match deref patMem (patternBegin + pos), deref patMem (patternBegin + cand) with
    | Some a, Some b =>
      if a =? b then
        let cand := cand + 1 in
        match deref patMem (patternBegin + (pos + 1)), deref patMem (patternBegin + cand) with
        | Some a', Some b' =>
          if a' =? b' then
            match table_get table (cand - 1) with
            | Some f => next (pos + 1) cand (table_set table pos f)
            | None => Undefined
            end
          else next (pos + 1) cand (table_set table pos cand)
        | _, _ => Undefined
        end
      else if cand =? 0 then next (pos + 1) cand (table_set table pos 0)
      else
        match table_get table (cand - 1) with
        | Some f => next pos f table
        | None => Undefined
        end
    | _, _ => Undefined
    end
  end.

(** Everything between the allocation of the table and the search loop,
    for a table that was obtained.  Each iteration either advances [pos]
    or lowers [cand], which [pos] bounds: twice the pattern size is
    enough fuel. *)
Definition build_table (patMem : list Z) (patternBegin patternSize : Z) : outcome (list Z) :=
  let tableSize := to_size_t (patternSize - 1) in
  let table := table_set (replicate (Z.to_nat tableSize) 0) 0 0 in
  if 2 <? patternSize
  then build_table_loop (2 * Z.to_nat patternSize) patMem patternBegin patternSize 1 0 table
  else Returns table.

(** Whether [table] is non-null: the stack region is used below
    [MaxAllocaSize / sizeof(std::ptrdiff_t)] entries, [new(std::nothrow)]
    otherwise, which yields a null pointer when [heap_has_room] is false. *)
Definition table_obtained (heap_has_room : bool) (patternSize : Z) : bool :=
  let tableSize := to_size_t (patternSize - 1) in
  if MaxAllocaSize / 8 <=? tableSize then heap_has_room else true.

(** Control points of the search loop: the [for] scan and the label
    [Fallback] (the test [matchLen >= patternSize] sits on the edge that
    enters the inner loop from above). *)
Inductive ms_state :=
| ms_scan (current : Z)
| ms_Fallback (current matchLen : Z).

Section MatchString_search.
Variables (mem : list Z) (srcBegin srcEnd : Z).
Variables (patMem : list Z) (patternBegin patternSize : Z).
Variable table : option (list Z).

(** The head of the inner [while (true)]. *)
Definition ms_enter (k : ms_state -> outcome Z) (current matchLen : Z) : outcome Z :=
  if patternSize <=? to_size_t matchLen
  then Returns (to_size_t (current - srcBegin))
  else k (ms_Fallback current matchLen).

Fixpoint MatchString_run (fuel : nat) (st : ms_state) : outcome Z :=
  match fuel with
  | O => OutOfFuel
  | S fuel' =>
    match st with
    | ms_scan current =>
      if srcEnd - current <? to_ptrdiff_t patternSize then Returns npos
      else match deref mem current, deref patMem patternBegin with
           | Some c, Some p0 =>
             if c =? p0 then ms_enter (MatchString_run fuel') current 1
             else MatchString_run fuel' (ms_scan (current + 1))
           | _, _ => Undefined
           end
    | ms_Fallback current matchLen =>
      match deref mem (current + matchLen), deref patMem (patternBegin + matchLen) with
      | Some c, Some p =>
        if negb (c =? p) then
          match table with
          | None => MatchString_run fuel' (ms_scan (current + 1))
          | Some tbl =>
            let current := current + matchLen in
            match table_get tbl (matchLen - 1) with
            | Some fallback =>
              if negb (fallback =? 0)
              then MatchString_run fuel' (ms_Fallback (current - fallback) fallback)
              else MatchString_run fuel' (ms_scan current)
            | None => Undefined
            end
          end
        else ms_enter (MatchString_run fuel') current (matchLen + 1)
      | _, _ => Undefined
      end
    end
  end.
End MatchString_search.

Definition outcome_bind {A B : Type} (o : outcome A) (k : A -> outcome B) : outcome B :=
  match o with
  | Returns a => k a
  | Throws e => Throws e
  | Undefined => Undefined
  | OutOfFuel => OutOfFuel
  end.

(** One scan step or one comparison per unit of fuel.  With the table a
    comparison either lengthens the match or moves [current] up, which
    takes at most four steps per position of the sequence; the brute-force
    path compares at most [patternSize] units at each position. *)
Definition MatchString_fuel (mem : list Z) (patternSize : Z) : nat :=
  (length mem + 2) * (Z.to_nat patternSize + 4).

Definition MatchString (heap_has_room : bool) (mem : list Z) (srcBegin srcEnd : Z)
    (patMem : list Z) (patternBegin patternEnd : Z) : outcome Z :=
  let patternSize := to_size_t (patternEnd - patternBegin) in
  if table_obtained heap_has_room patternSize then
    outcome_bind (build_table patMem patternBegin patternSize) (fun table =>
      MatchString_run mem srcBegin srcEnd patMem patternBegin patternSize (Some table)
        (MatchString_fuel mem patternSize) (ms_scan srcBegin))
  else
    MatchString_run mem srcBegin srcEnd patMem patternBegin patternSize None
      (MatchString_fuel mem patternSize) (ms_scan srcBegin).

(** *** The block that holds the failure table

    [alloca(tableSize)] obtains [tableSize] bytes, which hold
    [tableSize / sizeof(std::ptrdiff_t)] whole entries;
    [new(std::nothrow) std::ptrdiff_t[tableSize]] obtains [tableSize]
    entries.  The table is the list of the entries the block holds, and
    an access to an entry outside it is undefined. *)
Definition sizeof_ptrdiff_t : Z := 8.

Definition table_room (patternSize : Z) : Z :=
  let tableSize := to_size_t (patternSize - 1) in
  if MaxAllocaSize / sizeof_ptrdiff_t <=? tableSize then tableSize
  else tableSize / sizeof_ptrdiff_t.

(** [table[i] = v] *)
Definition table_store (table : list Z) (i v : Z) : option (list Z) :=
  if (0 <=? i) && (i <? Z.of_nat (length table))
  then Some (<[Z.to_nat i := v]> table) else None.

(** The [do ... while] loop on the block; one unit of fuel per
    iteration, [continue] included. *)
Fixpoint build_table_loop_in_block (fuel : nat) (patMem : list Z)
    (patternBegin patternSize : Z) (pos cand : Z) (table : list Z) : outcome (list Z) :=
  match fuel with
  | O => OutOfFuel
  | S fuel' =>
    let next pos' cand' table' :=
      if to_size_t pos' <? to_size_t (patternSize - 1)
      then build_table_loop_in_block fuel' patMem patternBegin patternSize pos' cand' table'
      else Returns table' in
    let store pos' cand' v :=
      match table_store table pos v with
      | Some table' => next pos' cand' table'
      | None => Undefined
      end in
    match deref patMem (patternBegin + pos), deref patMem (patternBegin + cand) with
    | Some a, Some b =>
      if a =? b then
        let cand := cand + 1 in
        match deref patMem (patternBegin + (pos + 1)), deref patMem (patternBegin + cand) with
        | Some a', Some b' =>
          if a' =? b' then
            match table_get table (cand - 1) with
            | Some f => store (pos + 1) cand f
            | None => Undefined
            end
          else store (pos + 1) cand cand
        | _, _ => Undefined
        end
      else if cand =? 0 then store (pos + 1) cand 0
      else
        match table_get table (cand - 1) with
        | Some f => next pos f table
        | None => Undefined
        end
    | _, _ => Undefined
    end
  end.

(** Everything between the allocation of the table and the search loop,
    for a table that was obtained: [table[0] = 0], then the loop when the
    pattern has more than two units. *)
Definition build_table_in_block (patMem : list Z) (patternBegin patternSize : Z)
    : outcome (list Z) :=
  match table_store (replicate (Z.to_nat (table_room patternSize)) 0) 0 0 with
  | None => Undefined
  | Some table =>
    if 2 <? patternSize
    then build_table_loop_in_block (2 * Z.to_nat patternSize) patMem patternBegin patternSize
           1 0 table
    else Returns table
  end.

(** [MatchString] with its table in the block it obtains. *)
Definition MatchString_in_block (heap_has_room : bool) (mem : list Z) (srcBegin srcEnd : Z)
    (patMem : list Z) (patternBegin patternEnd : Z) : outcome Z :=
  let patternSize := to_size_t (patternEnd - patternBegin) in
  if table_obtained heap_has_room patternSize then
    outcome_bind (build_table_in_block patMem patternBegin patternSize) (fun table =>
      MatchString_run mem srcBegin srcEnd patMem patternBegin patternSize (Some table)
        (MatchString_fuel mem patternSize) (ms_scan srcBegin))
  else
    MatchString_run mem srcBegin srcEnd patMem patternBegin patternSize None
      (MatchString_fuel mem patternSize) (ms_scan srcBegin).

(** *** Growable storage *)

(** [Grow] *)
Definition Grow (size : Z) : Z :=
  let s1 := to_size_t (size + 1) in
  Z.max s1 (Z.land (to_size_t (s1 + Z.shiftr s1 1 + 15)) (to_size_t (-16))).

(** A slot of a buffer: a code unit, or the indeterminate value of a
    slot that was never written. *)
Inductive cell := indeterminate | unit_ (c : Z).

(** Where a [CharType*] may point: into the inline array of the storage
    at hand, into an array obtained from [new CharType[n]], or into
    memory the storage does not own (carried along, since no operation
    of the storage writes to it). *)
Inductive place :=
| Inline
| Block (b : nat)
| Extern (cells : list cell).

(** A pointer value; [Wild] is what reading the [Pointer] member yields
    while the union holds array contents. *)
Inductive pointer :=
| Null
| Wild
| At (pl : place) (index : Z).

Definition ptr_add (p : pointer) (n : Z) : pointer :=
  match p with
  | At pl i => At pl (i + n)
  | _ => Wild
  end.

(** The anonymous union of [Array] and [Pointer]: one of the two is
    held at any time. *)
Inductive Union :=
| as_Array (a : list cell)
| as_Pointer (p : pointer).

Record StringStorage := mkStorage {
  Size : Z;
  Capacity : Z;
  Members : Union
}.

(** The free store: the live arrays and the number of [new[]] so far
    (which names the next array). *)
Record FreeStore := mkStore {
  live : gmap nat (list cell);
  allocations : nat
}.

Definition range_ok (len : nat) (i : Z) (n : nat) : bool :=
  (0 <=? i) && (i + Z.of_nat n <=? Z.of_nat len).

Definition cells_read (l : list cell) (i : Z) (n : nat) : option (list cell) :=
  if range_ok (length l) i n then Some (take n (drop (Z.to_nat i) l)) else None.

Definition cells_write (l : list cell) (i : Z) (vs : list cell) : option (list cell) :=
  if range_ok (length l) i (length vs)
  then Some (take (Z.to_nat i) l ++ vs ++ drop (Z.to_nat i + length vs) l)
  else None.

Section StringStorage.
(** The template parameter of [StringStorage]. *)
Variable ArrayMaxSize : Z.

Definition read_Pointer (u : Union) : pointer :=
  match u with
  | as_Pointer p => p
  | as_Array _ => Wild
  end.

Definition read_Array (u : Union) : list cell :=
  match u with
  | as_Array a => a
  | as_Pointer _ => replicate (Z.to_nat ArrayMaxSize) indeterminate
  end.

(** [StringStorage()] *)
Definition StringStorage_new : StringStorage := mkStorage 0 ArrayMaxSize (as_Pointer Null).

Definition GetData (s : StringStorage) : pointer :=
  if ArrayMaxSize <? Capacity s then read_Pointer (Members s) else At Inline 0.

(** The storage and the free store it allocates from. *)
Definition state : Type := FreeStore * StringStorage.

(** [memmove]-style access to [n] slots at [p]; [None] is an access
    outside any live array. *)
Definition load_range (m : state) (p : pointer) (n : nat) : option (list cell) :=
  match p with
  | At Inline i => cells_read (read_Array (Members m.2)) i n
  | At (Block b) i => live m.1 !! b ≫= fun l => cells_read l i n
  | At (Extern l) i => cells_read l i n
  | _ => None
  end.

Definition store_range (m : state) (p : pointer) (vs : list cell) : option state :=
  match p with
  | At Inline i =>
    a ← cells_write (read_Array (Members m.2)) i vs;
    Some (m.1, mkStorage (Size m.2) (Capacity m.2) (as_Array a))
  | At (Block b) i =>
    l ← live m.1 !! b;
    l' ← cells_write l i vs;
    Some (mkStore (<[b := l']> (live m.1)) (allocations m.1), m.2)
  | _ => None
  end.

(** [new CharType[n]] *)
Definition new_array (h : FreeStore) (n : Z) : FreeStore * pointer :=
  let b := allocations h in
  (mkStore (<[b := replicate (Z.to_nat n) indeterminate]> (live h)) (S b), At (Block b) 0).

(** [delete[] p] *)
Definition delete_array (h : FreeStore) (p : pointer) : option FreeStore :=
  match p with
  | Null => Some h
  | At (Block b) 0 =>
    match live h !! b with
    | Some _ => Some (mkStore (delete b (live h)) (allocations h))
    | None => None
    end
  | _ => None
  end.

Definition lift {A : Type} (o : option A) : outcome A :=
  match o with
  | Some a => Returns a
  | None => Undefined
  end.

Definition Reserve (newCapacity : Z) (m : state) : outcome state :=
  let '(h, s) := m in
  if newCapacity <=? Capacity s then Returns m
  else if ArrayMaxSize <? newCapacity then
    let '(h, newBuffer) := new_array h newCapacity in
    outcome_bind
      (if 0 <? Size s then
         lift (cells ← load_range (h, s) (GetData s) (Z.to_nat (Size s));
               store_range (h, s) newBuffer (cells ++ [unit_ 0]))
       else Returns (h, s)) (fun '(h, s) =>
    let s := if Capacity s <=? ArrayMaxSize
             then mkStorage (Size s) (Capacity s) (as_Pointer Null) else s in
    let old := read_Pointer (Members s) in
    let s := mkStorage (Size s) newCapacity (as_Pointer newBuffer) in
    outcome_bind (lift (delete_array h old)) (fun h => Returns (h, s)))
  else Returns m.

(** [Resize]; the loop that zero-fills the slots [Size .. newSize) is one
    store of that many zeros. *)
Definition Resize (newSize : Z) (m : state) : outcome state :=
  outcome_bind
    (if Z.max ArrayMaxSize (Capacity m.2) <=? newSize
     then Reserve (Grow newSize) m else Returns m) (fun m =>
  outcome_bind
    (lift (store_range m (ptr_add (GetData m.2) (Size m.2))
             (replicate (Z.to_nat (newSize - Size m.2)) (unit_ 0)))) (fun m =>
  let m := (m.1, mkStorage newSize (Capacity m.2) (Members m.2)) in
  lift (store_range m (ptr_add (GetData m.2) (Size m.2)) [unit_ 0]))).

(** The [assert] that ends [Resize]. *)
Definition Resize_assert (m : state) : bool := Size m.2 <? Capacity m.2.

(** [Assign(const CharType* str, size_t length)] *)
Definition Assign_ptr (str : pointer) (length : Z) (m : state) : outcome state :=
  outcome_bind (Resize length m) (fun m =>
  lift (cells ← load_range m str (Z.to_nat length);
        store_range m (GetData m.2) cells)).
End StringStorage.

(** [Assign(StringStorage<CharType, OtherArrayMaxSize>&& other)]: the
    destination [m.2], the donor [other], both allocating from [m.1].
    The result is the destination's state and the donor left behind. *)
Definition other_GetData (OtherArrayMaxSize : Z) (other : StringStorage) : pointer :=
  if OtherArrayMaxSize <? Capacity other then read_Pointer (Members other)
  else At (Extern (read_Array OtherArrayMaxSize (Members other))) 0.

Definition Assign_move (ArrayMaxSize OtherArrayMaxSize : Z) (m : state) (other : StringStorage)
    : outcome (state * StringStorage) :=
  let '(h, s) := m in
  if (OtherArrayMaxSize <? Capacity other) && (ArrayMaxSize <? Size other) then
    let mine := read_Pointer (Members s) in
    let theirs := read_Pointer (Members other) in
    Returns ((h, mkStorage (Size other) (Capacity other) (as_Pointer theirs)),
             mkStorage (Size other) (Capacity other) (as_Pointer mine))
  else
    outcome_bind
      (Assign_ptr ArrayMaxSize (other_GetData OtherArrayMaxSize other) (Size other) m)
      (fun m => Returns (m, other)).

(** [Assign(StringStorage<CharType, OtherArrayMaxSize> const& other)] *)
Definition Assign_copy (ArrayMaxSize OtherArrayMaxSize : Z) (m : state) (other : StringStorage)
    : outcome state :=
  Assign_ptr ArrayMaxSize (other_GetData OtherArrayMaxSize other) (Size other) m.

(** The copy the compiler generates for two storages of one type.
    [StringStorage] declares no copy constructor and no copy assignment
    operator of its own: its constructor and [operator=] templates are
    not copy operations, so between storages of equal [ArrayMaxSize] the
    implicit ones are chosen, which copy [Size], [Capacity] and the
    union member by member ([String(String const&) = default] and
    [String& operator=(String const&) = default] use them). *)
Definition implicit_copy (other : StringStorage) : StringStorage :=
  mkStorage (Size other) (Capacity other) (Members other).

(** [~StringStorage()]: what is left of the free store. *)
Definition StringStorage_destroy (ArrayMaxSize : Z) (h : FreeStore) (s : StringStorage)
    : outcome FreeStore :=
  if ArrayMaxSize <? Capacity s then lift (delete_array h (read_Pointer (Members s)))
  else Returns h.

End detail_.

(** ** StringView *)

Module StringView.

(** The pair [(m_StrBegin, m_StrEnd)] together with the code-unit
    sequence the two pointers point into. *)
Record t := mk {
  underlying : list Z;
  m_StrBegin : Z;
  m_StrEnd : Z
}.

(** A view whose window lies inside the sequence it borrows. *)
Definition wf (v : t) : Prop :=
  0 <= m_StrBegin v <= m_StrEnd v /\
  m_StrEnd v <= Z.of_nat (length (underlying v)) /\
  Z.of_nat (length (underlying v)) < ptrdiff_t_half.

(** The view over a whole sequence, as [StringView(begin, length)]. *)
Definition of_list (l : list Z) : t := mk l 0 (Z.of_nat (length l)).

Definition npos : Z := detail_.npos.

Definition GetSize (v : t) : Z := to_size_t (m_StrEnd v - m_StrBegin v).

Definition IsEmpty (v : t) : bool := m_StrBegin v =? m_StrEnd v.

(** The code units the window covers, when it lies inside the sequence. *)
Definition units (v : t) : option (list Z) :=
  if (0 <=? m_StrBegin v) && (m_StrBegin v <=? m_StrEnd v)
     && (m_StrEnd v <=? Z.of_nat (length (underlying v)))
  then Some (take (Z.to_nat (m_StrEnd v - m_StrBegin v))
               (drop (Z.to_nat (m_StrBegin v)) (underlying v)))
  else None.

(** [UncheckGet]: [begin()[pos]]. *)
Definition UncheckGet (v : t) (pos : Z) : outcome Z :=
  match deref (underlying v) (m_StrBegin v + pos) with
  | Some c => Returns c
  | None => Undefined
  end.

Definition Get (v : t) (pos : Z) : outcome Z :=
  if GetSize v <=? pos
  then Throws (natException_ "Pos is out of range.")
  else UncheckGet v pos.

(** [ApplyOffset]: the value returned, and its [assert]. *)
Definition ApplyOffset (offset size : Z) : Z :=
  let ret := to_size_t offset in
  if offset <? 0 then to_size_t (ret + (size + 1)) else ret.

Definition ApplyOffset_assert (offset size : Z) : bool :=
  ApplyOffset offset size <=? size.

Definition Slice (v : t) (begin_ end_ : Z) : t :=
  let size := GetSize v in
  mk (underlying v)
     (m_StrBegin v + ApplyOffset begin_ size)
     (m_StrEnd v + ApplyOffset end_ size).

(** [Compare]: the loop over the two windows. *)
Fixpoint Compare_loop (stringType : StringType) (fuel : nat)
    (mem : list Z) (read readEnd : Z) (otherMem : list Z) (otherRead otherEnd : Z)
    : outcome Z :=
  match fuel with
  | O => OutOfFuel
  | S fuel' =>
    if negb (read =? readEnd) && negb (otherRead =? otherEnd) then
      match deref mem read, deref otherMem otherRead with
      | Some c, Some oc =>
        let elem := UChar stringType c in
        let otherElem := UChar stringType oc in
        if negb (elem =? otherElem)
        then Returns (if otherElem <? elem then 1 else -1)
        else Compare_loop stringType fuel' mem (read + 1) readEnd otherMem (otherRead + 1) otherEnd
      | _, _ => Undefined
      end
    else Returns 0
  end.

(** [read] moves up by one per iteration and a dereference past the
    sequence is undefined, so the length of the sequence bounds the
    number of iterations. *)
Definition Compare (stringType : StringType) (v other : t) : outcome Z :=
  Compare_loop stringType (S (length (underlying v)))
    (underlying v) (m_StrBegin v) (m_StrEnd v)
    (underlying other) (m_StrBegin other) (m_StrEnd other).

Definition outcome_test (f : Z -> bool) (o : outcome Z) : outcome bool :=
  match o with
  | Returns z => Returns (f z)
  | Throws e => Throws e
  | Undefined => Undefined
  | OutOfFuel => OutOfFuel
  end.

Definition op_lt stringType v other := outcome_test (fun c => c <? 0) (Compare stringType v other).
Definition op_gt stringType v other := outcome_test (fun c => 0 <? c) (Compare stringType v other).
Definition op_le stringType v other := outcome_test (fun c => c <=? 0) (Compare stringType v other).
Definition op_ge stringType v other := outcome_test (fun c => 0 <=? c) (Compare stringType v other).

Definition op_eq stringType v other : outcome bool :=
  if negb (GetSize v =? GetSize other) then Returns false
  else outcome_test (fun c => c =? 0) (Compare stringType v other).

(** [FindCharRepeat] *)
Definition FindCharRepeat (v : t) (findChar repeatCount nBegin : Z) : outcome Z :=
  let length := GetSize v in
  let realBegin := ApplyOffset nBegin length in
  if repeatCount =? 0 then Returns realBegin
  else if (length <? repeatCount) || (length <? to_size_t (realBegin + repeatCount))
  then Returns npos
  else
    match detail_.SearchCharRepeat (underlying v) (m_StrBegin v + realBegin) (m_StrEnd v)
            findChar repeatCount with
    | Returns pos => if pos =? npos then Returns npos else Returns (to_size_t (pos + realBegin))
    | o => o
    end.

(** The [assert]s reached by a call of [FindCharRepeat]: the one of
    [ApplyOffset] and, when the helper is called, the helper's. *)
Definition FindCharRepeat_calls_helper (v : t) (repeatCount nBegin : Z) : bool :=
  let length := GetSize v in
  let realBegin := ApplyOffset nBegin length in
  negb (repeatCount =? 0)
  && negb ((length <? repeatCount) || (length <? to_size_t (realBegin + repeatCount))).

Definition FindCharRepeat_helper_asserts (v : t) (repeatCount nBegin : Z) : bool :=
  let realBegin := ApplyOffset nBegin (GetSize v) in
  detail_.SearchCharRepeat_asserts (m_StrBegin v + realBegin) (m_StrEnd v) repeatCount.

(** [Find(StringView const& pattern, nBegin)] *)
Definition Find (heap_has_room : bool) (v pattern : t) (nBegin : Z) : outcome Z :=
  let length := GetSize v in
  let realBegin := ApplyOffset nBegin length in
  let patternLength := GetSize pattern in
  if patternLength =? 0 then Returns realBegin
  else if (length <? patternLength) || (length <? to_size_t (realBegin + patternLength))
  then Returns npos
  else
    match detail_.MatchString heap_has_room (underlying v) (m_StrBegin v + realBegin) (m_StrEnd v)
            (underlying pattern) (m_StrBegin pattern) (m_StrEnd pattern) with
    | Returns pos => if pos =? npos then Returns npos else Returns (to_size_t (pos + realBegin))
    | o => o
    end.

(** [Find(CharType findChar, nBegin)] *)
Definition FindChar (v : t) (findChar nBegin : Z) : outcome Z :=
  FindCharRepeat v findChar 1 nBegin.

(** [operator!=] *)
Definition op_ne stringType v other : outcome bool :=
  if negb (GetSize v =? GetSize other) then Returns true
  else outcome_test (fun c => negb (c =? 0)) (Compare stringType v other).

(** [explicit StringView(CharIterator begin)]: the view from [begin] to
    the terminator found by [GetEndOfString]. *)
Definition of_c_string (mem : list Z) (begin_ : Z) : outcome t :=
  detail_.outcome_bind (detail_.GetEndOfString mem begin_) (fun end_ =>
  Returns (mk mem begin_ end_)).

(** [Clear] *)
Definition Clear (v : t) : t := mk (underlying v) (m_StrEnd v) (m_StrEnd v).

(** [DoesOverlapWith], for two views of one sequence. *)
Definition DoesOverlapWith (v other : t) : bool :=
  (m_StrBegin v <? m_StrEnd other) && (m_StrBegin other <? m_StrEnd v).

(** The backward searches run the forward helpers over
    [std::reverse_iterator]s.  A reverse iterator with base pointer [b]
    into a sequence of [L] units is the pointer [L - b] into the reversed
    sequence: [*it] is [b[-1]], [it + n] has base [b - n] and
    [it2 - it1] is [b1 - b2].  [crbegin()] is built from [m_StrBegin] and
    [crend()] from [m_StrEnd]. *)
Definition reversed (v : t) : list Z := reverse (underlying v).
Definition crbegin (v : t) : Z := Z.of_nat (length (underlying v)) - m_StrBegin v.
Definition crend (v : t) : Z := Z.of_nat (length (underlying v)) - m_StrEnd v.

(** [FindCharRepeatBackward] *)
Definition FindCharRepeatBackward (v : t) (findChar repeatCount nEnd : Z) : outcome Z :=
  let length := GetSize v in
  let realEnd := ApplyOffset nEnd length in
  if repeatCount =? 0 then Returns realEnd
  else if (length <? repeatCount) || (realEnd <? repeatCount)
  then Returns npos
  else
    match detail_.SearchCharRepeat (reversed v) (crbegin v + realEnd) (crend v)
            findChar repeatCount with
    | Returns pos =>
      if pos =? npos then Returns npos
      else Returns (to_size_t (to_size_t (realEnd - pos) - repeatCount))
    | o => o
    end.

(** [FindBackward(CharType findChar, nEnd)] *)
Definition FindCharBackward (v : t) (findChar nEnd : Z) : outcome Z :=
  FindCharRepeatBackward v findChar 1 nEnd.

(** [Find(StringView const& pattern, nBegin)], the table of
    [MatchString] in the block it obtains. *)
Definition Find_in_block (heap_has_room : bool) (v pattern : t) (nBegin : Z) : outcome Z :=
  let length := GetSize v in
  let realBegin := ApplyOffset nBegin length in
  let patternLength := GetSize pattern in
  if patternLength =? 0 then Returns realBegin
  else if (length <? patternLength) || (length <? to_size_t (realBegin + patternLength))
  then Returns npos
  else
    match detail_.MatchString_in_block heap_has_room (underlying v)
            (m_StrBegin v + realBegin) (m_StrEnd v)
            (underlying pattern) (m_StrBegin pattern) (m_StrEnd pattern) with
    | Returns pos => if pos =? npos then Returns npos else Returns (to_size_t (pos + realBegin))
    | o => o
    end.

(** [FindBackward(StringView const& pattern, nEnd)] *)
Definition FindBackward (heap_has_room : bool) (v pattern : t) (nEnd : Z) : outcome Z :=
  let length := GetSize v in
  let realEnd := ApplyOffset nEnd length in
  let patternLength := GetSize pattern in
  if patternLength =? 0 then Returns realEnd
  else if (length <? patternLength) || (realEnd <? length)
  then Returns npos
  else
    match detail_.MatchString heap_has_room (reversed v) (crbegin v + realEnd) (crend v)
            (reversed pattern) (crbegin pattern) (crend pattern) with
    | Returns pos =>
      if pos =? npos then Returns npos
      else Returns (to_size_t (to_size_t (realEnd - pos) - patternLength))
    | o => o
    end.

(** The reference search of the specification (section 8, "a naive
    O(n*m) reference search"), written from its words: the smallest
    offset at or after [from] at which [pattern] occurs in [source], and
    [npos] when it occurs nowhere; an empty pattern occurs at every
    position. *)
Definition occurs_at (source pattern : list Z) (i : nat) : bool :=
  bool_decide (take (length pattern) (drop i source) = pattern).

Definition reference_Find (source pattern : list Z) (from : nat) : Z :=
  match List.find (occurs_at source pattern) (seq from (S (length source) - from)) with
  | Some i => Z.of_nat i
  | None => npos
  end.

End StringView.

(** ** String *)

Module String.

Definition MaxShortStringSize : Z := 31.
Definition npos : Z := detail_.npos.

Import detail_.

(** The string is its [m_Storage], a
    [StringStorage<CharType, MaxShortStringSize>], with the free store. *)
Definition t : Type := state.

(** A [View] as the string sees it: two pointers, possibly into the
    string's own buffer. *)
Record View := mkView {
  view_begin : pointer;
  view_end : pointer
}.

Definition view_size (v : View) : option Z :=
  match view_begin v, view_end v with
  | At (Block b) i, At (Block b') j => if decide (b = b') then Some (to_size_t (j - i)) else None
  | At Inline i, At Inline j => Some (to_size_t (j - i))
  | At (Extern l) i, At (Extern l') j => Some (to_size_t (j - i))
  | _, _ => None
  end.

(** [String()] *)
Definition empty : t := (mkStore ∅ 0, StringStorage_new MaxShortStringSize).

Definition size (s : t) : Z := Size s.2.

Definition Reserve (newCapacity : Z) (s : t) : outcome t :=
  detail_.Reserve MaxShortStringSize newCapacity s.

Definition Resize (newSize : Z) (s : t) : outcome t :=
  detail_.Resize MaxShortStringSize newSize s.

(** [ResizeMore]: the new state and the pointer returned. *)
Definition ResizeMore (moreSize : Z) (s : t) : outcome (t * pointer) :=
  let oldSize := Size s.2 in
  outcome_bind (Resize (to_size_t (oldSize + moreSize)) s) (fun s =>
  Returns (s, ptr_add (GetData MaxShortStringSize s.2) oldSize)).

(** [Append(CharType Char, size_t count)] *)
Definition Append_char (Char count : Z) (s : t) : outcome t :=
  outcome_bind (ResizeMore count s) (fun '(s, data) =>
  lift (store_range MaxShortStringSize s data (replicate (Z.to_nat count) (unit_ Char)))).

(** [std::copy(first, first + n, d)]: one slot after the other, each
    read seeing the writes before it. *)
Fixpoint copy_loop (n : nat) (first d : pointer) (s : t) : outcome t :=
  match n with
  | O => Returns s
  | S n' =>
    match load_range MaxShortStringSize s first 1 with
    | Some [c] =>
      match store_range MaxShortStringSize s d [c] with
      | Some s' => copy_loop n' (ptr_add first 1) (ptr_add d 1) s'
      | None => Undefined
      end
    | _ => Undefined
    end
  end.

(** [Append(View const& view)] *)
Definition Append (view : View) (s : t) : outcome t :=
  match view_size view with
  | None => Undefined
  | Some n =>
    outcome_bind (ResizeMore n s) (fun '(s, data) =>
    copy_loop (Z.to_nat n) (view_begin view) data s)
  end.

(** [GetView()] *)
Definition GetView (s : t) : View :=
  let data := GetData MaxShortStringSize s.2 in
  mkView data (ptr_add data (Size s.2)).

(** The slots [0 .. Size), and the code units they hold when all of
    them are determinate. *)
Definition slots (s : t) : option (list cell) :=
  load_range MaxShortStringSize s (GetData MaxShortStringSize s.2) (Z.to_nat (Size s.2)).

Fixpoint determinate (l : list cell) : option (list Z) :=
  match l with
  | [] => Some []
  | unit_ c :: l' => (c ::.) <$> determinate l'
  | indeterminate :: _ => None
  end.

Definition content (s : t) : option (list Z) := slots s ≫= determinate.

Definition UncheckGet (s : t) (index : Z) : outcome Z :=
  match load_range MaxShortStringSize s (ptr_add (GetData MaxShortStringSize s.2) index) 1 with
  | Some [unit_ c] => Returns c
  | _ => Undefined
  end.

Definition Get (s : t) (index : Z) : outcome Z :=
  if Size s.2 <=? index
  then Throws (natException_ "index is out of range.")
  else UncheckGet s index.

(** Whether the string is in its inline representation. *)
Definition is_inline (s : t) : bool := Capacity s.2 <=? MaxShortStringSize.

(** The array [GetData()] points to, when it points to one. *)
Definition buffer (s : t) : option (list cell) :=
  if is_inline s then Some (read_Array MaxShortStringSize (Members s.2))
  else match Members s.2 with
       | as_Pointer (At (Block b) 0) => live s.1 !! b
       | _ => None
       end.

(** The representation invariant of a string: the used length leaves
    room for the terminator, and [GetData()] points to an array of
    [Capacity] slots, which the string's own allocation provides once
    the capacity is above the inline one. *)
Record wf (s : t) : Prop := {
  wf_size : 0 <= Size s.2 < Capacity s.2;
  wf_capacity : MaxShortStringSize <= Capacity s.2 < size_t_modulus;
  wf_buffer : exists buf, buffer s = Some buf /\ Z.of_nat (length buf) = Capacity s.2;
  wf_fresh : forall b, is_Some (live s.1 !! b) -> (b < allocations s.1)%nat
}.

(** [Assign(CharType Char, size_t count)] *)
Definition Assign_char (Char count : Z) (s : t) : outcome t :=
  outcome_bind (Resize count s) (fun s =>
  lift (store_range MaxShortStringSize s (GetData MaxShortStringSize s.2)
          (replicate (Z.to_nat count) (unit_ Char)))).

(** [Assign(View const& view)] *)
Definition Assign (view : View) (s : t) : outcome t :=
  match view_size view with
  | None => Undefined
  | Some n =>
    outcome_bind (Resize n s) (fun s =>
    copy_loop (Z.to_nat n) (view_begin view) (GetData MaxShortStringSize s.2) s)
  end.

(** [Clear] *)
Definition Clear (s : t) : outcome t := Resize 0 s.

(** [pop_front(count)] and its [assert] *)
Definition pop_assert (count : Z) (s : t) : bool := count <=? Size s.2.

Definition pop_front (count : Z) (s : t) : outcome t :=
  let data := GetData MaxShortStringSize s.2 in
  outcome_bind
    (copy_loop (Z.to_nat (to_size_t (Size s.2 - count))) (ptr_add data count) data s) (fun s =>
  Resize (to_size_t (Size s.2 - count)) s).

(** [pop_back(count)] *)
Definition pop_back (count : Z) (s : t) : outcome t :=
  Resize (to_size_t (Size s.2 - count)) s.

(** [~String()] *)
Definition destroy (s : t) : outcome FreeStore :=
  StringStorage_destroy MaxShortStringSize s.1 s.2.

(** Sequences of the growing operations. *)
Inductive operation :=
| do_Resize (newSize : Z)
| do_Append_char (Char count : Z)
| do_Append (view : View).

Definition perform (o : operation) (s : t) : outcome t :=
  match o with
  | do_Resize newSize => Resize newSize s
  | do_Append_char Char count => Append_char Char count s
  | do_Append view => Append view s
  end.

(** All states the string goes through, the first one first. *)
Fixpoint run (ops : list operation) (s : t) : outcome (list t) :=
  match ops with
  | [] => Returns [s]
  | o :: ops' =>
    outcome_bind (perform o s) (fun s' =>
    outcome_bind (run ops' s') (fun trace => Returns (s :: trace)))
  end.

(** The string obtained by appending, to the empty string, a view of
    the units [l] held outside the string (what [String(View const&)]
    builds as well). *)
Definition of_list (l : list Z) : outcome t :=
  Append (mkView (At (Extern (unit_ <$> l)) 0) (At (Extern (unit_ <$> l)) (Z.of_nat (length l)))) empty.

(** A view of the units [l] held in memory outside the string. *)
Definition outside (l : list Z) : View :=
  mkView (At (Extern (unit_ <$> l)) 0) (At (Extern (unit_ <$> l)) (Z.of_nat (length l))).

(** [String(const CharType* str)]: [Assign(View{ str })], the view
    running from [str] to the terminator. *)
Definition of_c_string (mem : list Z) (str : Z) : outcome t :=
  outcome_bind (GetEndOfString mem str) (fun end_ =>
  Assign (mkView (At (Extern (unit_ <$> mem)) str) (At (Extern (unit_ <$> mem)) end_)) empty).

(** All the operations that change a string. *)
Inductive mutation :=
| call_Reserve (newCapacity : Z)
| call_Resize (newSize : Z)
| call_Assign_char (Char count : Z)
| call_Assign (units : list Z)
| call_Append_char (Char count : Z)
| call_Append (units : list Z)
| call_Clear
| call_pop_front (count : Z)
| call_pop_back (count : Z).

Definition apply (c : mutation) (s : t) : outcome t :=
  match c with
  | call_Reserve newCapacity => Reserve newCapacity s
  | call_Resize newSize => Resize newSize s
  | call_Assign_char Char count => Assign_char Char count s
  | call_Assign units => Assign (outside units) s
  | call_Append_char Char count => Append_char Char count s
  | call_Append units => Append (outside units) s
  | call_Clear => Clear s
  | call_pop_front count => pop_front count s
  | call_pop_back count => pop_back count s
  end.

Fixpoint apply_all (cs : list mutation) (s : t) : outcome t :=
  match cs with
  | [] => Returns s
  | c :: cs' => outcome_bind (apply c s) (apply_all cs')
  end.

End String.

(** ** natUtil *)

Module natUtil.

(** The implicit conversion of a [char] to [wchar_t], 16 bits wide and
    unsigned under [Windows.h]. *)
Definition to_wchar_t (c : Z) : Z := c mod 2 ^ 16.

(** The implicit conversion of a [wchar_t] to [char], 8 bits wide; the
    result is read as signed or unsigned by [char_is_signed]. *)
Definition to_char (char_is_signed : bool) (w : Z) : Z :=
  if char_is_signed then (w + 2 ^ 7) mod 2 ^ 8 - 2 ^ 7 else w mod 2 ^ 8.

(** [C2Wstr]: [std::wstring(str.begin(), str.end())] *)
Definition C2Wstr (str : list Z) : list Z := to_wchar_t <$> str.

(** [W2Cstr]: [std::string(str.begin(), str.end())] *)
Definition W2Cstr (char_is_signed : bool) (str : list Z) : list Z :=
  to_char char_is_signed <$> str.

End natUtil.

End NatsuLib.

Import NatsuLib.

(** ** Borders of a pattern

    The notions the failure table is measured against.  A border of the
    first [n] units of [p] is a prefix of them, shorter than [n], that is
    also their suffix. *)

Module Border.

Definition is_border (p : list Z) (n b : nat) : Prop :=
  (b < n)%nat /\ forall j, (j < b)%nat -> p !! j = p !! (n - b + j)%nat.

Definition borderb (p : list Z) (n b : nat) : bool :=
  forallb (fun j => bool_decide (p !! j = p !! (n - b + j)%nat)) (seq 0 b).

(** The largest [k < n] with [f k]. *)
Fixpoint largest_below (f : nat -> bool) (n : nat) : option nat :=
  match n with
  | O => None
  | S k => if f k then Some k else largest_below f k
  end.

(** The length of the longest proper border of [p[0..n-1]]. *)
Definition longest_border (p : list Z) (n : nat) : nat :=
  default 0%nat (largest_below (borderb p n) n).

(** The length of the longest proper border [b] of [p[0..n-1]] that is
    not followed by the unit that follows the prefix ([p[b] <> p[n]]),
    and 0 when there is none. *)
Definition longest_differing_border (p : list Z) (n : nat) : nat :=
  default 0%nat
    (largest_below (fun b => borderb p n b && negb (bool_decide (p !! b = p !! n))) n).

(** The same as a relation. *)
Definition differing_border_spec (p : list Z) (n f : nat) : Prop :=
  (f = 0%nat \/ (is_border p n f /\ p !! f <> p !! n)) /\
  forall b, is_border p n b -> p !! b <> p !! n -> (b <= f)%nat.

(** The first [n] entries of [table] hold these lengths. *)
Definition table_filled (p : list Z) (table : list Z) (n : nat) : Prop :=
  forall i, (i < n)%nat ->
    table !! i = Some (Z.of_nat (longest_differing_border p (S i))).

End Border.

(** Every access through a pointer reads one array: the inline one, a
    live array of the free store, or outside memory. *)
Definition place_cells (ArrayMaxSize : Z) (m : detail_.state) (pl : detail_.place)
    : option (list detail_.cell) :=
  match pl with
  | detail_.Inline => Some (detail_.read_Array ArrayMaxSize (detail_.Members m.2))
  | detail_.Block b => detail_.live m.1 !! b
  | detail_.Extern l => Some l
  end.

(** ** Comparison and runs on the code units of a view *)

(** What the loop of [Compare] computes, on the code units of the two
    views: the sign at the first position where the units differ as
    unsigned values, and 0 when the shorter view runs out first. *)
Fixpoint compare_units (stringType : StringType) (a b : list Z) : Z :=
  match a, b with
  | x :: a', y :: b' =>
    if UChar stringType x =? UChar stringType y then compare_units stringType a' b'
    else if UChar stringType y <? UChar stringType x then 1 else -1
  | _, _ => 0
  end.

(** A run of [repeatCount] copies of [c] starts at the pointer [p]. *)
Definition run_at (mem : list Z) (c repeatCount p : Z) : Prop :=
  forall j, 0 <= j < repeatCount -> deref mem (p + j) = Some c.

(** A run of [repeatCount] copies of [c] starts at offset [i] of the view. *)
Definition run_at_offset (v : StringView.t) (c repeatCount i : Z) : Prop :=
  forall j, 0 <= j < repeatCount -> StringView.UncheckGet v (i + j) = Returns c.

(** What a search that has reached [current] answers: the distance from
    the first run at or after [current] to the end of the window, or
    [npos] when there is no run. *)
Definition search_answers (mem : list Z) (srcEnd c k : Z) (o : outcome Z) (current : Z) : Prop :=
  (exists p, o = Returns (srcEnd - p) /\ current <= p /\ p + k <= srcEnd
             /\ run_at mem c k p /\ forall q, current <= q < p -> ~ run_at mem c k q)
  \/ (o = Returns detail_.npos
      /\ forall q, current <= q -> q + k <= srcEnd -> ~ run_at mem c k q).

(** ** States of the storage in terms of its array

    The states the operations of [StringStorage] lead to, written in
    terms of the array [GetData()] points to. *)

Import detail_.

(** The string with its [Size] set to [n]. *)
Definition set_Size (n : Z) (s : String.t) : String.t :=
  (s.1, mkStorage n (Capacity s.2) (Members s.2)).

(** The string with [buf] as the contents of the array [GetData()]
    points to. *)
Definition with_buffer (s : String.t) (buf : list cell) : String.t :=
  if String.is_inline s then (s.1, mkStorage (Size s.2) (Capacity s.2) (as_Array buf))
  else match Members s.2 with
       | as_Pointer (At (Block b) 0) =>
         (mkStore (<[b := buf]> (live s.1)) (allocations s.1), s.2)
       | _ => s
       end.

(** The string after [Reserve] has replaced its array by a new one of
    [newCapacity] slots holding [buf], and released the old one. *)
Definition reallocated (s : String.t) (newCapacity : Z) (buf : list cell) : String.t :=
  let b := allocations s.1 in
  let kept :=
    if String.is_inline s then live s.1
    else match Members s.2 with
         | as_Pointer (At (Block old) 0) => delete old (live s.1)
         | _ => live s.1
         end in
  (mkStore (<[b := buf]> kept) (S b),
   mkStorage (Size s.2) newCapacity (as_Pointer (At (Block b) 0))).

(** What [Reserve] leaves in the new array: the used slots and the
    terminator when the string is not empty, nothing otherwise. *)
Definition grown_buffer (buf : list cell) (size newCapacity : Z) : list cell :=
  if 0 <? size
  then take (Z.to_nat size) buf ++ [unit_ 0]
       ++ replicate (Z.to_nat newCapacity - (Z.to_nat size + 1)) indeterminate
  else replicate (Z.to_nat newCapacity) indeterminate.

(** What [Resize] writes: zeros over the slots the string grows by, then
    the terminator. *)
Definition resized_buffer (buf : list cell) (size newSize : Z) : option (list cell) :=
  buf' ← cells_write buf size (replicate (Z.to_nat (newSize - size)) (unit_ 0));
  cells_write buf' newSize [unit_ 0].

(** Whether [Resize(newSize)] replaces the array. *)
Definition Resize_reallocates (s : String.t) (newSize : Z) : bool :=
  (Capacity s.2 <=? newSize) && (Capacity s.2 <? Grow newSize).

(** The string is in its inline representation and no array was ever
    obtained from the free store. *)
Definition never_allocated (s : String.t) : Prop :=
  String.is_inline s = true /\ allocations s.1 = 0%nat.

(** The array of the free store a heap-backed storage points to. *)
Definition owns (s : String.t) (b : nat) : Prop :=
  String.is_inline s = false /\ Members s.2 = as_Pointer (At (Block b) 0).

(** ** What a string holds

    The code units of a well-formed string, the slot read by
    [data()[size()]], and the free store when the string is its only
    user. *)

Definition holds (s : String.t) (us : list Z) : Prop :=
  String.wf s /\ String.content s = Some us.

Definition terminator (s : String.t) : option (list cell) :=
  load_range String.MaxShortStringSize s
    (ptr_add (GetData String.MaxShortStringSize s.2) (Size s.2)) 1.

(** Every live array of the free store is the one the string points to. *)
Definition sole_owner (s : String.t) : Prop :=
  forall b, is_Some (live s.1 !! b) -> owns s b.

(** The operations on the code units. *)
Definition effect (c : String.mutation) (us : list Z) : list Z :=
  match c with
  | String.call_Reserve _ => us
  | String.call_Resize newSize =>
    take (Z.to_nat newSize) us ++ replicate (Z.to_nat newSize - length us) 0
  | String.call_Assign_char Char count => replicate (Z.to_nat count) Char
  | String.call_Assign units => units
  | String.call_Append_char Char count => us ++ replicate (Z.to_nat count) Char
  | String.call_Append units => us ++ units
  | String.call_Clear => []
  | String.call_pop_front count => drop (Z.to_nat count) us
  | String.call_pop_back count => take (length us - Z.to_nat count) us
  end.

(** The arguments are values of [size_t], the resulting size stays below
    [npos], and [pop_front] and [pop_back] meet their [assert]. *)
Definition admissible (c : String.mutation) (us : list Z) : Prop :=
  match c with
  | String.call_Reserve newCapacity => 0 <= newCapacity < size_t_modulus
  | String.call_Resize newSize => 0 <= newSize < size_t_modulus - 1
  | String.call_Assign_char _ count => 0 <= count < size_t_modulus - 1
  | String.call_Assign units => Z.of_nat (length units) < size_t_modulus - 1
  | String.call_Append_char _ count =>
    0 <= count /\ Z.of_nat (length us) + count < size_t_modulus - 1
  | String.call_Append units =>
    Z.of_nat (length us) + Z.of_nat (length units) < size_t_modulus - 1
  | String.call_Clear => True
  | String.call_pop_front count | String.call_pop_back count =>
    0 <= count <= Z.of_nat (length us)
  end.

Fixpoint admissible_all (cs : list String.mutation) (us : list Z) : Prop :=
  match cs with
  | [] => True
  | c :: cs' => admissible c us /\ admissible_all cs' (effect c us)
  end.

(** The code units after a sequence of operations. *)
Fixpoint effects (cs : list String.mutation) (us : list Z) : list Z :=
  match cs with
  | [] => us
  | c :: cs' => effects cs' (effect c us)
  end.

Definition is_Reserve (c : String.mutation) : bool :=
  match c with
  | String.call_Reserve _ => true
  | _ => false
  end.

(** ** Occurrences of a pattern in memory *)

(** The units [p] stand at the pointer [q]. *)
Definition occurs_in (mem : list Z) (p : list Z) (q : Z) : Prop :=
  forall j, (j < length p)%nat -> deref mem (q + Z.of_nat j) = p !! j.

(** ** The call of [MatchString] made by [Find] *)

(** Whether [Find] gets as far as calling [MatchString], and the
    [assert]s of that call. *)
Definition Find_calls_MatchString (v pattern : StringView.t) (nBegin : Z) : bool :=
  let length := StringView.GetSize v in
  let realBegin := StringView.ApplyOffset nBegin length in
  let patternLength := StringView.GetSize pattern in
  negb (patternLength =? 0)
  && negb ((length <? patternLength) || (length <? to_size_t (realBegin + patternLength))).

Definition Find_MatchString_asserts (v pattern : StringView.t) (nBegin : Z) : bool :=
  let realBegin := StringView.ApplyOffset nBegin (StringView.GetSize v) in
  MatchString_asserts (StringView.m_StrBegin v + realBegin) (StringView.m_StrEnd v)
    (StringView.m_StrBegin pattern) (StringView.m_StrEnd pattern).

(** The view of the units [a .. a + n) of the string itself. *)
Definition own_view (s : String.t) (a n : Z) : String.View :=
  String.mkView (ptr_add (GetData String.MaxShortStringSize s.2) a)
                (ptr_add (GetData String.MaxShortStringSize s.2) (a + n)).

(** * Properties *)

(** ** Machine integers *)

Lemma to_size_t_small z : is_size_t z -> to_size_t z = z.
Proof. unfold is_size_t, to_size_t. intros H. apply Z.mod_small. exact H. Qed.

Lemma to_size_t_range z : is_size_t (to_size_t z).
Proof. unfold is_size_t, to_size_t, size_t_modulus. apply Z.mod_pos_bound. lia. Qed.

Lemma to_ptrdiff_t_small z : is_ptrdiff_t z -> to_ptrdiff_t z = z.
Proof.
  unfold is_ptrdiff_t, to_ptrdiff_t, ptrdiff_t_half, size_t_modulus. intros H.
  rewrite Z.mod_small; lia.
Qed.

Lemma deref_Some mem p c :
  deref mem p = Some c <-> 0 <= p /\ mem !! Z.to_nat p = Some c.
Proof.
  unfold deref. destruct (Z.ltb_spec p 0); split; try lia; intuition congruence.
Qed.

Lemma deref_in_range mem p :
  0 <= p < Z.of_nat (length mem) -> exists c, deref mem p = Some c.
Proof.
  intros H. destruct (lookup_lt_is_Some_2 mem (Z.to_nat p)) as [c Hc]; [lia|].
  exists c. apply deref_Some. split; [lia|done].
Qed.

(** ** StringView: size, slicing and checked access *)

Lemma GetSize_wf v :
  StringView.wf v -> StringView.GetSize v = StringView.m_StrEnd v - StringView.m_StrBegin v.
Proof.
  intros (H1 & H2 & H3). unfold StringView.GetSize. apply to_size_t_small.
  unfold is_size_t, size_t_modulus, ptrdiff_t_half in *. lia.
Qed.

Lemma units_wf v :
  StringView.wf v ->
  StringView.units v =
    Some (take (Z.to_nat (StringView.GetSize v))
            (drop (Z.to_nat (StringView.m_StrBegin v)) (StringView.underlying v))).
Proof.
  intros Hwf. rewrite (GetSize_wf v Hwf). destruct Hwf as (H1 & H2 & H3).
  unfold StringView.units.
  destruct (Z.leb_spec 0 (StringView.m_StrBegin v)); [|lia].
  destruct (Z.leb_spec (StringView.m_StrBegin v) (StringView.m_StrEnd v)); [|lia].
  destruct (Z.leb_spec (StringView.m_StrEnd v) (Z.of_nat (length (StringView.underlying v)))); [|lia].
  reflexivity.
Qed.

Lemma ApplyOffset_resolved offset size :
  is_ptrdiff_t offset -> is_size_t size ->
  StringView.ApplyOffset_assert offset size = true ->
  StringView.ApplyOffset offset size = (if offset <? 0 then size + 1 + offset else offset)
  /\ 0 <= StringView.ApplyOffset offset size <= size.
Proof.
  unfold StringView.ApplyOffset_assert, StringView.ApplyOffset, is_ptrdiff_t, is_size_t,
    to_size_t, ptrdiff_t_half, size_t_modulus.
  intros Ho Hs. destruct (Z.ltb_spec offset 0) as [Hneg|Hpos].
  - rewrite Zplus_mod_idemp_l. intros Ha%Z.leb_le.
    destruct (Z.le_gt_cases 0 (offset + (size + 1))) as [Hok|Hbad].
    + rewrite Z.mod_small in * by lia. lia.
    + exfalso. 
      assert (E : (offset + (size + 1)) mod 2 ^ 64 = offset + (size + 1) + 2 ^ 64).
      { symmetry. apply (Z.mod_unique_pos _ _ (-1)); lia. }
      rewrite E in Ha. lia.
  - rewrite Z.mod_small by lia. intros Ha%Z.leb_le. lia.
Qed.

Lemma UncheckGet_units v us pos :
  StringView.wf v -> StringView.units v = Some us ->
  0 <= pos < StringView.GetSize v ->
  exists c, us !! Z.to_nat pos = Some c /\ StringView.UncheckGet v pos = Returns c.
Proof.
  intros Hwf Hus Hpos. rewrite (units_wf v Hwf) in Hus. injection Hus as <-.
  rewrite (GetSize_wf v Hwf) in *. destruct Hwf as (H1 & H2 & H3).
  destruct (deref_in_range (StringView.underlying v) (StringView.m_StrBegin v + pos)) as [c Hc];
    [lia|].
  exists c. unfold StringView.UncheckGet. rewrite Hc. split; [|done].
  apply deref_Some in Hc as [_ Hc].
  rewrite lookup_take_lt by lia. rewrite lookup_drop. rewrite <- Hc. f_equal; lia.
Qed.

(** C1 as stated fails on the six-unit source: the end pointer of the
    result is the view's end plus the resolved end offset, so
    [Slice(-3, -1)] of "abcdef" is the window [4, 12), which is neither
    "de" nor the two units "ef" between the resolved positions 4 and 6. *)
Lemma Slice_abcdef_is_not_de :
  let r := StringView.Slice (StringView.of_list (u8 "abcdef")) (-3) (-1) in
  StringView.m_StrBegin r = 4 /\ StringView.m_StrEnd r = 12 /\
  StringView.GetSize r = 8 /\
  StringView.units r <> Some (u8 "de") /\
  StringView.units r <> Some (u8 "ef").
Proof. vm_compute. repeat split; discriminate. Qed.

(** C1, amended: [Slice] resolves each offset against the view's size (a
    negative offset [o] denotes position [size + 1 + o], so -1 is the
    one-past-the-end position and -2 the position before it; a
    non-negative offset denotes that position from the front; the resolved
    position is at most the size), and the view it returns borrows the
    same code units and begins at the resolved begin position, measured
    from the view's beginning. *)
Theorem Slice_begins_at_resolved_offset v begin_ end_ :
  StringView.wf v -> is_ptrdiff_t begin_ -> is_ptrdiff_t end_ ->
  StringView.ApplyOffset_assert begin_ (StringView.GetSize v) = true ->
  StringView.ApplyOffset_assert end_ (StringView.GetSize v) = true ->
  let size := StringView.GetSize v in
  let resolve o := if o <? 0 then size + 1 + o else o in
  StringView.ApplyOffset begin_ size = resolve begin_ /\
  StringView.ApplyOffset end_ size = resolve end_ /\
  0 <= resolve begin_ <= size /\ 0 <= resolve end_ <= size /\
  StringView.underlying (StringView.Slice v begin_ end_) = StringView.underlying v /\
  StringView.m_StrBegin (StringView.Slice v begin_ end_) = StringView.m_StrBegin v + resolve begin_ /\
  forall i, StringView.UncheckGet (StringView.Slice v begin_ end_) i
            = StringView.UncheckGet v (resolve begin_ + i).
Proof.
  intros Hwf Hb He Hab Hae size resolve.
  assert (Hsz : is_size_t size) by apply to_size_t_range.
  destruct (ApplyOffset_resolved begin_ size Hb Hsz Hab) as [Eb Rb].
  destruct (ApplyOffset_resolved end_ size He Hsz Hae) as [Ee Re].
  fold (resolve begin_) in Eb. fold (resolve end_) in Ee.
  rewrite Eb in Rb. rewrite Ee in Re.
  repeat split; try done; try lia.
  - unfold StringView.Slice. simpl. fold size. rewrite Eb. reflexivity.
  - intros i. unfold StringView.UncheckGet, StringView.Slice. simpl. fold size.
    rewrite Eb. rewrite Z.add_assoc. reflexivity.
Qed.

Lemma Slice_begins_at_resolved_offset_witness :
  let v := StringView.of_list (u8 "abcdef") in
  StringView.ApplyOffset (-3) (StringView.GetSize v) = 4 /\
  StringView.ApplyOffset (-1) (StringView.GetSize v) = 6 /\
  StringView.UncheckGet (StringView.Slice v (-3) (-1)) 0 = Returns 101.
Proof.
  intros v.
  destruct (Slice_begins_at_resolved_offset v (-3) (-1)) as (H1 & H2 & _ & _ & _ & _ & H3).
  - unfold StringView.wf, ptrdiff_t_half. simpl. lia.
  - unfold is_ptrdiff_t, ptrdiff_t_half. lia.
  - unfold is_ptrdiff_t, ptrdiff_t_half. lia.
  - reflexivity.
  - reflexivity.
  - split; [exact H1|]. split; [exact H2|]. rewrite H3. reflexivity.
Defined.

(** ** Comparison *)

(** C3 fails on the code at a strict prefix: the loop of [Compare] stops
    when either view is exhausted and then returns 0 whatever is left of
    the other, so "a" against "ab" compares equal; [<] and [>] are both
    false and [<=] and [>=] both true, while [==], which tests the sizes
    first, is false. *)
Theorem Compare_strict_prefix_returns_zero :
  let a := StringView.of_list (u8 "a") in
  let ab := StringView.of_list (u8 "ab") in
  StringView.Compare Utf8 a ab = Returns 0 /\
  StringView.Compare Utf8 ab a = Returns 0 /\
  StringView.op_lt Utf8 a ab = Returns false /\
  StringView.op_ge Utf8 a ab = Returns true /\
  StringView.op_le Utf8 ab a = Returns true /\
  StringView.op_eq Utf8 a ab = Returns false.
Proof. vm_compute. repeat split. Qed.

(** ** Character-run search *)

(** C2 fails on the code: on a match [SearchCharRepeat] returns
    [srcEnd - current], the distance from the match to the end of the
    window, where [MatchString] returns [current - srcBegin]; searching
    'a' in "abc" gives 3 and not 0, and a run of three 'a' that starts at
    offset 5 of "xaayyaaa" is reported at 3. *)
Theorem FindChar_abc_returns_distance_to_end :
  StringView.FindCharRepeat_helper_asserts (StringView.of_list (u8 "abc")) 1 0 = true /\
  StringView.FindChar (StringView.of_list (u8 "abc")) 97 0 = Returns 3 /\
  StringView.FindCharRepeat (StringView.of_list (u8 "xaayyaaa")) 97 3 0 = Returns 3.
Proof. vm_compute. repeat split. Qed.

(** Whenever the guards of [FindCharRepeat] let a call through with a
    window of exactly [repeatCount] units, the helper's second [assert],
    which wants the window strictly longer, is violated. *)
Lemma FindCharRepeat_tight_window_violates_assert v repeatCount nBegin :
  StringView.wf v -> is_ptrdiff_t nBegin -> 1 <= repeatCount ->
  StringView.ApplyOffset_assert nBegin (StringView.GetSize v) = true ->
  StringView.ApplyOffset nBegin (StringView.GetSize v) + repeatCount = StringView.GetSize v ->
  StringView.FindCharRepeat_calls_helper v repeatCount nBegin = true /\
  StringView.FindCharRepeat_helper_asserts v repeatCount nBegin = false.
Proof.
  intros Hwf Hn Hr Ha Hfit.
  assert (Hsz : is_size_t (StringView.GetSize v)) by apply to_size_t_range.
  destruct (ApplyOffset_resolved nBegin _ Hn Hsz Ha) as [_ Hrange].
  unfold StringView.FindCharRepeat_calls_helper, StringView.FindCharRepeat_helper_asserts,
    detail_.SearchCharRepeat_asserts.
  rewrite Hfit. rewrite (to_size_t_small (StringView.GetSize v)) by done.
  set (rb := StringView.ApplyOffset nBegin (StringView.GetSize v)) in *.
  assert (Hwin : to_size_t (StringView.m_StrEnd v - (StringView.m_StrBegin v + rb)) = repeatCount).
  { rewrite (GetSize_wf v Hwf) in *. unfold is_size_t in Hsz.
    rewrite to_size_t_small; [lia|]. unfold is_size_t. lia. }
  rewrite Hwin.
  destruct (Z.eqb_spec repeatCount 0); [lia|].
  destruct (Z.ltb_spec (StringView.GetSize v) repeatCount); [lia|].
  destruct (Z.ltb_spec (StringView.GetSize v) (StringView.GetSize v)); [lia|].
  destruct (Z.ltb_spec repeatCount repeatCount); [lia|].
  done.
Qed.

(** C10 fails on the code: for one character searched in a one-character
    view the guards of [FindCharRepeat] pass and the helper is called
    with a window of length 1 and [repeatCount] 1, where its second
    [assert] requires the window to be strictly longer. *)
Theorem Find_char_in_one_unit_view_violates_assert :
  let v := StringView.of_list (u8 "a") in
  StringView.ApplyOffset_assert 0 (StringView.GetSize v) = true /\
  StringView.FindCharRepeat_calls_helper v 1 0 = true /\
  StringView.FindCharRepeat_helper_asserts v 1 0 = false.
Proof. vm_compute. repeat split. Qed.

(** ** Substring search *)

(** The two searches named by the specification give the results it
    states. *)
Lemma Find_AABA_examples :
  let source := StringView.of_list (u8 "AABAACAADAABAABA") in
  StringView.Find true source (StringView.of_list (u8 "AABA")) 0 = Returns 0 /\
  StringView.Find true source (StringView.of_list (u8 "XYZ")) 0 = Returns StringView.npos.
Proof. vm_compute. repeat split. Qed.


(** ** Checked access *)

Lemma StringView_Get_throws_iff v pos :
  StringView.Get v pos = Throws (natException_ "Pos is out of range.")
  <-> StringView.GetSize v <= pos.
Proof.
  unfold StringView.Get. destruct (Z.leb_spec (StringView.GetSize v) pos) as [H|H].
  - tauto.
  - split; [|lia]. unfold StringView.UncheckGet.
    destruct (deref _ _); discriminate.
Qed.

Lemma cells_read_Some l i n r :
  detail_.cells_read l i n = Some r <->
  (0 <= i /\ i + Z.of_nat n <= Z.of_nat (length l)) /\ r = take n (drop (Z.to_nat i) l).
Proof.
  unfold detail_.cells_read, detail_.range_ok.
  destruct (Z.leb_spec 0 i), (Z.leb_spec (i + Z.of_nat n) (Z.of_nat (length l))); simpl;
    split; try (intros [? ?]; lia); try discriminate; try (intros [= <-]; split; [lia|done]);
    intros [_ ->]; done.
Qed.

Lemma cells_read_inside l i n r k x :
  detail_.cells_read l i n = Some r -> 0 <= k -> r !! Z.to_nat k = Some x ->
  detail_.cells_read l (i + k) 1 = Some [x].
Proof.
  intros [[H0 H1] ->]%cells_read_Some Hk Hx.
  assert (Hlt : (Z.to_nat k < n)%nat).
  { apply lookup_lt_Some in Hx. rewrite length_take in Hx. lia. }
  rewrite lookup_take_lt in Hx by done. rewrite lookup_drop in Hx.
  apply cells_read_Some. split; [lia|].
  replace (Z.to_nat (i + k)) with (Z.to_nat i + Z.to_nat k)%nat by lia.
  destruct (drop (Z.to_nat i + Z.to_nat k) l) as [|y t] eqn:E.
  - apply (f_equal length) in E. rewrite length_drop in E. simpl in E.
    apply lookup_lt_Some in Hx. lia.
  - assert (Hy : drop (Z.to_nat i + Z.to_nat k) l !! 0%nat = Some x).
    { rewrite lookup_drop. rewrite Nat.add_0_r. exact Hx. }
    rewrite E in Hy. simpl in Hy. injection Hy as ->. reflexivity.
Qed.

Lemma load_range_Some ArrayMaxSize m p n r :
  detail_.load_range ArrayMaxSize m p n = Some r <->
  exists pl i l, p = detail_.At pl i /\ place_cells ArrayMaxSize m pl = Some l
                 /\ detail_.cells_read l i n = Some r.
Proof.
  split.
  - destruct p as [| |[|b|l] i]; simpl; try discriminate.
    + intros H. exists detail_.Inline, i. eexists. eauto.
    + destruct (detail_.live m.1 !! b) as [l|] eqn:E; simpl; [|discriminate].
      intros H. exists (detail_.Block b), i, l. eauto.
    + intros H. exists (detail_.Extern l), i, l. eauto.
  - intros (pl & i & l & -> & Hl & Hr). destruct pl; simpl in *.
    + injection Hl as <-. exact Hr.
    + rewrite Hl. exact Hr.
    + injection Hl as <-. exact Hr.
Qed.

Lemma determinate_lookup l us k :
  String.determinate l = Some us ->
  (k < length l)%nat -> exists c, l !! k = Some (detail_.unit_ c) /\ us !! k = Some c.
Proof.
  revert us k. induction l as [|[|c] l IH]; intros us k H Hk; simpl in *; try lia; try discriminate.
  destruct (String.determinate l) as [us'|] eqn:E; simpl in H; [|discriminate].
  injection H as <-. destruct k as [|k]; simpl.
  - eauto.
  - apply (IH us' k); [done|lia].
Qed.

Lemma determinate_length l us : String.determinate l = Some us -> length us = length l.
Proof.
  revert us. induction l as [|[|c] l IH]; intros us H; simpl in *; try discriminate.
  - by injection H as <-.
  - destruct (String.determinate l) as [us'|] eqn:E; simpl in H; [|discriminate].
    injection H as <-. simpl. f_equal. by apply IH.
Qed.

Lemma String_Get_in_range s us index :
  String.content s = Some us -> 0 <= index < String.size s ->
  exists c, us !! Z.to_nat index = Some c /\ String.Get s index = Returns c.
Proof.
  unfold String.content, String.slots, String.size. intros Hc Hi.
  destruct (detail_.load_range _ s _ _) as [r|] eqn:Hr; simpl in Hc; [|discriminate].
  apply load_range_Some in Hr as (pl & i & l & Hp & Hl & Hr).
  assert (Hlen : length r = Z.to_nat (detail_.Size s.2)).
  { apply cells_read_Some in Hr as [[? ?] ->]. rewrite length_take, length_drop. lia. }
  destruct (determinate_lookup r us (Z.to_nat index) Hc) as (c & Hrc & Huc); [lia|].
  exists c. split; [done|].
  unfold String.Get. destruct (Z.leb_spec (detail_.Size s.2) index); [lia|].
  unfold String.UncheckGet. rewrite Hp. simpl detail_.ptr_add.
  assert (Hone : detail_.load_range String.MaxShortStringSize s (detail_.At pl (i + index)) 1
                 = Some [detail_.unit_ c]).
  { apply load_range_Some. exists pl, (i + index), l. split; [done|]. split; [done|].
    eapply cells_read_inside; [exact Hr|lia|exact Hrc]. }
  rewrite Hone. reflexivity.
Qed.

Lemma String_Get_throws_iff s index :
  String.Get s index = Throws (natException_ "index is out of range.")
  <-> String.size s <= index.
Proof.
  unfold String.Get, String.size. destruct (Z.leb_spec (detail_.Size s.2) index) as [H|H].
  - tauto.
  - split; [|lia]. unfold String.UncheckGet.
    destruct (detail_.load_range _ _ _ _) as [[|[|c] [|? ?]]|]; discriminate.
Qed.

(** C9: the checked accessor [Get(i)] of a view and of a string raises
    the out-of-range exception, which carries a message, if and only if
    [i >= size]; it raises nothing else; and for [i < size] it returns
    the [i]-th code unit.  [Get] is a [const] member: it yields an outcome
    and no new state of the object. *)
Theorem Get_raises_iff_index_not_below_size :
  (forall v us pos,
      StringView.wf v -> StringView.units v = Some us -> 0 <= pos ->
      (StringView.Get v pos = Throws (natException_ "Pos is out of range.")
       <-> StringView.GetSize v <= pos) /\
      (forall e, StringView.Get v pos = Throws e ->
                 e = natException_ "Pos is out of range." /\ StringView.GetSize v <= pos) /\
      (pos < StringView.GetSize v ->
       exists c, us !! Z.to_nat pos = Some c /\ StringView.Get v pos = Returns c)) /\
  (forall s us index,
      String.content s = Some us -> 0 <= index ->
      (String.Get s index = Throws (natException_ "index is out of range.")
       <-> String.size s <= index) /\
      (forall e, String.Get s index = Throws e ->
                 e = natException_ "index is out of range." /\ String.size s <= index) /\
      (index < String.size s ->
       exists c, us !! Z.to_nat index = Some c /\ String.Get s index = Returns c)).
Proof.
  split.
  - intros v us pos Hwf Hus Hpos. split; [apply StringView_Get_throws_iff|]. split.
    + intros e He. unfold StringView.Get in He.
      destruct (Z.leb_spec (StringView.GetSize v) pos) as [H|H].
      * injection He as <-. done.
      * unfold StringView.UncheckGet in He. destruct (deref _ _); discriminate.
    + intros Hlt. destruct (UncheckGet_units v us pos Hwf Hus) as (c & Hc & Hg); [lia|].
      exists c. split; [done|]. unfold StringView.Get.
      destruct (Z.leb_spec (StringView.GetSize v) pos); [lia|done].
  - intros s us index Hc Hi. split; [apply String_Get_throws_iff|]. split.
    + intros e He. unfold String.Get, String.size in *.
      destruct (Z.leb_spec (detail_.Size s.2) index) as [H|H].
      * injection He as <-. done.
      * unfold String.UncheckGet in He.
        destruct (detail_.load_range _ _ _ _) as [[|[|c] [|? ?]]|]; discriminate.
    + intros Hlt. apply String_Get_in_range; [done|lia].
Qed.

(** ** The failure table *)

Section Borders.
Import Border.
Variable p : list Z.

Lemma borderb_spec n b :
  borderb p n b = true <-> forall j, (j < b)%nat -> p !! j = p !! (n - b + j)%nat.
Proof.
  unfold borderb. rewrite forallb_forall. split.
  - intros H j Hj. specialize (H j). rewrite bool_decide_eq_true in H.
    apply H. apply in_seq. lia.
  - intros H j Hj%in_seq. apply bool_decide_eq_true. apply H. lia.
Qed.

Lemma largest_below_Some f n b :
  largest_below f n = Some b ->
  (b < n)%nat /\ f b = true /\ forall c, (b < c < n)%nat -> f c = false.
Proof.
  induction n as [|k IH]; simpl; [discriminate|].
  destruct (f k) eqn:E.
  - intros [= <-]. repeat split; [lia|done|]. intros c Hc. lia.
  - intros H. destruct (IH H) as (H1 & H2 & H3). repeat split; [lia|done|].
    intros c Hc. destruct (decide (c = k)) as [->|Hne]; [done|]. apply H3. lia.
Qed.

Lemma largest_below_None f n :
  largest_below f n = None -> forall c, (c < n)%nat -> f c = false.
Proof.
  induction n as [|k IH]; simpl; [intros _ c Hc; lia|].
  destruct (f k) eqn:E; [discriminate|].
  intros H c Hc. destruct (decide (c = k)) as [->|Hne]; [done|]. apply IH; [done|lia].
Qed.

Lemma border_zero n : (0 < n)%nat -> is_border p n 0.
Proof. intros H. split; [done|]. intros j Hj. lia. Qed.

(** A border of a border is a border. *)
Lemma border_trans n b c : is_border p n b -> is_border p b c -> is_border p n c.
Proof.
  intros [Hb Hbn] [Hc Hcb]. split; [lia|]. intros j Hj.
  rewrite (Hcb j Hj). rewrite (Hbn (b - c + j)%nat) by lia. f_equal; lia.
Qed.

(** Of two borders the shorter is a border of the longer. *)
Lemma border_of_longer n b c :
  is_border p n b -> is_border p n c -> (c < b)%nat -> is_border p b c.
Proof.
  intros [Hb Hbn] [Hc Hcn] Hlt. split; [done|]. intros j Hj.
  rewrite (Hcn j Hj). rewrite (Hbn (b - c + j)%nat) by lia. f_equal; lia.
Qed.

(** A border grows by one unit exactly when the units that follow agree. *)
Lemma border_extend n b :
  is_border p n b -> p !! b = p !! n -> is_border p (S n) (S b).
Proof.
  intros [Hb Hbn] He. split; [lia|]. intros j Hj.
  destruct (decide (j = b)) as [->|Hne].
  - rewrite He. f_equal; lia.
  - rewrite (Hbn j) by lia. f_equal; lia.
Qed.

Lemma border_shrink n b :
  is_border p (S n) (S b) -> is_border p n b /\ p !! b = p !! n.
Proof.
  intros [Hb Hbn]. split; [split; [lia|]|].
  - intros j Hj. rewrite (Hbn j) by lia. f_equal; lia.
  - rewrite (Hbn b) by lia. f_equal; lia.
Qed.

Lemma differing_border_spec_unique n f g :
  differing_border_spec p n f -> differing_border_spec p n g -> f = g.
Proof.
  intros [[->|[Hf Hf']] Hfmax] [[->|[Hg Hg']] Hgmax]; try done.
  - specialize (Hfmax g Hg Hg'). lia.
  - specialize (Hgmax f Hf Hf'). lia.
  - specialize (Hfmax g Hg Hg'). specialize (Hgmax f Hf Hf'). lia.
Qed.

Lemma longest_differing_border_spec n :
  differing_border_spec p n (longest_differing_border p n).
Proof.
  unfold longest_differing_border.
  destruct (largest_below _ n) as [b|] eqn:E; simpl.
  - apply largest_below_Some in E as (Hb & Hf & Hmax).
    apply andb_true_iff in Hf as [Hbord Hne].
    apply negb_true_iff, bool_decide_eq_false in Hne.
    split.
    + right. split; [|done]. split; [done|]. by apply borderb_spec.
    + intros c [Hc Hcb] Hcne. destruct (decide (c <= b)%nat) as [|Hgt]; [done|].
      specialize (Hmax c ltac:(lia)).
      apply andb_false_iff in Hmax as [Hm|Hm].
      * apply borderb_spec in Hcb. congruence.
      * apply negb_false_iff, bool_decide_eq_true in Hm. done.
  - split; [by left|]. intros c [Hc Hcb] Hcne.
    pose proof (largest_below_None _ _ E c Hc) as Hm.
    apply andb_false_iff in Hm as [Hm|Hm].
    + apply borderb_spec in Hcb. congruence.
    + apply negb_false_iff, bool_decide_eq_true in Hm. done.
Qed.

Lemma longest_border_spec n :
  (0 < n)%nat ->
  is_border p n (longest_border p n) /\
  forall b, is_border p n b -> (b <= longest_border p n)%nat.
Proof.
  intros Hn. unfold longest_border.
  destruct (largest_below _ n) as [b|] eqn:E; simpl.
  - apply largest_below_Some in E as (Hb & Hf & Hmax). split.
    + split; [done|]. by apply borderb_spec.
    + intros c [Hc Hcb]. destruct (decide (c <= b)%nat) as [|Hgt]; [done|].
      specialize (Hmax c ltac:(lia)). apply borderb_spec in Hcb. congruence.
  - pose proof (largest_below_None _ _ E 0%nat Hn) as Hm.
    assert (borderb p n 0 = true) by (apply borderb_spec; intros; lia). congruence.
Qed.
End Borders.

Lemma build_table_loop_unfold fuel patMem patternBegin patternSize pos cand table :
  detail_.build_table_loop (S fuel) patMem patternBegin patternSize pos cand table =
  let next pos' cand' table' :=
    if to_size_t pos' <? to_size_t (patternSize - 1)
    then detail_.build_table_loop fuel patMem patternBegin patternSize pos' cand' table'
    else Returns table' in
  match deref patMem (patternBegin + pos), deref patMem (patternBegin + cand) with
  | Some a, Some b =>
    if a =? b then
      let cand := cand + 1 in
      match deref patMem (patternBegin + (pos + 1)), deref patMem (patternBegin + cand) with
      | Some a', Some b' =>
        if a' =? b' then
          match detail_.table_get table (cand - 1) with
          | Some f => next (pos + 1) cand (detail_.table_set table pos f)
          | None => Undefined
          end
        else next (pos + 1) cand (detail_.table_set table pos cand)
      | _, _ => Undefined
      end
    else if cand =? 0 then next (pos + 1) cand (detail_.table_set table pos 0)
    else
      match detail_.table_get table (cand - 1) with
      | Some f => next pos f table
      | None => Undefined
      end
  | _, _ => Undefined
  end.
Proof. reflexivity. Qed.

Section Table.
Import Border.
Variables (patMem : list Z) (patternBegin : Z) (p : list Z).
Let m := length p.
Hypothesis Hread : forall i, (i < m)%nat -> 
   exists c, p !! i = Some c /\ deref patMem (patternBegin + Z.of_nat i) = Some c.
Hypothesis Hsmall : Z.of_nat m < ptrdiff_t_half.

Lemma loop_test pos' :
  (pos' < m)%nat ->
  (to_size_t (Z.of_nat pos') <? to_size_t (Z.of_nat m - 1)) = bool_decide (pos' < m - 1)%nat.
Proof.
  intros H. unfold ptrdiff_t_half in Hsmall.
  rewrite !to_size_t_small by (unfold is_size_t, size_t_modulus; lia).
  destruct (Z.ltb_spec (Z.of_nat pos') (Z.of_nat m - 1)); symmetry.
  - apply bool_decide_eq_true. lia.
  - apply bool_decide_eq_false. lia.
Qed.

Lemma table_filled_insert table n v :
  (n < length table)%nat ->
  table_filled p table n -> v = Z.of_nat (longest_differing_border p (S n)) ->
  table_filled p (<[n := v]> table) (S n).
Proof.
  intros Hlen Hf -> i Hi. destruct (decide (i = n)) as [->|Hne].
  - by rewrite list_lookup_insert_eq.
  - rewrite list_lookup_insert_ne by done. apply Hf. lia.
Qed.

Lemma build_table_loop_correct fuel : forall pos cand table,
  (1 <= pos)%nat -> (pos + 2 <= m)%nat -> (cand < pos)%nat ->
  length table = (m - 1)%nat ->
  is_border p pos cand ->
  (forall b, is_border p pos b -> (cand < b)%nat -> p !! b <> p !! pos) ->
  table_filled p table pos ->
  (2 * (m - 1 - pos) + cand <= fuel)%nat ->
  exists table',
    detail_.build_table_loop fuel patMem patternBegin (Z.of_nat m)
      (Z.of_nat pos) (Z.of_nat cand) table = Returns table'
    /\ length table' = (m - 1)%nat /\ table_filled p table' (m - 1).
Proof.
  induction fuel as [|fuel IH]; intros pos cand table Hpos Hm Hcand Hlen Hbord Hmax Hfill Hfuel;
    [lia|].
  rewrite build_table_loop_unfold. cbv zeta.
  destruct (Hread pos) as (a & Ha & ->); [lia|].
  destruct (Hread cand) as (b & Hb & ->); [lia|].
  (* what happens once table[pos] is stored and pos advanced *)
  assert (Hnext : forall cand' v,
    (cand' < S pos)%nat -> is_border p (S pos) cand' ->
    (forall b, is_border p (S pos) b -> (cand' < b)%nat -> p !! b <> p !! S pos) ->
    v = Z.of_nat (longest_differing_border p (S pos)) ->
    (2 * (m - 1 - S pos) + cand' <= fuel)%nat ->
    exists table',
      (if to_size_t (Z.of_nat pos + 1) <? to_size_t (Z.of_nat m - 1)
       then detail_.build_table_loop fuel patMem patternBegin (Z.of_nat m)
              (Z.of_nat pos + 1) (Z.of_nat cand') (detail_.table_set table (Z.of_nat pos) v)
       else Returns (detail_.table_set table (Z.of_nat pos) v)) = Returns table'
      /\ length table' = (m - 1)%nat /\ table_filled p table' (m - 1)).
  { intros cand' v Hc' Hb' Hmax' Hv Hfuel'.
    replace (Z.of_nat pos + 1) with (Z.of_nat (S pos)) by lia.
    rewrite loop_test by lia.
    assert (Hset : detail_.table_set table (Z.of_nat pos) v = <[pos := v]> table).
    { unfold detail_.table_set. destruct (Z.ltb_spec (Z.of_nat pos) 0); [lia|].
      by rewrite Nat2Z.id. }
    rewrite Hset.
    assert (Hfill' : table_filled p (<[pos := v]> table) (S pos)).
    { apply table_filled_insert; [lia|done|done]. }
    case_bool_decide as Hlt.
    - apply IH; try done; try lia. by rewrite length_insert.
    - eexists. split; [done|]. rewrite length_insert. split; [done|].
      replace (m - 1)%nat with (S pos) by lia. done. }
  assert (Hget : forall c, (c < pos)%nat ->
    detail_.table_get table (Z.of_nat (S c) - 1)
    = Some (Z.of_nat (longest_differing_border p (S c)))).
  { intros c Hc. unfold detail_.table_get.
    destruct (Z.ltb_spec (Z.of_nat (S c) - 1) 0); [lia|].
    replace (Z.to_nat (Z.of_nat (S c) - 1)) with c by lia. by apply Hfill. }
  destruct (Z.eqb_spec a b) as [Hab|Hab].
  - (* the candidate border extends *)
    subst b. replace (Z.of_nat cand + 1) with (Z.of_nat (S cand)) by lia.
    replace (Z.of_nat pos + 1) with (Z.of_nat (S pos)) by lia.
    destruct (Hread (S pos)) as (a' & Ha' & ->); [lia|].
    destruct (Hread (S cand)) as (b' & Hb' & ->); [lia|].
    assert (Hext : is_border p (S pos) (S cand)).
    { apply border_extend; [done|congruence]. }
    assert (Hlongest : forall c, is_border p (S pos) c -> (c <= S cand)%nat).
    { intros [|c] Hc; [lia|]. apply border_shrink in Hc as [Hc Hce].
      destruct (decide (c <= cand)%nat); [lia|]. exfalso.
      apply (Hmax c); [done|lia|done]. }
    replace (Z.of_nat (S pos)) with (Z.of_nat pos + 1) by lia.
    destruct (Z.eqb_spec a' b') as [Hab'|Hab'].
    + subst b'. rewrite Hget by lia.
      apply Hnext; try done; try lia.
      * intros c Hc Hlt. specialize (Hlongest c Hc). lia.
      * f_equal. apply (differing_border_spec_unique p (S pos)).
        2: apply longest_differing_border_spec.
        destruct (longest_differing_border_spec p (S cand)) as [Hf Hfmax].
        split.
        -- destruct Hf as [Hf|[Hf Hf']]; [by left|right]. split.
           ++ by apply (border_trans p _ (S cand)).
           ++ congruence.
        -- intros c Hc Hcne. pose proof (Hlongest c Hc) as Hle.
           destruct (decide (c = S cand)) as [->|Hne]; [congruence|].
           apply Hfmax.
           ++ apply (border_of_longer p (S pos)); [done|done|lia].
           ++ congruence.
    + apply Hnext; try done; try lia.
      * intros c Hc Hlt. specialize (Hlongest c Hc). lia.
      * f_equal. apply (differing_border_spec_unique p (S pos)).
        2: apply longest_differing_border_spec.
        split.
        -- right. split; [done|]. congruence.
        -- intros c Hc _. by apply Hlongest.
  - destruct (Z.eqb_spec (Z.of_nat cand) 0) as [Hc0|Hc0].
    + (* no border extends *)
      assert (cand = 0%nat) as -> by lia.
      assert (Hnone : forall c, is_border p (S pos) c -> c = 0%nat).
      { intros [|c] Hc; [done|]. exfalso. apply border_shrink in Hc as [Hc Hce].
        destruct (decide (c = 0%nat)) as [->|Hne]; [congruence|].
        apply (Hmax c); [done|lia|done]. }
      apply Hnext; try done; try lia.
      * apply border_zero. lia.
      * intros c Hc Hlt. specialize (Hnone c Hc). lia.
      * change 0 with (Z.of_nat 0%nat). f_equal. apply (differing_border_spec_unique p (S pos)).
        2: apply longest_differing_border_spec.
        split; [by left|]. intros c Hc _. specialize (Hnone c Hc). lia.
    + (* fall back to a shorter candidate *)
      destruct cand as [|cand]; [done|].
      rewrite Hget by lia. rewrite loop_test by lia.
      rewrite bool_decide_eq_true_2 by lia.
      destruct (longest_differing_border_spec p (S cand)) as [Hf Hfmax].
      set (f := longest_differing_border p (S cand)) in *.
      assert (Hflt : (f < S cand)%nat).
      { destruct Hf as [->|[[? _] _]]; lia. }
      apply IH; try done; try lia.
      * destruct Hf as [->|[Hf _]]; [apply border_zero; lia|].
        by apply (border_trans p _ (S cand)).
      * intros c Hc Hlt.
        destruct (decide (S cand < c)%nat); [by apply Hmax|].
        destruct (decide (c = S cand)) as [->|Hne]; [congruence|].
        assert (Hc' : is_border p (S cand) c).
        { apply (border_of_longer p pos); [done|done|lia]. }
        destruct (decide (p !! c = p !! S cand)) as [He|He]; [congruence|].
        specialize (Hfmax c Hc' He). lia.
Qed.
End Table.

Lemma units_deref v us i :
  StringView.wf v -> StringView.units v = Some us -> (i < length us)%nat ->
  exists c, us !! i = Some c
            /\ deref (StringView.underlying v) (StringView.m_StrBegin v + Z.of_nat i) = Some c.
Proof.
  intros Hwf Hus Hi.
  assert (Hlen : Z.of_nat (length us) = StringView.GetSize v).
  { rewrite (units_wf v Hwf) in Hus. injection Hus as <-.
    rewrite length_take, length_drop. rewrite (GetSize_wf v Hwf). destruct Hwf as (?&?&?). lia. }
  destruct (UncheckGet_units v us (Z.of_nat i) Hwf Hus) as (c & Hc & Hg); [lia|].
  rewrite Nat2Z.id in Hc. exists c. split; [done|].
  unfold StringView.UncheckGet in Hg. destruct (deref _ _); congruence.
Qed.

Lemma units_length v us :
  StringView.wf v -> StringView.units v = Some us ->
  Z.of_nat (length us) = StringView.GetSize v /\ Z.of_nat (length us) < ptrdiff_t_half.
Proof.
  intros Hwf Hus. rewrite (units_wf v Hwf) in Hus. injection Hus as <-.
  rewrite length_take, length_drop. rewrite (GetSize_wf v Hwf). destruct Hwf as (?&?&?). lia.
Qed.

Lemma first_entry_filled p n :
  (0 < n)%nat -> Border.table_filled p (replicate n 0) 1.
Proof.
  intros Hn i Hi. assert (i = 0%nat) as -> by lia.
  rewrite lookup_replicate_2 by done. f_equal.
  unfold Border.longest_differing_border. simpl.
  by repeat case_match.
Qed.

Lemma table_filled_unique p t1 t2 n :
  length t1 = n -> length t2 = n ->
  Border.table_filled p t1 n -> Border.table_filled p t2 n -> t1 = t2.
Proof.
  intros L1 L2 F1 F2. apply list_eq. intros i. destruct (decide (i < n)%nat).
  - rewrite F1, F2 by done. done.
  - rewrite !lookup_ge_None_2 by lia. done.
Qed.

(** The loop, entered for a pattern of three units or more, fills the
    table within [2 * (m - 2)] iterations. *)
Lemma build_table_loop_from_start pattern p fuel :
  StringView.wf pattern -> StringView.units pattern = Some p ->
  (3 <= length p)%nat -> (2 * (length p - 2) <= fuel)%nat ->
  exists table,
    detail_.build_table_loop fuel (StringView.underlying pattern)
      (StringView.m_StrBegin pattern) (Z.of_nat (length p)) 1 0
      (replicate (length p - 1) 0) = Returns table
    /\ length table = (length p - 1)%nat
    /\ Border.table_filled p table (length p - 1).
Proof.
  intros Hwf Hus Hm Hfuel. destruct (units_length pattern p Hwf Hus) as [Hlen Hsmall].
  apply (build_table_loop_correct (StringView.underlying pattern)
           (StringView.m_StrBegin pattern) p
           (fun i Hi => units_deref pattern p i Hwf Hus Hi) Hsmall fuel 1%nat 0%nat);
    try lia.
  - by rewrite length_replicate.
  - apply border_zero. lia.
  - intros b [Hb _] Hb'. lia.
  - apply first_entry_filled. lia.
Qed.

Lemma build_table_filled pattern p :
  StringView.wf pattern -> StringView.units pattern = Some p -> (1 <= length p)%nat ->
  exists table,
    detail_.build_table (StringView.underlying pattern) (StringView.m_StrBegin pattern)
      (StringView.GetSize pattern) = Returns table
    /\ length table = (length p - 1)%nat
    /\ Border.table_filled p table (length p - 1).
Proof.
  intros Hwf Hus Hm.
  destruct (units_length pattern p Hwf Hus) as [Hlen Hsmall].
  rewrite <- Hlen. unfold detail_.build_table.
  assert (Hts : to_size_t (Z.of_nat (length p) - 1) = Z.of_nat (length p) - 1).
  { apply to_size_t_small. unfold is_size_t, size_t_modulus, ptrdiff_t_half in *. lia. }
  rewrite Hts. replace (Z.to_nat (Z.of_nat (length p) - 1)) with (length p - 1)%nat by lia.
  assert (Hinit : detail_.table_set (replicate (length p - 1) 0) 0 0 = replicate (length p - 1) 0).
  { unfold detail_.table_set. simpl. destruct (length p - 1)%nat; reflexivity. }
  rewrite Hinit.
  destruct (Z.ltb_spec 2 (Z.of_nat (length p))) as [Hbig|Hsmall'].
  - apply build_table_loop_from_start; [done|done|lia|lia].
  - exists (replicate (length p - 1) 0). split; [done|]. split; [by rewrite length_replicate|].
    intros i Hi. apply first_entry_filled; lia.
Qed.

(** ** Comparison and character-run search in general *)


Lemma Compare_loop_units stringType mem omem : forall (ua ub : list Z) fuel read oread,
  0 <= read -> 0 <= oread ->
  (forall i, (i < length ua)%nat -> mem !! (Z.to_nat read + i)%nat = ua !! i) ->
  (forall i, (i < length ub)%nat -> omem !! (Z.to_nat oread + i)%nat = ub !! i) ->
  (length ua < fuel)%nat ->
  StringView.Compare_loop stringType fuel mem read (read + Z.of_nat (length ua))
    omem oread (oread + Z.of_nat (length ub))
  = Returns (compare_units stringType ua ub).
Proof.
  induction ua as [|x ua IH]; intros ub fuel read oread Hr Ho Hma Hmb Hfuel.
  - destruct fuel as [|fuel]; [simpl in Hfuel; lia|]. simpl.
    rewrite Z.add_0_r, Z.eqb_refl. done.
  - destruct fuel as [|fuel]; [simpl in Hfuel; lia|].
    destruct ub as [|y ub].
    + simpl. rewrite Z.add_0_r, (Z.eqb_refl oread). by rewrite andb_false_r.
    + cbn [StringView.Compare_loop compare_units].
      destruct (Z.eqb_spec read (read + Z.of_nat (length (x :: ua)))) as [E|_];
        [simpl in E; lia|].
      destruct (Z.eqb_spec oread (oread + Z.of_nat (length (y :: ub)))) as [E|_];
        [simpl in E; lia|].
      cbn [negb andb].
      assert (Hx : deref mem read = Some x).
      { apply deref_Some. split; [done|]. specialize (Hma 0%nat). simpl in Hma.
        rewrite Nat.add_0_r in Hma. apply Hma. lia. }
      assert (Hy : deref omem oread = Some y).
      { apply deref_Some. split; [done|]. specialize (Hmb 0%nat). simpl in Hmb.
        rewrite Nat.add_0_r in Hmb. apply Hmb. lia. }
      rewrite Hx, Hy.
      destruct (Z.eqb_spec (UChar stringType x) (UChar stringType y)) as [E|E]; [|done].
      cbn [negb].
      replace (read + Z.of_nat (length (x :: ua))) with (read + 1 + Z.of_nat (length ua))
        by (simpl; lia).
      replace (oread + Z.of_nat (length (y :: ub))) with (oread + 1 + Z.of_nat (length ub))
        by (simpl; lia).
      apply IH; try lia.
      * intros i Hi. specialize (Hma (S i)). simpl in Hma. rewrite <- Hma by lia.
        f_equal; lia.
      * intros i Hi. specialize (Hmb (S i)). simpl in Hmb. rewrite <- Hmb by lia.
        f_equal; lia.
      * simpl in Hfuel. lia.
Qed.

Lemma units_lookup v us i :
  StringView.wf v -> StringView.units v = Some us -> (i < length us)%nat ->
  StringView.underlying v !! (Z.to_nat (StringView.m_StrBegin v) + i)%nat = us !! i.
Proof.
  intros Hwf Hus Hi. rewrite (units_wf v Hwf) in Hus. injection Hus as <-.
  rewrite length_take in Hi. rewrite lookup_take_lt by lia. by rewrite lookup_drop.
Qed.

(** On views that lie inside their sequences [Compare] returns, and what
    it returns depends on the units up to the end of the shorter view
    only. *)
Lemma Compare_units stringType a b ua ub :
  StringView.wf a -> StringView.wf b ->
  StringView.units a = Some ua -> StringView.units b = Some ub ->
  StringView.Compare stringType a b = Returns (compare_units stringType ua ub).
Proof.
  intros Ha Hb Hua Hub. unfold StringView.Compare.
  destruct (units_length a ua Ha Hua) as [La _]. destruct (units_length b ub Hb Hub) as [Lb _].
  rewrite (GetSize_wf a Ha) in La. rewrite (GetSize_wf b Hb) in Lb.
  replace (StringView.m_StrEnd a) with (StringView.m_StrBegin a + Z.of_nat (length ua)) by lia.
  replace (StringView.m_StrEnd b) with (StringView.m_StrBegin b + Z.of_nat (length ub)) by lia.
  pose proof Ha as (Ha1 & Ha2 & Ha3). pose proof Hb as (Hb1 & Hb2 & Hb3).
  apply Compare_loop_units; try lia.
  - intros i Hi. by apply units_lookup.
  - intros i Hi. by apply units_lookup.
Qed.

Lemma compare_units_prefix stringType a rest :
  compare_units stringType a (a ++ rest) = 0 /\ compare_units stringType (a ++ rest) a = 0.
Proof.
  induction a as [|x a [IH1 IH2]]; simpl.
  - by destruct rest.
  - by rewrite Z.eqb_refl.
Qed.

(** Whenever one view is a prefix of the other [Compare] returns 0, in
    either order. *)
Lemma Compare_prefix_is_zero stringType a b ua rest :
  StringView.wf a -> StringView.wf b ->
  StringView.units a = Some ua -> StringView.units b = Some (ua ++ rest) ->
  StringView.Compare stringType a b = Returns 0
  /\ StringView.Compare stringType b a = Returns 0.
Proof.
  intros Ha Hb Hua Hub.
  rewrite (Compare_units stringType a b ua (ua ++ rest)) by done.
  rewrite (Compare_units stringType b a (ua ++ rest) ua) by done.
  destruct (compare_units_prefix stringType ua rest) as [-> ->]. done.
Qed.


Section SearchCharRepeat_facts.
Variables (mem : list Z) (srcEnd c k : Z).
Hypothesis Hk : 1 <= k < ptrdiff_t_half.
Hypothesis Hend : srcEnd <= Z.of_nat (length mem).
Hypothesis Hsmall : Z.of_nat (length mem) < ptrdiff_t_half.

Lemma search_answers_skip o current current' :
  current <= current' ->
  (forall q, current <= q < current' -> ~ run_at mem c k q) ->
  search_answers mem srcEnd c k o current' -> search_answers mem srcEnd c k o current.
Proof.
  intros Hle Hno [(p & Ho & Hp & Hfit & Hrun & Hfirst)|[Ho Hnone]].
  - left. exists p. split; [done|]. split; [lia|]. split; [done|]. split; [done|].
    intros q Hq. destruct (Z.lt_ge_cases q current'); [apply Hno; lia|apply Hfirst; lia].
  - right. split; [done|]. intros q Hq Hfit.
    destruct (Z.lt_ge_cases q current'); [apply Hno; lia|apply Hnone; lia].
Qed.

Lemma SearchCharRepeat_run_answers fuel : forall st,
  match st with
  | detail_.scr_scan current =>
    0 <= current <= srcEnd -> srcEnd - current + 1 <= Z.of_nat fuel ->
    search_answers mem srcEnd c k (detail_.SearchCharRepeat_run fuel mem srcEnd c k st) current
  | detail_.scr_verify current matchLen =>
    0 <= current -> current + k <= srcEnd -> 1 <= matchLen <= k ->
    (forall j, 0 <= j < matchLen -> deref mem (current + j) = Some c) ->
    srcEnd - current - matchLen + 1 <= Z.of_nat fuel ->
    search_answers mem srcEnd c k (detail_.SearchCharRepeat_run fuel mem srcEnd c k st) current
  end.
Proof.
  unfold ptrdiff_t_half in *.
  induction fuel as [|fuel IH]; intros [current|current matchLen].
  - intros Hc Hf. lia.
  - intros Hc Hfit Hml Hrun Hf. lia.
  - intros Hc Hf. cbn [detail_.SearchCharRepeat_run].
    rewrite to_ptrdiff_t_small by (unfold is_ptrdiff_t, ptrdiff_t_half; lia).
    destruct (Z.ltb_spec (srcEnd - current) k) as [Hshort|Hlong].
    + right. split; [done|]. intros q Hq Hfit. lia.
    + destruct (deref_in_range mem current) as [x Hx]; [lia|]. rewrite Hx.
      destruct (Z.eqb_spec x c) as [->|Hne].
      * apply (IH (detail_.scr_verify current 1)); try lia.
        intros j Hj. assert (j = 0) as -> by lia. by rewrite Z.add_0_r.
      * apply (search_answers_skip _ current (current + 1)); [lia| |].
        -- intros q Hq Hrun. assert (q = current) as -> by lia.
           specialize (Hrun 0 ltac:(lia)). rewrite Z.add_0_r in Hrun. congruence.
        -- apply (IH (detail_.scr_scan (current + 1))); lia.
  - intros Hc Hfit Hml Hrun Hf. cbn [detail_.SearchCharRepeat_run].
    rewrite (to_size_t_small matchLen) by (unfold is_size_t, size_t_modulus; lia).
    destruct (Z.leb_spec k matchLen) as [Hdone|Hmore].
    + left. exists current.
      rewrite to_size_t_small by (unfold is_size_t, size_t_modulus; lia).
      split; [done|]. split; [lia|]. split; [done|]. split.
      * intros j Hj. apply Hrun. lia.
      * intros q Hq. lia.
    + destruct (deref_in_range mem (current + matchLen)) as [x Hx]; [lia|]. rewrite Hx.
      destruct (Z.eqb_spec x c) as [->|Hne]; cbn [negb].
      * apply (IH (detail_.scr_verify current (matchLen + 1))); try lia.
        intros j Hj. destruct (Z.eq_dec j matchLen) as [->|Hj']; [done|]. apply Hrun. lia.
      * apply (search_answers_skip _ current (current + matchLen + 1)); [lia| |].
        -- intros q Hq Hrun'. specialize (Hrun' (current + matchLen - q) ltac:(lia)).
           replace (q + (current + matchLen - q)) with (current + matchLen) in Hrun' by lia.
           congruence.
        -- apply (IH (detail_.scr_scan (current + matchLen + 1))); lia.
Qed.
End SearchCharRepeat_facts.

(** For every call that passes its guards [FindCharRepeat] returns: with
    [i] the offset of the first run at or after the resolved begin, the
    value is [size - i] plus the resolved begin (the distance from the run
    to the end of the view, shifted), not [i]; and [npos] when there is no
    run. *)
Lemma FindCharRepeat_answers v c repeatCount nBegin :
  StringView.wf v -> is_ptrdiff_t nBegin ->
  StringView.ApplyOffset_assert nBegin (StringView.GetSize v) = true ->
  1 <= repeatCount ->
  let size := StringView.GetSize v in
  let realBegin := StringView.ApplyOffset nBegin size in
  realBegin + repeatCount <= size ->
  (exists i, realBegin <= i /\ i + repeatCount <= size
             /\ run_at_offset v c repeatCount i
             /\ (forall q, realBegin <= q < i -> ~ run_at_offset v c repeatCount q)
             /\ StringView.FindCharRepeat v c repeatCount nBegin
                = Returns (size - i + realBegin))
  \/ ((forall q, realBegin <= q -> q + repeatCount <= size -> ~ run_at_offset v c repeatCount q)
      /\ StringView.FindCharRepeat v c repeatCount nBegin = Returns StringView.npos).
Proof.
  intros Hwf Hn Ha Hk size realBegin Hfit.
  assert (Hsz : is_size_t size) by apply to_size_t_range.
  destruct (ApplyOffset_resolved nBegin size Hn Hsz Ha) as [_ Hrb]. fold realBegin in Hrb.
  pose proof (GetSize_wf v Hwf) as Esz. fold size in Esz.
  pose proof Hwf as (Hw1 & Hw2 & Hw3). unfold ptrdiff_t_half in *.
  assert (Hrun : forall q, run_at (StringView.underlying v) c repeatCount (StringView.m_StrBegin v + q)
                           <-> run_at_offset v c repeatCount q).
  { intros q. unfold run_at, run_at_offset, StringView.UncheckGet. split; intros H j Hj.
    - rewrite Z.add_assoc. by rewrite (H j Hj).
    - specialize (H j Hj). rewrite Z.add_assoc in H. destruct (deref _ _); congruence. }
  unfold StringView.FindCharRepeat. fold size. fold realBegin.
  destruct (Z.eqb_spec repeatCount 0); [lia|].
  destruct (Z.ltb_spec size repeatCount); [lia|].
  rewrite (to_size_t_small (realBegin + repeatCount)) by (unfold is_size_t, size_t_modulus; lia).
  destruct (Z.ltb_spec size (realBegin + repeatCount)); [lia|]. cbn [orb].
  pose proof (SearchCharRepeat_run_answers (StringView.underlying v) (StringView.m_StrEnd v)
                c repeatCount ltac:(unfold ptrdiff_t_half; lia) ltac:(lia)
                ltac:(unfold ptrdiff_t_half; lia)
                (S (Z.to_nat (StringView.m_StrEnd v - (StringView.m_StrBegin v + realBegin))))
                (detail_.scr_scan (StringView.m_StrBegin v + realBegin))) as Hans.
  cbv beta iota in Hans. specialize (Hans ltac:(lia) ltac:(lia)).
  fold (detail_.SearchCharRepeat (StringView.underlying v) (StringView.m_StrBegin v + realBegin)
          (StringView.m_StrEnd v) c repeatCount) in Hans.
  destruct Hans as [(p & -> & Hp & Hpfit & Hprun & Hfirst)|[-> Hnone]].
  - left. exists (p - StringView.m_StrBegin v).
    split; [lia|]. split; [lia|]. split.
    { apply Hrun. by replace (StringView.m_StrBegin v + (p - StringView.m_StrBegin v)) with p by lia. }
    split.
    { intros q Hq Hq'%Hrun. apply (Hfirst (StringView.m_StrBegin v + q)); [lia|done]. }
    destruct (Z.eqb_spec (StringView.m_StrEnd v - p) StringView.npos) as [E|_].
    { unfold StringView.npos, detail_.npos in E. vm_compute to_size_t in E. lia. }
    rewrite to_size_t_small by (unfold is_size_t, size_t_modulus; lia).
    f_equal. lia.
  - right. split.
    { intros q Hq Hqfit Hq'%Hrun. apply (Hnone (StringView.m_StrBegin v + q)); [lia|lia|done]. }
    by rewrite Z.eqb_refl.
Qed.

(** ** The search loop of [MatchString] ends *)

Section MatchString_fuel.
Variables (mem : list Z) (srcBegin srcEnd : Z).
Variables (patMem : list Z) (patternBegin patternSize : Z).
Hypothesis Hm : 1 <= patternSize < ptrdiff_t_half.

Let n := Z.of_nat (length mem).

Lemma deref_Some_bound p x : deref mem p = Some x -> 0 <= p < n.
Proof.
  intros [H0 H]%deref_Some. apply lookup_lt_Some in H. unfold n. lia.
Qed.

(** With a table whose entries are below the match length they are used
    for, the search ends within four steps per position. *)
Lemma MatchString_run_with_table_has_fuel tbl :
  (forall matchLen f, 1 <= matchLen < patternSize ->
     detail_.table_get tbl (matchLen - 1) = Some f -> 0 <= f < matchLen) ->
  forall fuel st,
    match st with
    | detail_.ms_scan current => Z.max 0 (4 * (n - current) + 1) < Z.of_nat fuel
    | detail_.ms_Fallback current matchLen =>
      1 <= matchLen < patternSize /\ Z.max 0 (4 * (n - current) - 2 * matchLen) < Z.of_nat fuel
    end ->
    detail_.MatchString_run mem srcBegin srcEnd patMem patternBegin patternSize (Some tbl) fuel st
    <> OutOfFuel.
Proof.
  intros Htbl. unfold ptrdiff_t_half in *.
  induction fuel as [|fuel IH]; intros [current|current matchLen] Hst; try lia.
  - cbn [detail_.MatchString_run].
    destruct (_ <? _); [done|].
    destruct (deref mem current) as [x|] eqn:Hx; [|done].
    destruct (deref patMem patternBegin) as [p0|]; [|done].
    apply deref_Some_bound in Hx.
    destruct (x =? p0).
    + unfold detail_.ms_enter. destruct (_ <=? _) eqn:E; [done|].
      apply Z.leb_gt in E. rewrite to_size_t_small in E by (unfold is_size_t, size_t_modulus; lia).
      apply (IH (detail_.ms_Fallback current 1)). lia.
    + apply (IH (detail_.ms_scan (current + 1))). lia.
  - destruct Hst as [Hml Hfuel]. cbn [detail_.MatchString_run].
    destruct (deref mem (current + matchLen)) as [x|] eqn:Hx; [|done].
    destruct (deref patMem (patternBegin + matchLen)) as [p|]; [|done].
    apply deref_Some_bound in Hx.
    destruct (negb (x =? p)).
    + destruct (detail_.table_get tbl (matchLen - 1)) as [f|] eqn:Hf; [|done].
      specialize (Htbl matchLen f Hml Hf).
      destruct (negb (f =? 0)) eqn:E.
      * apply negb_true_iff, Z.eqb_neq in E.
        apply (IH (detail_.ms_Fallback (current + matchLen - f) f)). lia.
      * apply (IH (detail_.ms_scan (current + matchLen))). lia.
    + unfold detail_.ms_enter. destruct (_ <=? _) eqn:E; [done|].
      apply Z.leb_gt in E. rewrite to_size_t_small in E by (unfold is_size_t, size_t_modulus; lia).
      apply (IH (detail_.ms_Fallback current (matchLen + 1))). lia.
Qed.

(** Without the table the search compares at most [patternSize] units at
    each position. *)
Lemma MatchString_run_brute_force_has_fuel :
  forall fuel st,
    match st with
    | detail_.ms_scan current => Z.max 0 ((patternSize + 2) * (n - current) + 1) < Z.of_nat fuel
    | detail_.ms_Fallback current matchLen =>
      1 <= matchLen < patternSize
      /\ Z.max 0 ((patternSize + 2) * (n - current) - matchLen) < Z.of_nat fuel
    end ->
    detail_.MatchString_run mem srcBegin srcEnd patMem patternBegin patternSize None fuel st
    <> OutOfFuel.
Proof.
  unfold ptrdiff_t_half in *.
  induction fuel as [|fuel IH]; intros [current|current matchLen] Hst; try lia.
  - cbn [detail_.MatchString_run].
    destruct (_ <? _); [done|].
    destruct (deref mem current) as [x|] eqn:Hx; [|done].
    destruct (deref patMem patternBegin) as [p0|]; [|done].
    apply deref_Some_bound in Hx.
    destruct (x =? p0).
    + unfold detail_.ms_enter. destruct (_ <=? _) eqn:E; [done|].
      apply Z.leb_gt in E. rewrite to_size_t_small in E by (unfold is_size_t, size_t_modulus; lia).
      apply (IH (detail_.ms_Fallback current 1)). nia.
    + apply (IH (detail_.ms_scan (current + 1))). nia.
  - destruct Hst as [Hml Hfuel]. cbn [detail_.MatchString_run].
    destruct (deref mem (current + matchLen)) as [x|] eqn:Hx; [|done].
    destruct (deref patMem (patternBegin + matchLen)) as [p|]; [|done].
    apply deref_Some_bound in Hx.
    destruct (negb (x =? p)).
    + apply (IH (detail_.ms_scan (current + 1))). nia.
    + unfold detail_.ms_enter. destruct (_ <=? _) eqn:E; [done|].
      apply Z.leb_gt in E. rewrite to_size_t_small in E by (unfold is_size_t, size_t_modulus; lia).
      apply (IH (detail_.ms_Fallback current (matchLen + 1))). nia.
Qed.
End MatchString_fuel.

Lemma longest_differing_border_below p n :
  (0 < n)%nat -> (Border.longest_differing_border p n < n)%nat.
Proof.
  intros Hn. destruct (longest_differing_border_spec p n) as [[->|[[Hlt _] _]] _]; lia.
Qed.

(** The fuel [MatchString] runs its search loop with is enough on every
    call [Find] makes: the answer is a value or an access outside the
    borrowed sequence, never an unfinished run. *)
Lemma Find_has_fuel heap_has_room v pattern nBegin :
  StringView.wf v -> StringView.wf pattern -> is_ptrdiff_t nBegin ->
  StringView.ApplyOffset_assert nBegin (StringView.GetSize v) = true ->
  StringView.Find heap_has_room v pattern nBegin <> OutOfFuel.
Proof.
  intros Hv Hp Hn Ha.
  assert (Hsz : is_size_t (StringView.GetSize v)) by apply to_size_t_range.
  destruct (ApplyOffset_resolved nBegin _ Hn Hsz Ha) as [_ Hrb].
  destruct (StringView.units pattern) as [p|] eqn:Hus.
  2:{ rewrite (units_wf pattern Hp) in Hus. done. }
  destruct (units_length pattern p Hp Hus) as [Hlen Hsmall].
  pose proof Hv as (Hv1 & Hv2 & Hv3). unfold ptrdiff_t_half in *.
  unfold StringView.Find.
  set (rb := StringView.ApplyOffset nBegin (StringView.GetSize v)) in *.
  destruct (_ =? 0) eqn:E0; [done|]. apply Z.eqb_neq in E0.
  destruct (_ || _); [done|].
  assert (Hrun : detail_.MatchString heap_has_room (StringView.underlying v)
                   (StringView.m_StrBegin v + rb) (StringView.m_StrEnd v)
                   (StringView.underlying pattern) (StringView.m_StrBegin pattern)
                   (StringView.m_StrEnd pattern) <> OutOfFuel).
  { unfold detail_.MatchString. fold (StringView.GetSize pattern). rewrite <- Hlen.
    assert (Hm : 1 <= Z.of_nat (length p) < ptrdiff_t_half) by (unfold ptrdiff_t_half; lia).
    unfold detail_.MatchString_fuel. rewrite Nat2Z.id.
    destruct (detail_.table_obtained _ _).
    - destruct (build_table_filled pattern p Hp Hus) as (table & Hb & Hl & Hfill); [lia|].
      rewrite Hlen, Hb, <- Hlen. cbn [detail_.outcome_bind].
      apply (MatchString_run_with_table_has_fuel _ _ _ _ _ _ Hm table).
      + intros matchLen f Hml Hf. unfold detail_.table_get in Hf.
        destruct (Z.ltb_spec (matchLen - 1) 0); [lia|].
        rewrite (Hfill (Z.to_nat (matchLen - 1))) in Hf by lia. injection Hf as <-.
        pose proof (longest_differing_border_below p (S (Z.to_nat (matchLen - 1)))). lia.
      + nia.
    - apply (MatchString_run_brute_force_has_fuel _ _ _ _ _ _ Hm). nia. }
  destruct (detail_.MatchString _ _ _ _ _ _ _) as [pos| | |]; try done.
  by destruct (pos =? StringView.npos).
Qed.

(** ** Growable storage *)


Lemma cells_write_Some l i vs l' :
  cells_write l i vs = Some l' <->
  (0 <= i /\ i + Z.of_nat (length vs) <= Z.of_nat (length l))
  /\ l' = take (Z.to_nat i) l ++ vs ++ drop (Z.to_nat i + length vs) l.
Proof.
  unfold cells_write, range_ok.
  destruct (Z.leb_spec 0 i), (Z.leb_spec (i + Z.of_nat (length vs)) (Z.of_nat (length l)));
    simpl; split; try (intros [? ?]; lia); try discriminate;
    try (intros [= <-]; split; [lia|done]); intros [_ ->]; done.
Qed.

Lemma cells_write_length l i vs l' : cells_write l i vs = Some l' -> length l' = length l.
Proof.
  intros [[H0 H1] ->]%cells_write_Some.
  rewrite !length_app, length_take, length_drop. lia.
Qed.

Lemma cells_write_in_range l i vs :
  0 <= i -> i + Z.of_nat (length vs) <= Z.of_nat (length l) ->
  cells_write l i vs
  = Some (take (Z.to_nat i) l ++ vs ++ drop (Z.to_nat i + length vs) l).
Proof. intros. apply cells_write_Some. done. Qed.

Lemma cells_write_None l i vs :
  cells_write l i vs = None <-> ~ (0 <= i /\ i + Z.of_nat (length vs) <= Z.of_nat (length l)).
Proof.
  unfold cells_write, range_ok.
  destruct (Z.leb_spec 0 i), (Z.leb_spec (i + Z.of_nat (length vs)) (Z.of_nat (length l)));
    simpl; split; try done; try lia.
Qed.

(** *** The array behind [GetData()] *)

Lemma buffer_data s buf :
  String.buffer s = Some buf ->
  exists pl, GetData String.MaxShortStringSize s.2 = At pl 0
             /\ place_cells String.MaxShortStringSize s pl = Some buf
             /\ ((String.is_inline s = true /\ pl = Inline)
                 \/ (String.is_inline s = false /\ exists b,
                       pl = Block b /\ Members s.2 = as_Pointer (At (Block b) 0))).
Proof.
  unfold String.buffer, GetData, String.is_inline.
  destruct (Z.leb_spec (Capacity s.2) String.MaxShortStringSize) as [Hc|Hc].
  - intros [= <-]. exists Inline.
    destruct (Z.ltb_spec String.MaxShortStringSize (Capacity s.2)); [lia|]. 
    split; [done|]. split; [done|]. by left.
  - destruct (Z.ltb_spec String.MaxShortStringSize (Capacity s.2)); [|lia].
    destruct (Members s.2) as [a|[| |[|b|l] [| |]]] eqn:E; try discriminate.
    intros Hl. exists (Block b). simpl. split; [done|]. split; [done|]. right.
    split; [done|]. by exists b.
Qed.

Lemma load_range_data s buf i n :
  String.buffer s = Some buf ->
  load_range String.MaxShortStringSize s
    (ptr_add (GetData String.MaxShortStringSize s.2) i) n = cells_read buf i n.
Proof.
  intros (pl & -> & Hpl & Hcase)%buffer_data. simpl.
  destruct Hcase as [[_ ->]|[_ (b & -> & _)]]; simpl in *.
  - by injection Hpl as <-.
  - by rewrite Hpl.
Qed.

Lemma load_range_at_data h st buf n :
  String.buffer (h, st) = Some buf ->
  load_range String.MaxShortStringSize (h, st)
    (GetData String.MaxShortStringSize st) n = cells_read buf 0 n.
Proof.
  intros (pl & Hd & Hpl & Hcase)%buffer_data. simpl in Hd. rewrite Hd. simpl.
  destruct Hcase as [[_ ->]|[_ (b & -> & _)]]; simpl in *.
  - by injection Hpl as <-.
  - by rewrite Hpl.
Qed.

Lemma store_range_data s buf i vs :
  String.buffer s = Some buf ->
  store_range String.MaxShortStringSize s
    (ptr_add (GetData String.MaxShortStringSize s.2) i) vs
  = (buf' ← cells_write buf i vs; Some (with_buffer s buf')).
Proof.
  intros (pl & Hd & Hpl & Hcase)%buffer_data. rewrite Hd. simpl. unfold with_buffer.
  destruct Hcase as [[Hin ->]|[Hin (b & -> & HM)]]; simpl in *; rewrite Hin.
  - injection Hpl as <-. done.
  - rewrite Hpl, HM. simpl. done.
Qed.

Lemma buffer_with_buffer s buf buf' :
  String.buffer s = Some buf -> String.buffer (with_buffer s buf') = Some buf'.
Proof.
  intros (pl & Hd & Hpl & Hcase)%buffer_data. unfold with_buffer, String.buffer.
  destruct Hcase as [[Hin ->]|[Hin (b & -> & HM)]]; rewrite Hin.
  - unfold String.is_inline in *. simpl. rewrite Hin. done.
  - rewrite HM. unfold String.is_inline in *. simpl. rewrite Hin, HM.
    simpl. by rewrite lookup_insert_eq.
Qed.

Lemma with_buffer_fields s buf' :
  Size (with_buffer s buf').2 = Size s.2
  /\ Capacity (with_buffer s buf').2 = Capacity s.2
  /\ allocations (with_buffer s buf').1 = allocations s.1.
Proof.
  unfold with_buffer. destruct (String.is_inline s); [done|].
  destruct (Members s.2) as [a|[| |[|b|l] [| |]]]; done.
Qed.

Lemma with_buffer_live s buf buf' b :
  String.buffer s = Some buf ->
  is_Some (live (with_buffer s buf').1 !! b) <-> is_Some (live s.1 !! b).
Proof.
  intros (pl & Hd & Hpl & Hcase)%buffer_data. unfold with_buffer.
  destruct Hcase as [[Hin ->]|[Hin (b0 & -> & HM)]]; rewrite Hin; [done|].
  rewrite HM. simpl in *. destruct (decide (b0 = b)) as [->|Hne].
  - rewrite lookup_insert_eq. rewrite Hpl. split; eauto.
  - by rewrite lookup_insert_ne.
Qed.

Lemma buffer_set_Size s n : String.buffer (set_Size n s) = String.buffer s.
Proof. done. Qed.

Lemma wf_with_buffer s buf buf' n :
  String.wf s -> String.buffer s = Some buf -> length buf' = length buf ->
  0 <= n < Capacity s.2 ->
  String.wf (set_Size n (with_buffer s buf')).
Proof.
  intros [H1 H2 (buf0 & Hb0 & Hl0) H4] Hb Hl Hn.
  rewrite Hb in Hb0. injection Hb0 as <-.
  destruct (with_buffer_fields s buf') as (Es & Ec & Ea).
  split.
  - simpl. rewrite Ec. done.
  - simpl. rewrite Ec. done.
  - exists buf'. rewrite buffer_set_Size. split; [by eapply buffer_with_buffer|].
    simpl. rewrite Ec. lia.
  - intros b Hb'. simpl in *. rewrite Ea. apply H4.
    by apply (with_buffer_live s buf buf').
Qed.


Lemma grown_buffer_length buf size g :
  0 <= size -> size < Z.of_nat (length buf) -> Z.of_nat (length buf) < g ->
  length (grown_buffer buf size g) = Z.to_nat g.
Proof.
  intros. unfold grown_buffer. destruct (0 <? size).
  - rewrite !length_app, length_take, length_replicate. simpl. lia.
  - by rewrite length_replicate.
Qed.

Lemma wf_data_fresh s buf :
  String.wf s -> String.buffer s = Some buf ->
  String.is_inline s = false ->
  exists old, Members s.2 = as_Pointer (At (Block old) 0)
              /\ live s.1 !! old = Some buf /\ (old < allocations s.1)%nat.
Proof.
  intros Hwf Hb Hin. destruct (buffer_data s buf Hb) as (pl & Hd & Hpl & [[Hin' _]|[_ (b & -> & HM)]]);
    [congruence|].
  exists b. simpl in Hpl. split; [done|]. split; [done|].
  apply (String.wf_fresh s Hwf). rewrite Hpl. eauto.
Qed.

Lemma Reserve_grows s buf g :
  String.wf s -> String.buffer s = Some buf -> Capacity s.2 < g ->
  String.Reserve g s = Returns (reallocated s g (grown_buffer buf (Size s.2) g)).
Proof.
  intros Hwf Hb Hg.
  pose proof (String.wf_size s Hwf) as Hsz. pose proof (String.wf_capacity s Hwf) as Hcap.
  destruct (String.wf_buffer s Hwf) as (buf0 & Hb0 & Hlen). rewrite Hb in Hb0. injection Hb0 as <-.
  unfold String.Reserve, Reserve. destruct s as [h st]. simpl in *.
  destruct (Z.leb_spec g (Capacity st)); [lia|].
  destruct (Z.ltb_spec String.MaxShortStringSize g); [|lia].
  unfold new_array.
  set (b := allocations h).
  set (h1 := mkStore (<[b := replicate (Z.to_nat g) indeterminate]> (live h)) (S b)).
  assert (Hb1 : String.buffer (h1, st) = Some buf).
  { destruct (String.is_inline (h, st)) eqn:Hin.
    - unfold String.buffer in *. unfold String.is_inline in *. simpl in *. by rewrite Hin in *.
    - destruct (wf_data_fresh (h, st) buf Hwf Hb Hin) as (old & HM & Hold & Hfresh).
      unfold String.buffer, String.is_inline in *. simpl in *. rewrite Hin, HM.
      rewrite lookup_insert_ne by (subst b; lia). done. }
  match goal with
  | |- outcome_bind ?X _ = _ =>
    assert (Hstep : X = Returns (mkStore (<[b := grown_buffer buf (Size st) g]> (live h)) (S b), st))
  end.
  { unfold grown_buffer. destruct (Z.ltb_spec 0 (Size st)) as [Hpos|Hzero].
    - rewrite (load_range_at_data h1 st buf _ Hb1).
      assert (Hread : cells_read buf 0 (Z.to_nat (Size st)) = Some (take (Z.to_nat (Size st)) buf)).
      { apply cells_read_Some. split; [lia|done]. }
      rewrite Hread. simpl. rewrite lookup_insert_eq. simpl.
      rewrite cells_write_in_range.
      + simpl. rewrite insert_insert_eq. do 3 f_equal.
        rewrite <- app_assoc. f_equal. f_equal. 
        rewrite drop_replicate. rewrite length_app, length_take. simpl.
        rewrite Nat.min_l by lia. reflexivity.
      + lia.
      + rewrite length_app, length_take, length_replicate. simpl. lia.
    - subst h1. do 3 f_equal. }
  rewrite Hstep. simpl.
  unfold reallocated. fold b.
  destruct (String.is_inline (h, st)) eqn:Hin.
  - unfold String.is_inline in Hin. simpl in Hin. rewrite Hin. simpl. done.
  - destruct (wf_data_fresh (h, st) buf Hwf Hb Hin) as (old & HM & Hold & Hfresh).
    unfold String.is_inline in Hin. simpl in *. rewrite Hin. rewrite HM. simpl.
    rewrite lookup_insert_ne by (subst b; lia). rewrite Hold. simpl.
    rewrite delete_insert_ne by (subst b; lia). done.
Qed.

Lemma buffer_reallocated s g buf' :
  String.MaxShortStringSize < g -> String.buffer (reallocated s g buf') = Some buf'.
Proof.
  intros Hg. unfold String.buffer, reallocated, String.is_inline. simpl.
  destruct (Z.leb_spec g String.MaxShortStringSize); [lia|].
  by rewrite lookup_insert_eq.
Qed.

Lemma wf_reallocated s g buf' :
  String.wf s -> Capacity s.2 < g < size_t_modulus -> Z.of_nat (length buf') = g ->
  String.wf (reallocated s g buf').
Proof.
  intros [H1 H2 H3 H4] Hg Hl. split.
  - simpl. lia.
  - simpl. lia.
  - exists buf'. split; [apply buffer_reallocated; lia|done].
  - intros b. simpl. destruct (decide (allocations s.1 = b)) as [<-|Hne]; [lia|].
    rewrite lookup_insert_ne by done. intros Hb.
    assert (is_Some (live s.1 !! b)) as Hb'%H4; [|lia].
    destruct (String.is_inline s); [done|].
    destruct (Members s.2) as [a|[| |[|b0|l] [| |]]]; try done.
    destruct (decide (b0 = b)) as [->|Hne'].
    + rewrite lookup_delete_eq in Hb. by destruct Hb.
    + by rewrite lookup_delete_ne in Hb.
Qed.

Lemma with_buffer_again s buf b2 b3 n :
  String.buffer s = Some buf ->
  with_buffer (set_Size n (with_buffer s b2)) b3 = set_Size n (with_buffer s b3).
Proof.
  intros (pl & Hd & Hpl & Hcase)%buffer_data. unfold with_buffer, set_Size.
  destruct Hcase as [[Hin ->]|[Hin (b & -> & HM)]]; rewrite Hin.
  - unfold String.is_inline in *. simpl. rewrite Hin. done.
  - rewrite HM. unfold String.is_inline in *. simpl. rewrite Hin, HM. simpl.
    by rewrite insert_insert_eq.
Qed.


Lemma Resize_unfold s buf n :
  String.wf s -> String.buffer s = Some buf ->
  String.Resize n s =
  let s1 := if Resize_reallocates s n
            then reallocated s (Grow n) (grown_buffer buf (Size s.2) (Grow n)) else s in
  let buf1 := if Resize_reallocates s n then grown_buffer buf (Size s.2) (Grow n) else buf in
  lift (buf' ← resized_buffer buf1 (Size s.2) n; Some (set_Size n (with_buffer s1 buf'))).
Proof.
  intros Hwf Hb. pose proof (String.wf_capacity s Hwf) as Hcap.
  unfold String.Resize, Resize. 
  rewrite Z.max_r by lia.
  match goal with
  | |- outcome_bind ?X _ = _ =>
    assert (Hstep1 : X = Returns (if Resize_reallocates s n
               then reallocated s (Grow n) (grown_buffer buf (Size s.2) (Grow n)) else s))
  end.
  { unfold Resize_reallocates. destruct (Z.leb_spec (Capacity s.2) n) as [Hn|Hn]; simpl; [|done].
    destruct (Z.ltb_spec (Capacity s.2) (Grow n)) as [Hg|Hg].
    - by apply Reserve_grows.
    - unfold Reserve. destruct s as [h st]. simpl in *.
      destruct (Z.leb_spec (Grow n) (Capacity st)); [done|lia]. }
  rewrite Hstep1. cbv zeta.
  set (s1 := if Resize_reallocates s n then _ else s).
  set (buf1 := if Resize_reallocates s n then _ else buf).
  assert (Hb1 : String.buffer s1 = Some buf1).
  { subst s1 buf1. destruct (Resize_reallocates s n) eqn:E; [|done].
    apply buffer_reallocated. unfold Resize_reallocates in E.
    apply andb_true_iff in E as [_ E%Z.ltb_lt]. lia. }
  assert (Hsz1 : Size s1.2 = Size s.2).
  { subst s1. by destruct (Resize_reallocates s n). }
  simpl. rewrite Hsz1.
  rewrite (store_range_data s1 buf1 _ _ Hb1).
  unfold resized_buffer.
  destruct (cells_write buf1 (Size s.2) _) as [buf2|] eqn:E2; simpl; [|done].
  pose proof (buffer_with_buffer s1 buf1 buf2 Hb1) as Hb2.
  pose proof (store_range_data (set_Size n (with_buffer s1 buf2)) buf2 n [unit_ 0]) as Hst.
  rewrite buffer_set_Size in Hst. specialize (Hst Hb2).
  unfold set_Size in Hst at 1 2. simpl in Hst. unfold set_Size at 1. simpl.
  rewrite Hst.
  destruct (cells_write buf2 n [unit_ 0]) as [buf3|] eqn:E3; simpl; [|done].
  f_equal. by apply (with_buffer_again s1 buf1).
Qed.

Lemma land_round_down_16 y :
  0 <= y < 2 ^ 64 -> Z.land y ((-16) mod 2 ^ 64) = 16 * (y / 16).
Proof.
  intros Hy.
  change ((-16) mod 2 ^ 64) with (Z.shiftl (Z.ones 60) 4).
  replace (16 * (y / 16)) with (Z.shiftl (Z.shiftr y 4) 4).
  2:{ rewrite Z.shiftl_mul_pow2, Z.shiftr_div_pow2 by lia. change (2 ^ 4) with 16. lia. }
  apply Z.bits_inj'. intros n Hn.
  rewrite Z.land_spec.
  destruct (Z.lt_ge_cases n 4) as [Hlow|Hhigh].
  - rewrite !Z.shiftl_spec_low by lia. apply andb_false_r.
  - rewrite !Z.shiftl_spec by lia. rewrite Z.shiftr_spec by lia.
    replace (n - 4 + 4) with n by lia.
    destruct (Z.lt_ge_cases n 64) as [Hin|Hout].
    + rewrite Z.ones_spec_low by lia. apply andb_true_r.
    + rewrite Z.ones_spec_high by lia. rewrite andb_false_r.
      destruct (Z.eq_dec y 0) as [->|Hne]; [by rewrite Z.bits_0|].
      symmetry. apply Z.bits_above_log2; [lia|].
      apply Z.lt_le_trans with 64; [|done]. apply Z.log2_lt_pow2; lia.
Qed.

Lemma Grow_range n : 0 <= Grow n < size_t_modulus.
Proof.
  unfold Grow. 
  pose proof (to_size_t_range (n + 1)) as H1.
  set (s1 := to_size_t (n + 1)) in *.
  pose proof (to_size_t_range (s1 + Z.shiftr s1 1 + 15)) as H2.
  set (y := to_size_t (s1 + Z.shiftr s1 1 + 15)) in *.
  unfold is_size_t, size_t_modulus in *.
  change (to_size_t (-16)) with ((-16) mod 2 ^ 64). rewrite land_round_down_16 by done.
  pose proof (Z.mul_div_le y 16 ltac:(lia)). pose proof (Z.div_pos y 16 ltac:(lia) ltac:(lia)).
  lia.
Qed.

Lemma Grow_above n : 0 <= n < size_t_modulus - 1 -> n < Grow n.
Proof.
  intros Hn. unfold Grow. rewrite (to_size_t_small (n + 1)); [lia|].
  unfold is_size_t. lia.
Qed.

Lemma resized_buffer_Some buf size n buf' :
  resized_buffer buf size n = Some buf' ->
  0 <= n < Z.of_nat (length buf) /\ length buf' = length buf.
Proof.
  unfold resized_buffer.
  destruct (cells_write buf size _) as [buf2|] eqn:E2; simpl; [|done].
  intros E3. pose proof (cells_write_length _ _ _ _ E2) as L2.
  pose proof (cells_write_length _ _ _ _ E3) as L3.
  apply cells_write_Some in E3 as [[? ?] _]. simpl in *. lia.
Qed.

Lemma wf_with_buffer_same s buf buf' :
  String.wf s -> String.buffer s = Some buf -> length buf' = length buf ->
  String.wf (with_buffer s buf').
Proof.
  intros Hwf Hb Hl.
  pose proof (wf_with_buffer s buf buf' (Size s.2) Hwf Hb Hl (String.wf_size s Hwf)) as H.
  destruct (with_buffer_fields s buf') as (Es & Ec & Ea).
  unfold set_Size in H. rewrite <- Es in H.
  by destruct (with_buffer s buf') as [h [sz cp mm]].
Qed.

Lemma Resize_returns s n s' :
  String.wf s -> String.Resize n s = Returns s' ->
  String.wf s' /\ Size s'.2 = n /\
  if Resize_reallocates s n
  then Capacity s'.2 = Grow n /\ allocations s'.1 = S (allocations s.1)
  else Capacity s'.2 = Capacity s.2 /\ allocations s'.1 = allocations s.1.
Proof.
  intros Hwf Hr. destruct (String.wf_buffer s Hwf) as (buf & Hb & Hlen).
  pose proof (String.wf_size s Hwf) as Hsz. pose proof (String.wf_capacity s Hwf) as Hcap.
  rewrite (Resize_unfold s buf n Hwf Hb) in Hr. cbv zeta in Hr.
  destruct (Resize_reallocates s n) eqn:E.
  - apply andb_true_iff in E as [E1%Z.leb_le E2%Z.ltb_lt].
    pose proof (Grow_range n) as Hg.
    assert (Hgl : length (grown_buffer buf (Size s.2) (Grow n)) = Z.to_nat (Grow n)).
    { apply grown_buffer_length; lia. }
    destruct (resized_buffer _ _ n) as [buf'|] eqn:Eb; simpl in Hr; [|done].
    injection Hr as <-. apply resized_buffer_Some in Eb as [Hn Hl'].
    set (s1 := reallocated s (Grow n) (grown_buffer buf (Size s.2) (Grow n))).
    assert (Hwf1 : String.wf s1) by (apply wf_reallocated; [done|lia|lia]).
    assert (Hb1 : String.buffer s1 = Some (grown_buffer buf (Size s.2) (Grow n))).
    { apply buffer_reallocated. lia. }
    destruct (with_buffer_fields s1 buf') as (Es & Ec & Ea).
    split; [|split; [done|]].
    + apply (wf_with_buffer s1 _ buf' n Hwf1 Hb1 Hl'). simpl. lia.
    + simpl. rewrite Ec, Ea. done.
  - destruct (resized_buffer _ _ n) as [buf'|] eqn:Eb; simpl in Hr; [|done].
    injection Hr as <-. apply resized_buffer_Some in Eb as [Hn Hl'].
    destruct (with_buffer_fields s buf') as (Es & Ec & Ea).
    split; [|split; [done|]].
    + apply (wf_with_buffer s buf buf' n Hwf Hb Hl'). lia.
    + simpl. rewrite Ec, Ea. done.
Qed.

Lemma GetData_buffer s buf :
  String.buffer s = Some buf ->
  exists pl, GetData String.MaxShortStringSize s.2 = At pl 0.
Proof. intros (pl & Hd & _)%buffer_data. eauto. Qed.

Lemma GetData_with_buffer s buf buf' :
  String.buffer s = Some buf ->
  GetData String.MaxShortStringSize (with_buffer s buf').2
  = GetData String.MaxShortStringSize s.2.
Proof.
  intros (pl & Hd & Hpl & Hcase)%buffer_data. unfold with_buffer.
  destruct Hcase as [[Hin ->]|[Hin (b & -> & HM)]]; rewrite Hin.
  - unfold GetData, String.is_inline in *. simpl.
    destruct (Z.ltb_spec String.MaxShortStringSize (Capacity s.2)); [|done].
    apply Z.leb_le in Hin. lia.
  - by rewrite HM.
Qed.

Lemma copy_loop_preserves n : forall first k s s',
  String.wf s ->
  String.copy_loop n first (ptr_add (GetData String.MaxShortStringSize s.2) k) s = Returns s' ->
  String.wf s' /\ Size s'.2 = Size s.2 /\ Capacity s'.2 = Capacity s.2
  /\ allocations s'.1 = allocations s.1.
Proof.
  induction n as [|n IH]; intros first k s s' Hwf Hrun; simpl in Hrun.
  - by injection Hrun as <-.
  - destruct (String.wf_buffer s Hwf) as (buf & Hb & Hlen).
    destruct (load_range _ s first 1) as [[|c [|? ?]]|]; try done.
    rewrite (store_range_data s buf k [c] Hb) in Hrun.
    destruct (cells_write buf k [c]) as [buf'|] eqn:E; simpl in Hrun; [|done].
    pose proof (cells_write_length _ _ _ _ E) as Hl.
    pose proof (wf_with_buffer_same s buf buf' Hwf Hb Hl) as Hwf'.
    destruct (with_buffer_fields s buf') as (Es & Ec & Ea).
    destruct (GetData_buffer s buf Hb) as (pl & Hd).
    rewrite Hd in Hrun. simpl in Hrun.
    specialize (IH (ptr_add first 1) (k + 1) (with_buffer s buf') s' Hwf').
    rewrite (GetData_with_buffer s buf buf' Hb), Hd in IH. simpl in IH.
    destruct (IH Hrun) as (? & ? & ? & ?). split; [done|]. lia.
Qed.

Lemma perform_returns o s s' :
  String.wf s -> String.perform o s = Returns s' ->
  String.wf s' /\
  exists n, Size s'.2 = n /\
    if Resize_reallocates s n
    then Capacity s'.2 = Grow n /\ allocations s'.1 = S (allocations s.1)
    else Capacity s'.2 = Capacity s.2 /\ allocations s'.1 = allocations s.1.
Proof.
  intros Hwf Hp. destruct o as [n|c count|view]; simpl in Hp.
  - destruct (Resize_returns s n s' Hwf Hp) as (? & ? & ?). split; [done|]. by exists n.
  - unfold String.Append_char, String.ResizeMore in Hp.
    destruct (String.Resize _ s) as [s1| | |] eqn:Hr; simpl in Hp; try done.
    destruct (Resize_returns s _ s1 Hwf Hr) as (Hwf1 & Hsz & Hcase).
    destruct (String.wf_buffer s1 Hwf1) as (buf & Hb & Hlen).
    rewrite (store_range_data s1 buf _ _ Hb) in Hp.
    destruct (cells_write buf _ _) as [buf'|] eqn:E; simpl in Hp; [|done].
    injection Hp as <-.
    pose proof (cells_write_length _ _ _ _ E) as Hl.
    destruct (with_buffer_fields s1 buf') as (Es & Ec & Ea).
    split; [by apply (wf_with_buffer_same s1 buf)|].
    exists (to_size_t (Size s.2 + count)). rewrite Es, Ec, Ea. done.
  - unfold String.Append in Hp. destruct (String.view_size view) as [n|]; [|done].
    unfold String.ResizeMore in Hp.
    destruct (String.Resize _ s) as [s1| | |] eqn:Hr; simpl in Hp; try done.
    destruct (Resize_returns s _ s1 Hwf Hr) as (Hwf1 & Hsz & Hcase).
    destruct (copy_loop_preserves _ _ _ _ _ Hwf1 Hp) as (Hwf' & Es & Ec & Ea).
    split; [done|]. exists (to_size_t (Size s.2 + n)). rewrite Es, Ec, Ea. done.
Qed.


Lemma wf_empty : String.wf String.empty.
Proof.
  split.
  - simpl. unfold String.MaxShortStringSize. lia.
  - simpl. unfold String.MaxShortStringSize, size_t_modulus. lia.
  - eexists. split; [reflexivity|]. reflexivity.
  - intros b [x Hx]. simpl in Hx. by rewrite lookup_empty in Hx.
Qed.

Lemma inline_size_below s :
  String.wf s -> String.is_inline s = true -> Size s.2 < String.MaxShortStringSize.
Proof.
  intros Hwf Hin%Z.leb_le. pose proof (String.wf_size s Hwf). lia.
Qed.

Lemma perform_never_allocated o s s' :
  String.wf s -> String.perform o s = Returns s' ->
  never_allocated s' <-> never_allocated s /\ Size s'.2 < String.MaxShortStringSize.
Proof.
  intros Hwf Hp. destruct (perform_returns o s s' Hwf Hp) as (Hwf' & n & Hn & Hcase).
  pose proof (String.wf_capacity s Hwf) as Hcap.
  unfold never_allocated, String.is_inline. split.
  - intros [Hin Ha]. destruct (Resize_reallocates s n); [lia|].
    destruct Hcase as [Ec Ea]. rewrite <- Ec, <- Ea. split; [done|].
    by apply inline_size_below.
  - intros [[Hin%Z.leb_le Ha] Hlt]. 
    assert (E : Resize_reallocates s n = false).
    { unfold Resize_reallocates. destruct (Z.leb_spec (Capacity s.2) n); [lia|done]. }
    rewrite E in Hcase. destruct Hcase as [Ec Ea]. rewrite Ec, Ea. split; [|done].
    apply Z.leb_le. lia.
Qed.

Lemma run_head ops s trace :
  String.run ops s = Returns trace -> exists rest, trace = s :: rest.
Proof.
  destruct ops as [|o ops]; simpl.
  - intros [= <-]. eauto.
  - destruct (String.perform o s) as [s1| | |]; simpl; try done.
    destruct (String.run ops s1) as [t| | |]; simpl; try done.
    intros [= <-]. eauto.
Qed.

Lemma run_invariant ops : forall s trace,
  String.wf s -> String.run ops s = Returns trace ->
  (forall x, x ∈ trace -> String.wf x) /\
  exists final, last trace = Some final /\
    (never_allocated final <->
     never_allocated s /\ forall x, x ∈ trace -> Size x.2 < String.MaxShortStringSize).
Proof.
  induction ops as [|o ops IH]; intros s trace Hwf Hrun; simpl in Hrun.
  - injection Hrun as <-. split.
    + intros x Hx%list_elem_of_singleton. by subst.
    + exists s. split; [done|]. split.
      * intros Hn. split; [done|]. intros x Hx%list_elem_of_singleton. subst.
        apply inline_size_below; [done|apply Hn].
      * tauto.
  - destruct (String.perform o s) as [s1| | |] eqn:Hp; simpl in Hrun; try done.
    destruct (String.run ops s1) as [t| | |] eqn:Hr; simpl in Hrun; try done.
    injection Hrun as <-.
    destruct (perform_returns o s s1 Hwf Hp) as (Hwf1 & _).
    destruct (IH s1 t Hwf1 Hr) as (Hall & final & Hlast & Hiff).
    destruct (run_head ops s1 t Hr) as (rest & ->).
    split.
    + intros x [->|Hx]%elem_of_cons; [done|by apply Hall].
    + exists final. split; [by rewrite last_cons, Hlast|].
      rewrite Hiff. rewrite (perform_never_allocated o s s1 Hwf Hp). split.
      * intros [[Hn Hs1] Hx]. split; [done|].
        intros x [->|Hx']%elem_of_cons; [|by apply Hx].
        apply inline_size_below; [done|apply Hn].
      * intros [Hn Hx]. split; [split; [done|]|].
        -- apply Hx. apply elem_of_cons. right. apply elem_of_cons. by left.
        -- intros x Hx'. apply Hx. apply elem_of_cons. by right.
Qed.

(** C6 as stated fails at size 31: after [Resize(31)] on an empty string
    the size has never exceeded 31, and the string is heap-backed, with
    capacity 48. *)
Lemma Resize_31_moves_to_the_heap :
  match String.run [String.do_Resize 31] String.empty with
  | Returns [s0; s1] =>
    Size s0.2 = 0 /\ Size s1.2 = 31 /\
    String.is_inline s1 = false /\ Capacity s1.2 = 48 /\ allocations s1.1 = 1%nat
  | _ => False
  end.
Proof. vm_compute. repeat split. Qed.

(** C6, amended: after every sequence of [Append] and [Resize] calls on
    a string, at every point [capacity > size] holds, and the
    representation is inline with no array ever obtained from the free
    store if and only if the size has never reached the inline capacity
    constant 31 (has never exceeded 30). *)
Theorem capacity_above_size_and_inline_iff_below_31 ops trace :
  String.run ops String.empty = Returns trace ->
  (forall s, s ∈ trace -> Size s.2 < Capacity s.2) /\
  exists final, last trace = Some final /\
    ((String.is_inline final = true /\ allocations final.1 = 0%nat)
     <-> forall s, s ∈ trace -> Size s.2 < String.MaxShortStringSize).
Proof.
  intros Hrun. destruct (run_invariant ops _ _ wf_empty Hrun) as (Hall & final & Hlast & Hiff).
  split.
  - intros s Hs. apply (String.wf_size s (Hall s Hs)).
  - exists final. split; [done|]. fold (never_allocated final). rewrite Hiff.
    split; [tauto|]. intros H. split; [|done]. split; reflexivity.
Qed.

Lemma capacity_above_size_and_inline_iff_below_31_witness :
  let ops := [String.do_Resize 2; String.do_Append_char 97 40] in
  exists trace,
    String.run ops String.empty = Returns trace /\
    (forall s, s ∈ trace -> Size s.2 < Capacity s.2) /\
    exists final, last trace = Some final /\
      ((String.is_inline final = true /\ allocations final.1 = 0%nat)
       <-> forall s, s ∈ trace -> Size s.2 < String.MaxShortStringSize).
Proof.
  intros ops. eexists. split; [vm_compute; reflexivity|].
  apply (capacity_above_size_and_inline_iff_below_31 ops). vm_compute. reflexivity.
Defined.

(** *** Appending a view of the string itself *)

Lemma cells_write_lookup l i vs l' j :
  cells_write l i vs = Some l' ->
  l' !! j = if decide (Z.to_nat i <= j < Z.to_nat i + length vs)%nat
            then vs !! (j - Z.to_nat i)%nat else l !! j.
Proof.
  intros [[H0 H1] ->]%cells_write_Some.
  case_decide as Hj.
  - rewrite lookup_app_r by (rewrite length_take; lia).
    rewrite length_take. rewrite lookup_app_l by lia. f_equal; lia.
  - destruct (decide (j < Z.to_nat i)%nat).
    + rewrite lookup_app_l by (rewrite length_take; lia). by rewrite lookup_take_lt.
    + rewrite lookup_app_r by (rewrite length_take; lia).
      rewrite length_take. rewrite lookup_app_r by lia.
      rewrite lookup_drop. f_equal; lia.
Qed.

Lemma with_buffer_twice s buf b2 b3 :
  String.buffer s = Some buf ->
  with_buffer (with_buffer s b2) b3 = with_buffer s b3.
Proof.
  intros (pl & Hd & Hpl & Hcase)%buffer_data. unfold with_buffer.
  destruct Hcase as [[Hin ->]|[Hin (b & -> & HM)]]; rewrite Hin.
  - unfold String.is_inline in *. simpl. rewrite Hin. done.
  - rewrite HM. unfold String.is_inline in *. simpl. rewrite Hin, HM. simpl.
    by rewrite insert_insert_eq.
Qed.

Lemma ptr_add_data s buf a :
  String.buffer s = Some buf ->
  ptr_add (ptr_add (GetData String.MaxShortStringSize s.2) a) 1
  = ptr_add (GetData String.MaxShortStringSize s.2) (a + 1).
Proof.
  intros (pl & -> & _)%buffer_data. simpl. f_equal; lia.
Qed.

(** Copying [n] slots from index [a] to index [d] of the string's own
    array, the source lying before the destination. *)
Lemma copy_loop_within n : forall a d s buf,
  String.buffer s = Some buf ->
  0 <= a -> a + Z.of_nat n <= d -> d + Z.of_nat n <= Z.of_nat (length buf) ->
  exists s' buf',
    String.copy_loop n (ptr_add (GetData String.MaxShortStringSize s.2) a)
      (ptr_add (GetData String.MaxShortStringSize s.2) d) s = Returns s'
    /\ String.buffer s' = Some buf'
    /\ length buf' = length buf
    /\ forall j, buf' !! j = if decide (Z.to_nat d <= j < Z.to_nat d + n)%nat
                             then buf !! (j - Z.to_nat d + Z.to_nat a)%nat else buf !! j.
Proof.
  induction n as [|n IH]; intros a d s buf Hb Ha Had Hd.
  - exists s, buf. simpl. split; [done|]. split; [done|]. split; [done|].
    intros j. case_decide; [lia|done].
  - simpl. rewrite (load_range_data s buf a 1 Hb).
    destruct (lookup_lt_is_Some_2 buf (Z.to_nat a)) as [c Hc]; [lia|].
    assert (Hread : cells_read buf a 1 = Some [c]).
    { replace a with (0 + a) by lia. apply (cells_read_inside buf 0 (length buf) buf).
      - apply cells_read_Some. split; [lia|]. by rewrite drop_0, firstn_all.
      - done.
      - done. }
    rewrite Hread. rewrite (store_range_data s buf d [c] Hb).
    destruct (cells_write buf d [c]) as [buf1|] eqn:Ew.
    2:{ apply cells_write_None in Ew. simpl in Ew. lia. }
    simpl. pose proof (cells_write_length _ _ _ _ Ew) as Hl1.
    pose proof (buffer_with_buffer s buf buf1 Hb) as Hb1.
    rewrite !(ptr_add_data s buf) by done.
    rewrite <- (GetData_with_buffer s buf buf1 Hb).
    destruct (IH (a + 1) (d + 1) (with_buffer s buf1) buf1 Hb1) as (s' & buf' & Hrun & Hb' & Hl' & Hlk);
      try lia.
    exists s', buf'. split; [done|]. split; [done|]. split; [lia|].
    intros j. rewrite Hlk.
    pose proof (cells_write_lookup buf d [c] buf1) as Hw1. simpl in Hw1.
    case_decide as Hj1.
    + rewrite (Hw1 _ Ew). case_decide; [lia|].
      rewrite decide_True by lia. f_equal; lia.
    + rewrite (Hw1 _ Ew). case_decide as Hj2.
      * assert (j = Z.to_nat d) as -> by lia. 
        rewrite decide_True by lia. rewrite Nat.sub_diag. simpl.
        rewrite <- Hc. f_equal; lia.
      * rewrite decide_False by lia. done.
Qed.

Lemma resized_buffer_in_place buf size n :
  0 <= size <= n -> n < Z.of_nat (length buf) ->
  exists buf', resized_buffer buf size n = Some buf'
               /\ length buf' = length buf
               /\ forall j, (j < Z.to_nat size)%nat -> buf' !! j = buf !! j.
Proof.
  intros Hs Hn. unfold resized_buffer.
  destruct (cells_write buf size (replicate (Z.to_nat (n - size)) (unit_ 0))) as [buf2|] eqn:E2.
  2:{ apply cells_write_None in E2. rewrite length_replicate in E2. lia. }
  simpl. pose proof (cells_write_length _ _ _ _ E2) as L2.
  destruct (cells_write buf2 n [unit_ 0]) as [buf3|] eqn:E3.
  2:{ apply cells_write_None in E3. simpl in E3. lia. }
  exists buf3. split; [done|]. pose proof (cells_write_length _ _ _ _ E3) as L3.
  split; [lia|]. intros j Hj.
  rewrite (cells_write_lookup _ _ _ _ j E3). rewrite decide_False by lia.
  rewrite (cells_write_lookup _ _ _ _ j E2). rewrite decide_False by lia. done.
Qed.

Lemma slots_buffer s buf :
  String.buffer s = Some buf -> String.slots s = cells_read buf 0 (Z.to_nat (Size s.2)).
Proof. destruct s as [h st]. intros Hb. by apply load_range_at_data. Qed.

Lemma determinate_app l1 l2 u1 u2 :
  String.determinate l1 = Some u1 -> String.determinate l2 = Some u2 ->
  String.determinate (l1 ++ l2) = Some (u1 ++ u2).
Proof.
  revert u1. induction l1 as [|[|c] l1 IH]; intros u1 H1 H2; simpl in *; try done.
  - by injection H1 as <-.
  - destruct (String.determinate l1) as [u|] eqn:E; simpl in H1; [|done].
    injection H1 as <-. rewrite (IH u eq_refl H2). done.
Qed.

Lemma view_size_GetView s buf :
  String.wf s -> String.buffer s = Some buf ->
  String.view_size (String.GetView s) = Some (Size s.2).
Proof.
  intros Hwf Hb. pose proof (String.wf_size s Hwf). pose proof (String.wf_capacity s Hwf).
  unfold String.GetView, String.view_size. simpl.
  assert (E : to_size_t (0 + Size s.2 - 0) = Size s.2).
  { replace (0 + Size s.2 - 0) with (Size s.2) by lia.
    apply to_size_t_small. unfold is_size_t. lia. }
  destruct (buffer_data s buf Hb) as (pl & -> & _ & [[_ ->]|[_ (b & -> & _)]]); simpl.
  - by rewrite E.
  - rewrite decide_True by done. by rewrite E.
Qed.

Lemma of_list_wf l s : String.of_list l = Returns s -> String.wf s.
Proof.
  intros H. unfold String.of_list in H.
  apply (perform_returns (String.do_Append _) String.empty s wf_empty H).
Qed.

(** C5, amended: when appending a string's own content does not force a
    reallocation (twice the size is below the capacity), [Append] with a
    view of the string's own current content leaves the string holding
    its original content followed by one copy of it, in the same array. *)
Theorem self_append_without_reallocation_doubles s us :
  String.wf s -> String.content s = Some us ->
  Size s.2 + Size s.2 < Capacity s.2 ->
  exists s', String.Append (String.GetView s) s = Returns s'
             /\ String.content s' = Some (us ++ us)
             /\ Capacity s'.2 = Capacity s.2
             /\ allocations s'.1 = allocations s.1.
Proof.
  intros Hwf Hc Hfit.
  pose proof (String.wf_size s Hwf) as Hsz. pose proof (String.wf_capacity s Hwf) as Hcap.
  destruct (String.wf_buffer s Hwf) as (buf & Hb & Hlen).
  unfold String.Append. rewrite (view_size_GetView s buf Hwf Hb).
  unfold String.ResizeMore.
  assert (E2 : to_size_t (Size s.2 + Size s.2) = Size s.2 + Size s.2).
  { apply to_size_t_small. unfold is_size_t. lia. }
  rewrite E2. set (n2 := Size s.2 + Size s.2) in *.
  rewrite (Resize_unfold s buf n2 Hwf Hb). cbv zeta.
  assert (Er : Resize_reallocates s n2 = false).
  { unfold Resize_reallocates. destruct (Z.leb_spec (Capacity s.2) n2); [lia|done]. }
  rewrite Er.
  destruct (resized_buffer_in_place buf (Size s.2) n2) as (buf3 & -> & L3 & K3); [lia|lia|].
  simpl.
  set (s1 := set_Size n2 (with_buffer s buf3)).
  assert (Hb1 : String.buffer s1 = Some buf3) by (by apply (buffer_with_buffer s buf)).
  assert (Hwf1 : String.wf s1) by (apply (wf_with_buffer s buf); [done|done|done|lia]).
  assert (Hd1 : GetData String.MaxShortStringSize s1.2 = GetData String.MaxShortStringSize s.2).
  { apply (GetData_with_buffer s buf buf3 Hb). }
  destruct (copy_loop_within (Z.to_nat (Size s.2)) 0 (Size s.2) s1 buf3 Hb1)
    as (s' & buf' & Hrun & Hb' & L' & K'); try lia.
  exists s'. split.
  { etransitivity; [|exact Hrun]. f_equal.
    rewrite Hd1. destruct (GetData_buffer s buf Hb) as (pl & ->). done. }
  destruct (copy_loop_preserves _ _ _ _ _ Hwf1 Hrun) as (Hwf' & Es & Ec & Ea).
  destruct (with_buffer_fields s buf3) as (Es3 & Ec3 & Ea3).
  split; [|split; [by rewrite Ec; simpl; rewrite Ec3|by rewrite Ea; simpl; rewrite Ea3]].
  unfold String.content in *. rewrite (slots_buffer s buf Hb) in Hc.
  rewrite (slots_buffer s' buf' Hb'). rewrite Es. simpl.
  assert (R0 : cells_read buf 0 (Z.to_nat (Size s.2)) = Some (take (Z.to_nat (Size s.2)) buf)).
  { apply cells_read_Some. split; [lia|done]. }
  rewrite R0 in Hc. simpl in Hc.
  assert (R1 : cells_read buf' 0 (Z.to_nat n2)
               = Some (take (Z.to_nat (Size s.2)) buf ++ take (Z.to_nat (Size s.2)) buf)).
  { apply cells_read_Some. split; [lia|]. simpl. rewrite drop_0.
    apply list_eq. intros j.
    destruct (decide (j < Z.to_nat (Size s.2))%nat) as [Hj|Hj].
    - rewrite lookup_app_l by (rewrite length_take; lia).
      rewrite !lookup_take_lt by lia. rewrite K'. rewrite decide_False by lia.
      symmetry. by apply K3.
    - destruct (decide (j < Z.to_nat n2)%nat) as [Hj2|Hj2].
      + rewrite lookup_app_r by (rewrite length_take; lia). rewrite length_take.
        rewrite !lookup_take_lt by lia. rewrite K'. rewrite decide_True by lia.
        rewrite K3 by lia. change (Z.to_nat 0) with 0%nat. f_equal; lia.
      + rewrite lookup_take_ge by lia. apply lookup_ge_None_2.
        rewrite length_app, !length_take. lia. }
  rewrite R1. simpl. by apply determinate_app.
Qed.

Lemma self_append_without_reallocation_doubles_witness :
  match String.of_list (u8 "ab") with
  | Returns s =>
    exists s', String.Append (String.GetView s) s = Returns s'
               /\ String.content s' = Some (u8 "abab")
  | _ => False
  end.
Proof.
  destruct (String.of_list (u8 "ab")) as [s| | |] eqn:Hs;
    try (vm_compute in Hs; discriminate).
  destruct (self_append_without_reallocation_doubles s (u8 "ab")) as (s' & Hrun & Hc & _).
  - exact (of_list_wf _ _ Hs).
  - vm_compute in Hs. injection Hs as <-. reflexivity.
  - vm_compute in Hs. injection Hs as <-. reflexivity.
  - exists s'. split; [exact Hrun|exact Hc].
Defined.

(** C5 as stated fails as soon as the append has to grow the array: for
    a string of 40 units (capacity 64) [Resize(80)] moves the content to
    a new array and releases the one the view points into, which
    [std::copy] then reads. *)
Lemma self_append_with_reallocation_reads_released_array :
  match String.of_list (u8 "0123456789abcdef0123456789abcdef01234567") with
  | Returns s =>
    Size s.2 = 40 /\ Capacity s.2 = 64 /\
    String.Append (String.GetView s) s = Undefined
  | _ => False
  end.
Proof. vm_compute. repeat split. Qed.

(** The same from the inline array: at 16 units [Resize(32)] moves the
    content to the free store and stores the pointer over the inline
    array the view points into; what is appended is indeterminate. *)
Lemma self_append_leaving_inline_array_is_indeterminate :
  match String.of_list (u8 "0123456789abcdef") with
  | Returns s =>
    match String.Append (String.GetView s) s with
    | Returns s' => Size s'.2 = 32 /\ String.is_inline s' = false /\ String.content s' = None
    | _ => False
    end
  | _ => False
  end.
Proof. vm_compute. repeat split. Qed.

(** *** Move assignment *)


Lemma with_buffer_frame s x b :
  ~ owns s b -> live (with_buffer s x).1 !! b = live s.1 !! b.
Proof.
  intros Hno. unfold with_buffer. destruct (String.is_inline s) eqn:Hin; [done|].
  destruct (Members s.2) as [a|[| |[|b0|l] [| |]]] eqn:HM; try done.
  simpl. destruct (decide (b0 = b)) as [->|Hne]; [|by rewrite lookup_insert_ne].
  exfalso. apply Hno. by split.
Qed.

Lemma owns_with_buffer s buf x b :
  String.buffer s = Some buf -> owns (with_buffer s x) b -> owns s b.
Proof.
  intros (pl & Hd & Hpl & Hcase)%buffer_data. unfold owns, with_buffer, String.is_inline.
  destruct Hcase as [[Hin ->]|[Hin (b0 & -> & HM)]]; unfold String.is_inline in Hin; rewrite Hin.
  - simpl. rewrite Hin. intros [? _]. done.
  - rewrite HM. simpl. rewrite Hin, HM. done.
Qed.

Lemma reallocated_frame s g x b :
  (b < allocations s.1)%nat -> ~ owns s b ->
  live (reallocated s g x).1 !! b = live s.1 !! b.
Proof.
  intros Hb Hno. unfold reallocated. simpl.
  rewrite lookup_insert_ne by lia.
  destruct (String.is_inline s) eqn:Hin; [done|].
  destruct (Members s.2) as [a|[| |[|b0|l] [| |]]] eqn:HM; try done.
  destruct (decide (b0 = b)) as [->|Hne]; [|by rewrite lookup_delete_ne].
  exfalso. apply Hno. by split.
Qed.

Lemma owns_reallocated s g x b :
  owns (reallocated s g x) b -> b = allocations s.1.
Proof. unfold owns, reallocated. simpl. intros [_ [= ->]]. done. Qed.

Lemma resized_buffer_exists buf size n :
  0 <= size <= Z.of_nat (length buf) -> 0 <= n < Z.of_nat (length buf) ->
  exists buf', resized_buffer buf size n = Some buf' /\ length buf' = length buf.
Proof.
  intros Hs Hn. unfold resized_buffer.
  destruct (cells_write buf size (replicate (Z.to_nat (n - size)) (unit_ 0))) as [buf2|] eqn:E2.
  2:{ apply cells_write_None in E2. rewrite length_replicate in E2. lia. }
  simpl. pose proof (cells_write_length _ _ _ _ E2) as L2.
  destruct (cells_write buf2 n [unit_ 0]) as [buf3|] eqn:E3.
  2:{ apply cells_write_None in E3. simpl in E3. lia. }
  exists buf3. split; [done|]. pose proof (cells_write_length _ _ _ _ E3) as L3. lia.
Qed.

(** [Resize] to a size a [size_t] below its maximum can hold returns, and
    touches no array but the string's own. *)
Lemma Resize_total s n :
  String.wf s -> 0 <= n < size_t_modulus - 1 ->
  exists s', String.Resize n s = Returns s' /\ String.wf s' /\ Size s'.2 = n
    /\ (allocations s.1 <= allocations s'.1)%nat
    /\ (forall b, (b < allocations s.1)%nat -> ~ owns s b ->
          live s'.1 !! b = live s.1 !! b /\ ~ owns s' b).
Proof.
  intros Hwf Hn. destruct (String.wf_buffer s Hwf) as (buf & Hb & Hlen).
  pose proof (String.wf_size s Hwf) as Hsz. pose proof (String.wf_capacity s Hwf) as Hcap.
  pose proof (Grow_above n Hn) as Hgrow. pose proof (Grow_range n) as Hgr.
  assert (Hex : exists s', String.Resize n s = Returns s'
            /\ (forall b, (b < allocations s.1)%nat -> ~ owns s b ->
                  live s'.1 !! b = live s.1 !! b /\ ~ owns s' b)).
  { rewrite (Resize_unfold s buf n Hwf Hb). cbv zeta.
    destruct (Resize_reallocates s n) eqn:E.
    - apply andb_true_iff in E as [E1%Z.leb_le E2%Z.ltb_lt].
      destruct (resized_buffer_exists (grown_buffer buf (Size s.2) (Grow n)) (Size s.2) n)
        as (buf' & -> & Hl'); [rewrite grown_buffer_length by lia; lia..|].
      eexists. split; [reflexivity|]. intros b Hlt Hno. simpl.
      assert (Hbr : String.buffer (reallocated s (Grow n) (grown_buffer buf (Size s.2) (Grow n)))
                    = Some (grown_buffer buf (Size s.2) (Grow n))).
      { apply buffer_reallocated. lia. }
      split.
      + rewrite with_buffer_frame.
        * by apply reallocated_frame.
        * intros Hown%owns_reallocated. lia.
      + intros Hown. 
        assert (Hown' : owns (with_buffer (reallocated s (Grow n)
                           (grown_buffer buf (Size s.2) (Grow n))) buf') b).
        { destruct Hown as [H1 H2]. split; [exact H1|exact H2]. }
        apply (owns_with_buffer _ _ _ _ Hbr) in Hown'. apply owns_reallocated in Hown'. lia.
    - assert (Hlt : n < Capacity s.2).
      { unfold Resize_reallocates in E. apply andb_false_iff in E as [E%Z.leb_gt|E%Z.ltb_ge]; lia. }
      destruct (resized_buffer_exists buf (Size s.2) n) as (buf' & -> & Hl'); [lia|lia|].
      eexists. split; [reflexivity|]. intros b Hlt' Hno. simpl. split.
      + by apply with_buffer_frame.
      + intros Hown. apply Hno.
        assert (Hown' : owns (with_buffer s buf') b).
        { destruct Hown as [H1 H2]. split; [exact H1|exact H2]. }
        by apply (owns_with_buffer _ _ _ _ Hb) in Hown'. }
  destruct Hex as (s' & Hr & Hframe). exists s'. split; [done|].
  destruct (Resize_returns s n s' Hwf Hr) as (Hwf' & Hsz' & Hcase).
  split; [done|]. split; [done|]. split; [|done].
  destruct (Resize_reallocates s n); lia.
Qed.

Lemma store_range_at_data s buf vs :
  String.buffer s = Some buf ->
  store_range String.MaxShortStringSize s (GetData String.MaxShortStringSize s.2) vs
  = (buf' ← cells_write buf 0 vs; Some (with_buffer s buf')).
Proof.
  intros Hb. rewrite <- (store_range_data s buf 0 vs Hb).
  destruct (GetData_buffer s buf Hb) as (pl & ->). done.
Qed.

Lemma content_buffer s buf :
  String.buffer s = Some buf -> 0 <= Size s.2 <= Z.of_nat (length buf) ->
  String.content s = String.determinate (take (Z.to_nat (Size s.2)) buf).
Proof.
  intros Hb Hs. unfold String.content. rewrite (slots_buffer s buf Hb).
  assert (R : cells_read buf 0 (Z.to_nat (Size s.2)) = Some (take (Z.to_nat (Size s.2)) buf)).
  { apply cells_read_Some. split; [lia|done]. }
  by rewrite R.
Qed.

(** The donor's units as [Assign] reads them through [other.GetData()]. *)
Lemma load_from_donor m1 h other buf n :
  String.wf (h, other) -> String.buffer (h, other) = Some buf ->
  (forall b, owns (h, other) b -> live m1.1 !! b = live h !! b) ->
  0 <= n <= Capacity other ->
  load_range String.MaxShortStringSize m1
    (other_GetData String.MaxShortStringSize other) (Z.to_nat n)
  = Some (take (Z.to_nat n) buf).
Proof.
  intros Hwf Hb Hframe Hn. destruct (String.wf_buffer _ Hwf) as (buf0 & Hb0 & Hlen).
  rewrite Hb in Hb0. injection Hb0 as <-. simpl in Hlen.
  assert (R : cells_read buf 0 (Z.to_nat n) = Some (take (Z.to_nat n) buf)).
  { apply cells_read_Some. split; [lia|done]. }
  unfold other_GetData.
  destruct (buffer_data _ _ Hb) as (pl & Hd & Hpl & [[Hin ->]|[Hin (b & -> & HM)]]);
    unfold String.is_inline in Hin; simpl in *.
  - destruct (Z.ltb_spec String.MaxShortStringSize (Capacity other)) as [Hc|Hc].
    + apply Z.leb_le in Hin. lia.
    + simpl. injection Hpl as <-. exact R.
  - destruct (Z.ltb_spec String.MaxShortStringSize (Capacity other)) as [Hc|Hc].
    + rewrite HM. simpl. rewrite (Hframe b).
      * rewrite Hpl. exact R.
      * split; [exact Hin|exact HM].
    + apply Z.leb_gt in Hin. lia.
Qed.

(** C7 as stated fails for a destination in its inline representation:
    move-assigning a heap-backed string of 40 units into an empty string
    hands over the donor's pointer, with no allocation and no copy. *)
Lemma move_into_inline_destination_transfers :
  match String.of_list (u8 "0123456789abcdef0123456789abcdef01234567") with
  | Returns src =>
    let dst : String.t := (src.1, StringStorage_new String.MaxShortStringSize) in
    String.is_inline dst = true /\
    Members src.2 = as_Pointer (At (Block 0) 0) /\
    Assign_move String.MaxShortStringSize String.MaxShortStringSize dst src.2
    = Returns ((src.1, mkStorage 40 64 (as_Pointer (At (Block 0) 0))),
               mkStorage 40 64 (as_Pointer Null))
  | _ => False
  end.
Proof. vm_compute. repeat split. Qed.

(** C7, amended: move-assigning one storage into another hands over the
    donor's [Pointer] (the free store is left as it was: no allocation
    and no element copy) exactly when the donor's representation is
    heap-backed (its capacity exceeds its own inline capacity) and the
    donor's used length exceeds the destination's inline capacity; in
    every other case it copies: for the storage of [String], where both
    inline capacities are 31, the destination ends up holding the donor's
    units in an array of its own and the donor keeps its array. *)
Theorem move_assign_transfers_iff_donor_is_heap_backed_and_long :
  (forall ArrayMaxSize OtherArrayMaxSize m other,
     (OtherArrayMaxSize <? Capacity other) && (ArrayMaxSize <? Size other) = true ->
     Assign_move ArrayMaxSize OtherArrayMaxSize m other
     = Returns ((m.1, mkStorage (Size other) (Capacity other)
                        (as_Pointer (read_Pointer (Members other)))),
                mkStorage (Size other) (Capacity other)
                  (as_Pointer (read_Pointer (Members m.2))))) /\
  (forall (m : String.t) other us,
     (String.MaxShortStringSize <? Capacity other)
       && (String.MaxShortStringSize <? Size other) = false ->
     String.wf m -> String.wf (m.1, other) ->
     (forall b, owns m b -> ~ owns (m.1, other) b) ->
     String.content (m.1, other) = Some us ->
     exists m',
       Assign_move String.MaxShortStringSize String.MaxShortStringSize m other
       = Returns (m', other)
       /\ String.wf m' /\ String.content m' = Some us
       /\ String.content (m'.1, other) = Some us
       /\ (forall b, owns m' b -> ~ owns (m'.1, other) b)).
Proof.
  split.
  - intros A OA [h s] other Hc. unfold Assign_move. rewrite Hc. done.
  - intros [h d] other us Hc Hwf Hwfo Hsep Hus. simpl in *.
    unfold Assign_move. rewrite Hc. unfold Assign_ptr.
    destruct (String.wf_buffer _ Hwfo) as (bo & Hbo & Hlo).
    pose proof (String.wf_size _ Hwfo) as Hso. pose proof (String.wf_capacity _ Hwfo) as Hco.
    simpl in *.
    destruct (Resize_total (h, d) (Size other) Hwf) as (m1 & Hr & Hwf1 & Hsz1 & Hal & Hframe);
      [lia|].
    change (Resize String.MaxShortStringSize (Size other) (h, d))
      with (String.Resize (Size other) (h, d)).
    rewrite Hr. simpl.
    assert (Hother : forall b, owns (h, other) b -> (b < allocations h)%nat /\ ~ owns (h, d) b).
    { intros b Hown. split.
      - apply (String.wf_fresh _ Hwfo). destruct Hown as [Hin HM].
        destruct (wf_data_fresh _ _ Hwfo Hbo Hin) as (old & HM' & Hlive & _).
        simpl in *. rewrite HM in HM'. injection HM' as <-. rewrite Hlive. eauto.
      - intros Hd. by apply (Hsep b). }
    rewrite (load_from_donor m1 h other bo (Size other) Hwfo Hbo); [|
      intros b Hown; destruct (Hother b Hown) as [? ?]; by apply Hframe | lia].
    simpl. destruct (String.wf_buffer _ Hwf1) as (b1 & Hb1 & Hl1).
    pose proof (String.wf_size _ Hwf1) as Hs1.
    rewrite (store_range_at_data m1 b1 _ Hb1).
    destruct (cells_write b1 0 (take (Z.to_nat (Size other)) bo)) as [bf|] eqn:Ew.
    2:{ apply cells_write_None in Ew. rewrite length_take in Ew. lia. }
    simpl. exists (with_buffer m1 bf).
    pose proof (cells_write_length _ _ _ _ Ew) as Hlf.
    pose proof (buffer_with_buffer m1 b1 bf Hb1) as Hbf.
    destruct (with_buffer_fields m1 bf) as (Es & Ec & Ea).
    assert (Hwf' : String.wf (with_buffer m1 bf)) by (by apply (wf_with_buffer_same m1 b1)).
    assert (Hus' : String.determinate (take (Z.to_nat (Size other)) bo) = Some us).
    { rewrite <- Hus. symmetry. apply (content_buffer (h, other) bo Hbo). simpl. lia. }
    assert (Hkeep : forall b, owns (h, other) b ->
              live (with_buffer m1 bf).1 !! b = live h !! b /\ ~ owns (with_buffer m1 bf) b).
    { intros b Hown. destruct (Hother b Hown) as [Hlt Hnd].
      destruct (Hframe b Hlt Hnd) as [Hl Hn1]. split.
      - rewrite with_buffer_frame by done. done.
      - intros Hown'. apply Hn1. by apply (owns_with_buffer m1 b1 bf). }
    assert (Hbo' : String.buffer ((with_buffer m1 bf).1, other) = Some bo).
    { unfold String.buffer in *. unfold String.is_inline in *. simpl in *.
      destruct (Capacity other <=? String.MaxShortStringSize) eqn:Hin; [done|].
      destruct (Members other) as [a|[| |[|b|l] [| |]]] eqn:HM; try done.
      destruct (Hkeep b) as [Hl _]; [|by rewrite Hl].
      split; [exact Hin|exact HM]. }
    split; [done|]. split; [done|]. split; [|split].
    + rewrite (content_buffer _ bf Hbf) by (rewrite Es; lia).
      rewrite Es, Hsz1. rewrite <- Hus'. f_equal.
      apply cells_write_Some in Ew as [_ ->]. simpl.
      rewrite take_app_length' by (rewrite length_take; lia). done.
    + rewrite (content_buffer _ bo Hbo') by (simpl; lia). exact Hus'.
    + intros b Hown Hown'.
      assert (Hown0 : owns (h, other) b).
      { destruct Hown' as [H1 H2]. split; [exact H1|exact H2]. }
      destruct (Hkeep b Hown0) as [_ Hn]. done.
Qed.

Lemma move_assign_transfers_iff_donor_is_heap_backed_and_long_witness :
  match String.of_list (u8 "ab"),
        String.of_list (u8 "0123456789abcdef0123456789abcdef01234567") with
  | Returns short, Returns long =>
    (exists m',
       Assign_move String.MaxShortStringSize String.MaxShortStringSize
         (short.1, StringStorage_new String.MaxShortStringSize) short.2
       = Returns (m', short.2)
       /\ String.content m' = Some (u8 "ab")) /\
    Assign_move String.MaxShortStringSize String.MaxShortStringSize
      (long.1, StringStorage_new String.MaxShortStringSize) long.2
    = Returns ((long.1, mkStorage 40 64 (as_Pointer (At (Block 0) 0))),
               mkStorage 40 64 (as_Pointer Null))
  | _, _ => False
  end.
Proof.
  destruct (String.of_list (u8 "ab")) as [short| | |] eqn:Hs;
    try (vm_compute in Hs; discriminate).
  destruct (String.of_list (u8 "0123456789abcdef0123456789abcdef01234567"))
    as [long| | |] eqn:Hl; try (vm_compute in Hl; discriminate).
  destruct move_assign_transfers_iff_donor_is_heap_backed_and_long as [Hmove Hcopy].
  split.
  - destruct (Hcopy (short.1, StringStorage_new String.MaxShortStringSize) short.2 (u8 "ab"))
      as (m' & Hrun & _ & Hc & _).
    + vm_compute in Hs. injection Hs as <-. reflexivity.
    + vm_compute in Hs. injection Hs as <-. exact wf_empty.
    + pose proof (of_list_wf _ _ Hs) as Hwf. by destruct short.
    + intros b [Hin _]. vm_compute in Hin. discriminate.
    + vm_compute in Hs. injection Hs as <-. reflexivity.
    + exists m'. split; [exact Hrun|exact Hc].
  - rewrite Hmove.
    + vm_compute in Hl. injection Hl as <-. reflexivity.
    + vm_compute in Hl. injection Hl as <-. reflexivity.
Defined.

Lemma Get_raises_iff_index_not_below_size_witness :
  match String.of_list (u8 "ab") with
  | Returns s =>
    StringView.Get (StringView.of_list (u8 "abc")) 1 = Returns 98 /\
    StringView.Get (StringView.of_list (u8 "abc")) 3
      = Throws (natException_ "Pos is out of range.") /\
    String.Get s 1 = Returns 98 /\
    String.Get s 2 = Throws (natException_ "index is out of range.")
  | _ => False
  end.
Proof.
  destruct (String.of_list (u8 "ab")) as [s| | |] eqn:Hs;
    try (vm_compute in Hs; discriminate).
  destruct Get_raises_iff_index_not_below_size as [Hview Hstring].
  assert (Hwf : StringView.wf (StringView.of_list (u8 "abc"))).
  { unfold StringView.wf, ptrdiff_t_half. simpl. lia. }
  assert (Hc : String.content s = Some (u8 "ab")).
  { vm_compute in Hs. injection Hs as <-. reflexivity. }
  assert (Hsz : String.size s = 2).
  { vm_compute in Hs. injection Hs as <-. reflexivity. }
  split; [|split; [|split]].
  - destruct (Hview _ (u8 "abc") 1 Hwf eq_refl) as (_ & _ & Hin); [lia|].
    destruct Hin as (c & Hc1 & Hg); [reflexivity|].
    rewrite Hg. vm_compute in Hc1. injection Hc1 as <-. reflexivity.
  - destruct (Hview _ (u8 "abc") 3 Hwf eq_refl) as (Hiff & _); [lia|].
    apply Hiff. vm_compute. discriminate.
  - destruct (Hstring s (u8 "ab") 1 Hc) as (_ & _ & Hin); [lia|].
    destruct Hin as (c & Hc1 & Hg); [rewrite Hsz; lia|].
    rewrite Hg. vm_compute in Hc1. injection Hc1 as <-. reflexivity.
  - destruct (Hstring s (u8 "ab") 2 Hc) as (Hiff & _); [lia|].
    apply Hiff. rewrite Hsz. lia.
Defined.

(** *** The code units of a string *)

Lemma determinate_Some l us : String.determinate l = Some us <-> l = unit_ <$> us.
Proof.
  revert us. induction l as [|[|c] l IH]; intros us; simpl.
  - split; [intros [= <-]; done|]. destruct us; [done|discriminate].
  - split; [done|]. destruct us; discriminate.
  - destruct (String.determinate l) as [u|] eqn:E; simpl.
    + split.
      * intros [= <-]. simpl. f_equal. by apply IH.
      * destruct us as [|x us]; [discriminate|]. simpl. intros [= -> H].
        apply IH in H. by injection H as ->.
    + split; [done|]. destruct us as [|x us]; [discriminate|]. simpl. intros [= -> H].
      apply IH in H. discriminate.
Qed.

Lemma holds_buffer s us :
  holds s us ->
  exists buf, String.buffer s = Some buf
    /\ Z.of_nat (length buf) = Capacity s.2
    /\ take (Z.to_nat (Size s.2)) buf = unit_ <$> us
    /\ Z.of_nat (length us) = Size s.2.
Proof.
  intros [Hwf Hc]. destruct (String.wf_buffer s Hwf) as (buf & Hb & Hlen).
  pose proof (String.wf_size s Hwf) as Hsz.
  exists buf. split; [done|]. split; [done|].
  rewrite (content_buffer s buf Hb) in Hc by lia.
  apply determinate_Some in Hc. split; [done|].
  apply (f_equal length) in Hc. rewrite length_take, length_fmap in Hc. lia.
Qed.

Lemma holds_intro s buf us :
  String.wf s -> String.buffer s = Some buf ->
  take (Z.to_nat (Size s.2)) buf = unit_ <$> us -> holds s us.
Proof.
  intros Hwf Hb Ht. split; [done|].
  destruct (String.wf_buffer s Hwf) as (buf0 & Hb0 & Hlen).
  rewrite Hb in Hb0. injection Hb0 as <-.
  pose proof (String.wf_size s Hwf) as Hsz.
  rewrite (content_buffer s buf Hb) by lia. by apply determinate_Some.
Qed.

Lemma holds_unique s us us' : holds s us -> holds s us' -> us = us'.
Proof. intros [_ H] [_ H']. congruence. Qed.

Lemma terminator_buffer s buf :
  String.buffer s = Some buf ->
  terminator s = cells_read buf (Size s.2) 1.
Proof. intros Hb. unfold terminator. by apply load_range_data. Qed.

Lemma cells_read_one buf i c :
  0 <= i -> buf !! Z.to_nat i = Some c -> cells_read buf i 1 = Some [c].
Proof.
  intros Hi Hc. apply cells_read_Some.
  pose proof (lookup_lt_Some _ _ _ Hc).
  split; [lia|]. rewrite (drop_S _ c) by done. by simpl; rewrite take_0.
Qed.

(** *** The free store of a string that is its only user *)

Lemma owns_with_buffer_iff s buf x b :
  String.buffer s = Some buf -> owns (with_buffer s x) b <-> owns s b.
Proof.
  intros Hb. split; [by apply (owns_with_buffer s buf)|].
  intros [Hin HM]. unfold owns, with_buffer. rewrite Hin, HM. simpl.
  unfold String.is_inline in *. simpl. done.
Qed.

Lemma sole_owner_with_buffer s buf x :
  String.buffer s = Some buf -> sole_owner s -> sole_owner (with_buffer s x).
Proof.
  intros Hb Hso b Hl. apply (owns_with_buffer_iff s buf x b Hb).
  apply Hso. by apply (with_buffer_live s buf x).
Qed.

Lemma sole_owner_set_Size s n : sole_owner s -> sole_owner (set_Size n s).
Proof. intros Hso b Hl. apply (Hso b) in Hl. done. Qed.

Lemma sole_owner_reallocated s g x :
  String.wf s -> String.MaxShortStringSize < g ->
  sole_owner s -> sole_owner (reallocated s g x).
Proof.
  intros Hwf Hg Hso b Hl. unfold reallocated in *. simpl in *.
  destruct (decide (allocations s.1 = b)) as [<-|Hne].
  { split; [|done]. unfold String.is_inline. simpl. apply Z.leb_gt. lia. }
  exfalso. rewrite lookup_insert_ne in Hl by done.
  destruct (String.is_inline s) eqn:Hin.
  - apply Hso in Hl as [Hin' _]. congruence.
  - destruct (Members s.2) as [a|[| |[|b0|l] [| |]]] eqn:HM;
      try (apply Hso in Hl as [_ HM']; congruence).
    destruct (decide (b0 = b)) as [->|Hne'].
    + rewrite lookup_delete_eq in Hl. by destruct Hl.
    + rewrite lookup_delete_ne in Hl by done. apply Hso in Hl as [_ HM']. congruence.
Qed.

(** *** [Resize] on the array *)

Lemma resized_buffer_lookup buf size n buf' j :
  0 <= size -> 0 <= n ->
  resized_buffer buf size n = Some buf' ->
  buf' !! j = if decide (j = Z.to_nat n) then Some (unit_ 0)
              else if decide (Z.to_nat size <= j < Z.to_nat n)%nat then Some (unit_ 0)
              else buf !! j.
Proof.
  intros Hs Hn. unfold resized_buffer.
  destruct (cells_write buf size _) as [buf2|] eqn:E2; simpl; [|done].
  intros E3. rewrite (cells_write_lookup _ _ _ _ j E3). simpl.
  apply cells_write_Some in E3 as [[_ H3] _]. simpl in H3.
  pose proof (cells_write_length _ _ _ _ E2) as L2.
  case_decide as Hj.
  - rewrite decide_True by lia. replace (j - Z.to_nat n)%nat with 0%nat by lia. done.
  - rewrite decide_False by lia.
    rewrite (cells_write_lookup _ _ _ _ j E2). rewrite length_replicate.
    case_decide as Hj2.
    + rewrite decide_True by lia. apply lookup_replicate_2. lia.
    + rewrite decide_False by lia. done.
Qed.

(** [Resize] in terms of the array: the slots below the old and the new
    size are kept, the slots the string grows by and the slot at the new
    size hold zero. *)
Lemma Resize_buffer s buf n :
  String.wf s -> String.buffer s = Some buf -> 0 <= n < size_t_modulus - 1 ->
  exists s' buf',
    String.Resize n s = Returns s'
    /\ String.wf s' /\ String.buffer s' = Some buf'
    /\ Size s'.2 = n
    /\ Capacity s'.2 = (if Capacity s.2 <=? n then Grow n else Capacity s.2)
    /\ allocations s'.1 = (if Capacity s.2 <=? n then S (allocations s.1) else allocations s.1)
    /\ (sole_owner s -> sole_owner s')
    /\ buf' !! Z.to_nat n = Some (unit_ 0)
    /\ (forall j, (j < Z.to_nat n)%nat ->
          buf' !! j = if decide (j < Z.to_nat (Size s.2))%nat then buf !! j
                      else Some (unit_ 0)).
Proof.
  intros Hwf Hb Hn.
  pose proof (String.wf_size s Hwf) as Hsz. pose proof (String.wf_capacity s Hwf) as Hcap.
  destruct (String.wf_buffer s Hwf) as (buf0 & Hb0 & Hlen).
  rewrite Hb in Hb0. injection Hb0 as <-.
  pose proof (Grow_above n Hn) as Hga. pose proof (Grow_range n) as Hgr.
  rewrite (Resize_unfold s buf n Hwf Hb). cbv zeta.
  assert (Hre : Resize_reallocates s n = (Capacity s.2 <=? n)).
  { unfold Resize_reallocates. destruct (Z.leb_spec (Capacity s.2) n); [|done].
    simpl. apply Z.ltb_lt. lia. }
  rewrite Hre. destruct (Z.leb_spec (Capacity s.2) n) as [Hc|Hc].
  - set (g := grown_buffer buf (Size s.2) (Grow n)).
    assert (Hgl : length g = Z.to_nat (Grow n)) by (apply grown_buffer_length; lia).
    destruct (resized_buffer_exists g (Size s.2) n) as (buf' & Hr & Hl'); [lia|lia|].
    rewrite Hr. simpl. set (s1 := reallocated s (Grow n) g).
    assert (Hwf1 : String.wf s1) by (apply wf_reallocated; [done|lia|lia]).
    assert (Hb1 : String.buffer s1 = Some g) by (apply buffer_reallocated; lia).
    destruct (with_buffer_fields s1 buf') as (Es & Ec & Ea).
    exists (set_Size n (with_buffer s1 buf')), buf'.
    split; [done|]. split. { apply (wf_with_buffer s1 g buf' n Hwf1 Hb1 Hl'). simpl. lia. }
    split. { rewrite buffer_set_Size. by apply (buffer_with_buffer s1 g). }
    split; [done|]. split; [simpl; by rewrite Ec|]. split; [simpl; by rewrite Ea|].
    split. { intros Hso. apply sole_owner_set_Size. apply (sole_owner_with_buffer s1 g); [done|].
             apply sole_owner_reallocated; [done|lia|done]. }
    split. { rewrite (resized_buffer_lookup g (Size s.2) n buf' _ ltac:(lia) ltac:(lia) Hr).
             by rewrite decide_True. }
    intros j Hj.
    rewrite (resized_buffer_lookup g (Size s.2) n buf' _ ltac:(lia) ltac:(lia) Hr).
    rewrite decide_False by lia. case_decide as Hj2.
    + rewrite decide_False by lia. done.
    + rewrite decide_True by lia. subst g. unfold grown_buffer.
      destruct (Z.ltb_spec 0 (Size s.2)); [|lia].
      rewrite lookup_app_l by (rewrite length_take; lia). by rewrite lookup_take_lt by lia.
  - destruct (resized_buffer_exists buf (Size s.2) n) as (buf' & Hr & Hl'); [lia|lia|].
    rewrite Hr. simpl.
    destruct (with_buffer_fields s buf') as (Es & Ec & Ea).
    exists (set_Size n (with_buffer s buf')), buf'.
    split; [done|]. split. { apply (wf_with_buffer s buf buf' n Hwf Hb Hl'). lia. }
    split. { rewrite buffer_set_Size. by apply (buffer_with_buffer s buf). }
    split; [done|]. split; [simpl; by rewrite Ec|]. split; [simpl; by rewrite Ea|].
    split. { intros Hso. apply sole_owner_set_Size. by apply (sole_owner_with_buffer s buf). }
    split. { rewrite (resized_buffer_lookup buf (Size s.2) n buf' _ ltac:(lia) ltac:(lia) Hr).
             by rewrite decide_True. }
    intros j Hj.
    rewrite (resized_buffer_lookup buf (Size s.2) n buf' _ ltac:(lia) ltac:(lia) Hr).
    rewrite decide_False by lia. case_decide as Hj2.
    + rewrite decide_False by lia. done.
    + rewrite decide_True by lia. done.
Qed.

Lemma prefix_lookup (buf : list cell) k us j :
  take k buf = unit_ <$> us -> (j < k)%nat -> buf !! j = unit_ <$> (us !! j).
Proof.
  intros Ht Hj. rewrite <- (lookup_take_lt buf k j Hj), Ht. apply list_lookup_fmap.
Qed.

Lemma prefix_intro (buf : list cell) k us :
  length us = k -> (k <= length buf)%nat ->
  (forall j, (j < k)%nat -> buf !! j = unit_ <$> (us !! j)) ->
  take k buf = unit_ <$> us.
Proof.
  intros Hl Hk H. apply list_eq. intros j.
  destruct (decide (j < k)%nat) as [Hj|Hj].
  - rewrite lookup_take_lt by done. rewrite H by done. by rewrite list_lookup_fmap.
  - rewrite lookup_take_ge by lia. symmetry. apply lookup_ge_None.
    rewrite length_fmap. lia.
Qed.

(** *** Copies into the string's array *)

Lemma copy_loop_sole_owner n : forall first k s s',
  String.wf s -> sole_owner s ->
  String.copy_loop n first (ptr_add (GetData String.MaxShortStringSize s.2) k) s = Returns s' ->
  sole_owner s'.
Proof.
  induction n as [|n IH]; intros first k s s' Hwf Hso Hrun; simpl in Hrun.
  - by injection Hrun as <-.
  - destruct (String.wf_buffer s Hwf) as (buf & Hb & Hlen).
    destruct (load_range _ s first 1) as [[|c [|? ?]]|]; try done.
    rewrite (store_range_data s buf k [c] Hb) in Hrun.
    destruct (cells_write buf k [c]) as [buf'|] eqn:E; simpl in Hrun; [|done].
    pose proof (cells_write_length _ _ _ _ E) as Hl.
    pose proof (wf_with_buffer_same s buf buf' Hwf Hb Hl) as Hwf'.
    destruct (GetData_buffer s buf Hb) as (pl & Hd).
    rewrite Hd in Hrun. simpl in Hrun.
    specialize (IH (ptr_add first 1) (k + 1) (with_buffer s buf') s' Hwf').
    rewrite (GetData_with_buffer s buf buf' Hb), Hd in IH. simpl in IH.
    apply IH; [|done]. by apply (sole_owner_with_buffer s buf).
Qed.

(** Copying [n] slots from memory outside the string. *)
Lemma copy_loop_outside n : forall l a d s buf,
  String.buffer s = Some buf ->
  0 <= a -> a + Z.of_nat n <= Z.of_nat (length l) ->
  0 <= d -> d + Z.of_nat n <= Z.of_nat (length buf) ->
  exists s' buf',
    String.copy_loop n (At (Extern l) a)
      (ptr_add (GetData String.MaxShortStringSize s.2) d) s = Returns s'
    /\ String.buffer s' = Some buf'
    /\ length buf' = length buf
    /\ forall j, buf' !! j = if decide (Z.to_nat d <= j < Z.to_nat d + n)%nat
                             then l !! (j - Z.to_nat d + Z.to_nat a)%nat else buf !! j.
Proof.
  induction n as [|n IH]; intros l a d s buf Hb Ha Hal Hd Hdl.
  - exists s, buf. simpl. split; [done|]. split; [done|]. split; [done|].
    intros j. case_decide; [lia|done].
  - simpl.
    destruct (lookup_lt_is_Some_2 l (Z.to_nat a)) as [c Hc]; [lia|].
    rewrite (cells_read_one l a c Ha Hc).
    rewrite (store_range_data s buf d [c] Hb).
    destruct (cells_write buf d [c]) as [buf1|] eqn:Ew.
    2:{ apply cells_write_None in Ew. simpl in Ew. lia. }
    simpl. pose proof (cells_write_length _ _ _ _ Ew) as Hl1.
    pose proof (buffer_with_buffer s buf buf1 Hb) as Hb1.
    rewrite !(ptr_add_data s buf) by done.
    rewrite <- (GetData_with_buffer s buf buf1 Hb).
    destruct (IH l (a + 1) (d + 1) (with_buffer s buf1) buf1 Hb1)
      as (s' & buf' & Hrun & Hb' & Hl' & Hlk); try lia.
    exists s', buf'. split; [done|]. split; [done|]. split; [lia|].
    intros j. rewrite Hlk.
    pose proof (cells_write_lookup buf d [c] buf1) as Hw1. simpl in Hw1.
    case_decide as Hj1.
    + rewrite decide_True by lia. f_equal; lia.
    + rewrite (Hw1 _ Ew). case_decide as Hj2.
      * assert (j = Z.to_nat d) as -> by lia.
        rewrite decide_True by lia. rewrite Nat.sub_diag. simpl.
        rewrite <- Hc. f_equal; lia.
      * rewrite decide_False by lia. done.
Qed.

(** Copying [n] slots of the string's own array towards its start. *)
Lemma copy_loop_down n : forall a d s buf,
  String.buffer s = Some buf ->
  0 <= d <= a -> a + Z.of_nat n <= Z.of_nat (length buf) ->
  exists s' buf',
    String.copy_loop n (ptr_add (GetData String.MaxShortStringSize s.2) a)
      (ptr_add (GetData String.MaxShortStringSize s.2) d) s = Returns s'
    /\ String.buffer s' = Some buf'
    /\ length buf' = length buf
    /\ forall j, buf' !! j = if decide (Z.to_nat d <= j < Z.to_nat d + n)%nat
                             then buf !! (j - Z.to_nat d + Z.to_nat a)%nat else buf !! j.
Proof.
  induction n as [|n IH]; intros a d s buf Hb Hda Hal.
  - exists s, buf. simpl. split; [done|]. split; [done|]. split; [done|].
    intros j. case_decide; [lia|done].
  - simpl. rewrite (load_range_data s buf a 1 Hb).
    destruct (lookup_lt_is_Some_2 buf (Z.to_nat a)) as [c Hc]; [lia|].
    rewrite (cells_read_one buf a c ltac:(lia) Hc).
    rewrite (store_range_data s buf d [c] Hb).
    destruct (cells_write buf d [c]) as [buf1|] eqn:Ew.
    2:{ apply cells_write_None in Ew. simpl in Ew. lia. }
    simpl. pose proof (cells_write_length _ _ _ _ Ew) as Hl1.
    pose proof (buffer_with_buffer s buf buf1 Hb) as Hb1.
    rewrite !(ptr_add_data s buf) by done.
    rewrite <- (GetData_with_buffer s buf buf1 Hb).
    destruct (IH (a + 1) (d + 1) (with_buffer s buf1) buf1 Hb1)
      as (s' & buf' & Hrun & Hb' & Hl' & Hlk); try lia.
    exists s', buf'. split; [done|]. split; [done|]. split; [lia|].
    intros j. rewrite Hlk.
    pose proof (cells_write_lookup buf d [c] buf1) as Hw1. simpl in Hw1.
    case_decide as Hj1.
    + rewrite (Hw1 _ Ew). rewrite decide_False by lia.
      rewrite decide_True by lia. f_equal; lia.
    + rewrite (Hw1 _ Ew). case_decide as Hj2.
      * assert (j = Z.to_nat d) as -> by lia.
        rewrite decide_True by lia. rewrite Nat.sub_diag. simpl.
        rewrite <- Hc. f_equal; lia.
      * rewrite decide_False by lia. done.
Qed.

(** *** The operations on the code units *)

Lemma Resize_effect s us n :
  holds s us -> 0 <= n < size_t_modulus - 1 ->
  exists s',
    String.Resize n s = Returns s'
    /\ holds s' (take (Z.to_nat n) us ++ replicate (Z.to_nat n - length us) 0)
    /\ terminator s' = Some [unit_ 0]
    /\ (sole_owner s -> sole_owner s')
    /\ Capacity s'.2 = (if Capacity s.2 <=? n then Grow n else Capacity s.2)
    /\ allocations s'.1 = (if Capacity s.2 <=? n then S (allocations s.1) else allocations s.1).
Proof.
  intros Hh Hn. destruct (holds_buffer s us Hh) as (buf & Hb & Hlen & Hpre & Hus).
  destruct Hh as [Hwf _].
  destruct (Resize_buffer s buf n Hwf Hb Hn)
    as (s' & buf' & Hr & Hwf' & Hb' & Hsz & Hcap & Hal & Hso & Hterm & Hlk).
  pose proof (String.wf_size s' Hwf') as Hsz'.
  destruct (String.wf_buffer s' Hwf') as (buf0 & Hb0 & Hlen').
  rewrite Hb' in Hb0. injection Hb0 as <-.
  exists s'. split; [done|]. split.
  { apply (holds_intro s' buf' _ Hwf' Hb'). rewrite Hsz. apply prefix_intro.
    - rewrite length_app, length_take, length_replicate. lia.
    - lia.
    - intros j Hj. rewrite (Hlk j Hj). case_decide as Hj2.
      + rewrite (prefix_lookup buf _ us j Hpre Hj2).
        rewrite lookup_app_l by (rewrite length_take; lia).
        by rewrite lookup_take_lt by lia.
      + rewrite lookup_app_r by (rewrite length_take; lia).
        rewrite length_take. rewrite lookup_replicate_2 by lia. done. }
  split. { rewrite (terminator_buffer s' buf' Hb'). rewrite Hsz. apply cells_read_one; [lia|done]. }
  done.
Qed.

Lemma Reserve_effect s us c :
  holds s us -> 0 <= c < size_t_modulus ->
  exists s',
    String.Reserve c s = Returns s'
    /\ holds s' us
    /\ (terminator s = Some [unit_ 0] -> 0 < Size s.2 \/ c <= Capacity s.2 ->
        terminator s' = Some [unit_ 0])
    /\ (sole_owner s -> sole_owner s')
    /\ Size s'.2 = Size s.2
    /\ Capacity s'.2 = Z.max (Capacity s.2) c
    /\ allocations s'.1 = (if c <=? Capacity s.2 then allocations s.1 else S (allocations s.1)).
Proof.
  intros Hh Hc. destruct (holds_buffer s us Hh) as (buf & Hb & Hlen & Hpre & Hus).
  destruct Hh as [Hwf Hcont].
  pose proof (String.wf_size s Hwf) as Hsz. pose proof (String.wf_capacity s Hwf) as Hcap.
  destruct (Z.leb_spec c (Capacity s.2)) as [Hle|Hgt].
  - exists s. split.
    { unfold String.Reserve, Reserve. destruct s as [h st]. simpl in *.
      destruct (Z.leb_spec c (Capacity st)); [done|lia]. }
    split; [done|]. split; [done|]. split; [done|]. split; [done|]. split; [lia|done].
  - rewrite (Reserve_grows s buf c Hwf Hb Hgt).
    set (g := grown_buffer buf (Size s.2) c). set (s' := reallocated s c g).
    assert (Hgl : length g = Z.to_nat c) by (apply grown_buffer_length; lia).
    assert (Hwf' : String.wf s') by (apply wf_reallocated; [done|lia|lia]).
    assert (Hb' : String.buffer s' = Some g) by (apply buffer_reallocated; lia).
    exists s'. split; [done|]. split.
    { apply (holds_intro s' g us Hwf' Hb'). simpl. apply prefix_intro; [lia|lia|].
      intros j Hj. subst g. unfold grown_buffer.
      destruct (Z.ltb_spec 0 (Size s.2)); [|lia].
      rewrite lookup_app_l by (rewrite length_take; lia).
      rewrite lookup_take_lt by lia. by apply (prefix_lookup buf _ us j Hpre). }
    split.
    { intros _ [Hpos|Hno]; [|lia].
      rewrite (terminator_buffer s' g Hb'). simpl.
      apply cells_read_one; [lia|]. subst g. unfold grown_buffer.
      destruct (Z.ltb_spec 0 (Size s.2)); [|lia].
      rewrite lookup_app_r by (rewrite length_take; lia).
      rewrite length_take. replace (_ - _)%nat with 0%nat by lia. done. }
    split. { intros Hso. apply sole_owner_reallocated; [done|lia|done]. }
    split; [done|]. split; [simpl; lia|done].
Qed.

Lemma store_own s buf i vs :
  String.wf s -> String.buffer s = Some buf ->
  0 <= i -> i + Z.of_nat (length vs) <= Z.of_nat (length buf) ->
  exists s' buf',
    store_range String.MaxShortStringSize s
      (ptr_add (GetData String.MaxShortStringSize s.2) i) vs = Some s'
    /\ String.wf s' /\ String.buffer s' = Some buf'
    /\ Size s'.2 = Size s.2 /\ Capacity s'.2 = Capacity s.2
    /\ allocations s'.1 = allocations s.1
    /\ (sole_owner s -> sole_owner s')
    /\ forall j, buf' !! j = if decide (Z.to_nat i <= j < Z.to_nat i + length vs)%nat
                             then vs !! (j - Z.to_nat i)%nat else buf !! j.
Proof.
  intros Hwf Hb Hi Hl. rewrite (store_range_data s buf i vs Hb).
  destruct (cells_write buf i vs) as [buf'|] eqn:Ew.
  2:{ apply cells_write_None in Ew. lia. }
  simpl. pose proof (cells_write_length _ _ _ _ Ew) as Hl'.
  destruct (with_buffer_fields s buf') as (Es & Ec & Ea).
  exists (with_buffer s buf'), buf'. split; [done|].
  split; [by apply (wf_with_buffer_same s buf)|].
  split; [by apply (buffer_with_buffer s buf)|].
  split; [done|]. split; [done|]. split; [done|].
  split; [by apply (sole_owner_with_buffer s buf)|].
  intros j. by apply cells_write_lookup.
Qed.

Lemma data_is_ptr_add s buf :
  String.buffer s = Some buf ->
  GetData String.MaxShortStringSize s.2 = ptr_add (GetData String.MaxShortStringSize s.2) 0.
Proof. intros (pl & -> & _)%buffer_data. done. Qed.

Lemma holds_terminator_kept s s' buf buf' :
  String.buffer s = Some buf -> String.buffer s' = Some buf' ->
  Size s'.2 = Size s.2 ->
  buf' !! Z.to_nat (Size s.2) = buf !! Z.to_nat (Size s.2) ->
  0 <= Size s.2 ->
  terminator s = Some [unit_ 0] -> terminator s' = Some [unit_ 0].
Proof.
  intros Hb Hb' Hsz Hlk Hpos. rewrite (terminator_buffer s buf Hb), (terminator_buffer s' buf' Hb').
  rewrite Hsz. intros [[_ Hr] Ht]%cells_read_Some.
  destruct (drop (Z.to_nat (Size s.2)) buf) as [|x rest] eqn:Ed; [done|].
  simpl in Ht. rewrite take_0 in Ht. injection Ht as Hx0. subst x.
  assert (buf !! Z.to_nat (Size s.2) = Some (unit_ 0)) as Hx.
  { rewrite <- (Nat.add_0_r (Z.to_nat _)). rewrite <- lookup_drop, Ed. done. }
  apply cells_read_one; [done|]. by rewrite Hlk.
Qed.

Lemma Assign_char_effect s us c n :
  holds s us -> 0 <= n < size_t_modulus - 1 ->
  exists s',
    String.Assign_char c n s = Returns s'
    /\ holds s' (replicate (Z.to_nat n) c)
    /\ terminator s' = Some [unit_ 0]
    /\ (sole_owner s -> sole_owner s')
    /\ Capacity s'.2 = (if Capacity s.2 <=? n then Grow n else Capacity s.2)
    /\ allocations s'.1 = (if Capacity s.2 <=? n then S (allocations s.1) else allocations s.1).
Proof.
  intros Hh Hn.
  destruct (Resize_effect s us n Hh Hn) as (s1 & Hr & Hh1 & Ht1 & Hso1 & Hc1 & Ha1).
  destruct (holds_buffer s1 _ Hh1) as (buf1 & Hb1 & Hlen1 & Hpre1 & Hus1).
  destruct Hh1 as [Hwf1 _]. pose proof (String.wf_size s1 Hwf1) as Hsz1.
  assert (Hs1 : Size s1.2 = n).
  { rewrite <- Hus1. rewrite length_app, length_take, length_replicate. lia. }
  unfold String.Assign_char. rewrite Hr. simpl.
  rewrite (data_is_ptr_add s1 buf1 Hb1).
  destruct (store_own s1 buf1 0 (replicate (Z.to_nat n) (unit_ c)) Hwf1 Hb1)
    as (s' & buf' & Hst & Hwf' & Hb' & Es & Ec & Ea & Hso' & Hlk).
  { lia. } { rewrite length_replicate. lia. }
  rewrite Hst. simpl. exists s'. split; [done|]. rewrite length_replicate in Hlk.
  split.
  { apply (holds_intro s' buf' _ Hwf' Hb'). rewrite Es, Hs1.
    pose proof (f_equal length Hpre1) as Hl. 
    destruct (String.wf_buffer s' Hwf') as (buf0 & Hb0 & Hlen'). rewrite Hb' in Hb0.
    injection Hb0 as <-.
    apply prefix_intro; [by rewrite length_replicate|lia|].
    intros j Hj. rewrite Hlk. rewrite decide_True by lia.
    rewrite !lookup_replicate_2 by lia. done. }
  split.
  { apply (holds_terminator_kept s1 s' buf1 buf' Hb1 Hb' Es); [|lia|done].
    rewrite Hlk. rewrite decide_False by lia. done. }
  split; [by auto|]. by rewrite Ec, Ea.
Qed.

Lemma Resize_size (us : list Z) n s' :
  holds s' (take (Z.to_nat n) us ++ replicate (Z.to_nat n - length us) 0) ->
  0 <= n -> Size s'.2 = n.
Proof.
  intros Hh Hn. destruct (holds_buffer s' _ Hh) as (_ & _ & _ & _ & Hus).
  rewrite <- Hus. rewrite length_app, length_take, length_replicate. lia.
Qed.

Lemma wf_buffer_length s buf :
  String.wf s -> String.buffer s = Some buf -> Z.of_nat (length buf) = Capacity s.2.
Proof.
  intros Hwf Hb. destruct (String.wf_buffer s Hwf) as (buf0 & Hb0 & Hlen). congruence.
Qed.

Lemma Append_char_effect s us c n :
  holds s us -> 0 <= n -> Z.of_nat (length us) + n < size_t_modulus - 1 ->
  exists s',
    String.Append_char c n s = Returns s'
    /\ holds s' (us ++ replicate (Z.to_nat n) c)
    /\ terminator s' = Some [unit_ 0]
    /\ (sole_owner s -> sole_owner s')
    /\ Capacity s'.2 = (if Capacity s.2 <=? Size s.2 + n then Grow (Size s.2 + n)
                        else Capacity s.2)
    /\ allocations s'.1 = (if Capacity s.2 <=? Size s.2 + n then S (allocations s.1)
                           else allocations s.1).
Proof.
  intros Hh Hn Hsum.
  destruct (holds_buffer s us Hh) as (_ & _ & _ & _ & Hus).
  assert (Hts : to_size_t (Size s.2 + n) = Size s.2 + n).
  { apply to_size_t_small. unfold is_size_t. lia. }
  destruct (Resize_effect s us (Size s.2 + n) Hh ltac:(lia))
    as (s1 & Hr & Hh1 & Ht1 & Hso1 & Hc1 & Ha1).
  pose proof (Resize_size us _ s1 Hh1 ltac:(lia)) as Hs1.
  destruct (holds_buffer s1 _ Hh1) as (buf1 & Hb1 & Hlen1 & Hpre1 & Hus1).
  destruct Hh1 as [Hwf1 _]. pose proof (String.wf_size s1 Hwf1) as Hsz1.
  unfold String.Append_char, String.ResizeMore. rewrite Hts, Hr. simpl.
  destruct (store_own s1 buf1 (Size s.2) (replicate (Z.to_nat n) (unit_ c)) Hwf1 Hb1)
    as (s' & buf' & Hst & Hwf' & Hb' & Es & Ec & Ea & Hso' & Hlk).
  { lia. } { rewrite length_replicate. lia. }
  rewrite Hst. simpl. exists s'. split; [done|]. rewrite length_replicate in Hlk.
  pose proof (wf_buffer_length s' buf' Hwf' Hb') as Hlen'.
  split.
  { apply (holds_intro s' buf' _ Hwf' Hb'). rewrite Es, Hs1.
    apply prefix_intro; [rewrite length_app, length_replicate; lia|lia|].
    intros j Hj. rewrite Hlk. case_decide as Hj2.
    - rewrite lookup_app_r by lia. rewrite !lookup_replicate_2 by lia. done.
    - rewrite (prefix_lookup buf1 _ _ j Hpre1) by lia.
      rewrite take_ge by lia. rewrite !lookup_app_l by lia. done. }
  split.
  { apply (holds_terminator_kept s1 s' buf1 buf' Hb1 Hb' Es); [|lia|done].
    rewrite Hlk. rewrite decide_False by lia. done. }
  split; [by auto|]. by rewrite Ec, Ea.
Qed.

(** The units between two offsets of a sequence held outside the string. *)
Lemma copy_from_outside s1 buf1 mem a n d :
  String.wf s1 -> String.buffer s1 = Some buf1 ->
  0 <= a -> a + Z.of_nat n <= Z.of_nat (length mem) ->
  0 <= d -> d + Z.of_nat n <= Z.of_nat (length buf1) ->
  exists s' buf',
    String.copy_loop n (At (Extern (unit_ <$> mem)) a)
      (ptr_add (GetData String.MaxShortStringSize s1.2) d) s1 = Returns s'
    /\ String.wf s' /\ String.buffer s' = Some buf'
    /\ Size s'.2 = Size s1.2 /\ Capacity s'.2 = Capacity s1.2
    /\ allocations s'.1 = allocations s1.1
    /\ (sole_owner s1 -> sole_owner s')
    /\ forall j, buf' !! j = if decide (Z.to_nat d <= j < Z.to_nat d + n)%nat
                             then unit_ <$> (mem !! (j - Z.to_nat d + Z.to_nat a)%nat)
                             else buf1 !! j.
Proof.
  intros Hwf Hb Ha Hal Hd Hdl.
  destruct (copy_loop_outside n (unit_ <$> mem) a d s1 buf1 Hb Ha)
    as (s' & buf' & Hrun & Hb' & Hl' & Hlk); [rewrite length_fmap; lia|lia|lia|].
  destruct (copy_loop_preserves _ _ _ _ _ Hwf Hrun) as (Hwf' & Es & Ec & Ea).
  exists s', buf'. split; [done|]. split; [done|]. split; [done|].
  split; [done|]. split; [done|]. split; [done|].
  split. { intros Hso. by apply (copy_loop_sole_owner _ _ _ _ _ Hwf Hso Hrun). }
  intros j. rewrite Hlk. case_decide; [|done]. by rewrite list_lookup_fmap.
Qed.

Lemma Assign_effect s us mem a b :
  holds s us -> 0 <= a <= b -> b <= Z.of_nat (length mem) -> b - a < size_t_modulus - 1 ->
  exists s',
    String.Assign (String.mkView (At (Extern (unit_ <$> mem)) a)
                                 (At (Extern (unit_ <$> mem)) b)) s = Returns s'
    /\ holds s' (take (Z.to_nat (b - a)) (drop (Z.to_nat a) mem))
    /\ terminator s' = Some [unit_ 0]
    /\ (sole_owner s -> sole_owner s')
    /\ Capacity s'.2 = (if Capacity s.2 <=? b - a then Grow (b - a) else Capacity s.2)
    /\ allocations s'.1 = (if Capacity s.2 <=? b - a then S (allocations s.1)
                           else allocations s.1).
Proof.
  intros Hh Hab Hb Hn.
  assert (Hts : to_size_t (b - a) = b - a).
  { apply to_size_t_small. unfold is_size_t. lia. }
  destruct (Resize_effect s us (b - a) Hh ltac:(lia))
    as (s1 & Hr & Hh1 & Ht1 & Hso1 & Hc1 & Ha1).
  pose proof (Resize_size us _ s1 Hh1 ltac:(lia)) as Hs1.
  destruct (holds_buffer s1 _ Hh1) as (buf1 & Hb1 & Hlen1 & Hpre1 & Hus1).
  destruct Hh1 as [Hwf1 _]. pose proof (String.wf_size s1 Hwf1) as Hsz1.
  unfold String.Assign, String.view_size. simpl. rewrite Hts, Hr. simpl.
  rewrite (data_is_ptr_add s1 buf1 Hb1).
  destruct (copy_from_outside s1 buf1 mem a (Z.to_nat (b - a)) 0 Hwf1 Hb1)
    as (s' & buf' & Hrun & Hwf' & Hb' & Es & Ec & Ea & Hso' & Hlk); try lia.
  rewrite Hrun. exists s'. split; [done|].
  pose proof (wf_buffer_length s' buf' Hwf' Hb') as Hlen'.
  split.
  { apply (holds_intro s' buf' _ Hwf' Hb'). rewrite Es, Hs1.
    apply prefix_intro; [rewrite length_take, length_drop; lia|lia|].
    intros j Hj. rewrite Hlk. rewrite decide_True by lia.
    rewrite lookup_take_lt by lia. rewrite lookup_drop. do 2 f_equal. lia. }
  split.
  { apply (holds_terminator_kept s1 s' buf1 buf' Hb1 Hb' Es); [|lia|done].
    rewrite Hlk. rewrite decide_False by lia. done. }
  split; [by auto|]. by rewrite Ec, Ea.
Qed.

Lemma Append_effect s us mem a b :
  holds s us -> 0 <= a <= b -> b <= Z.of_nat (length mem) ->
  Z.of_nat (length us) + (b - a) < size_t_modulus - 1 ->
  exists s',
    String.Append (String.mkView (At (Extern (unit_ <$> mem)) a)
                                 (At (Extern (unit_ <$> mem)) b)) s = Returns s'
    /\ holds s' (us ++ take (Z.to_nat (b - a)) (drop (Z.to_nat a) mem))
    /\ terminator s' = Some [unit_ 0]
    /\ (sole_owner s -> sole_owner s')
    /\ Capacity s'.2 = (if Capacity s.2 <=? Size s.2 + (b - a) then Grow (Size s.2 + (b - a))
                        else Capacity s.2)
    /\ allocations s'.1 = (if Capacity s.2 <=? Size s.2 + (b - a) then S (allocations s.1)
                           else allocations s.1).
Proof.
  intros Hh Hab Hb Hn.
  destruct (holds_buffer s us Hh) as (_ & _ & _ & _ & Hus).
  assert (Hts : to_size_t (b - a) = b - a).
  { apply to_size_t_small. unfold is_size_t. lia. }
  assert (Hts2 : to_size_t (Size s.2 + (b - a)) = Size s.2 + (b - a)).
  { apply to_size_t_small. unfold is_size_t. lia. }
  destruct (Resize_effect s us (Size s.2 + (b - a)) Hh ltac:(lia))
    as (s1 & Hr & Hh1 & Ht1 & Hso1 & Hc1 & Ha1).
  pose proof (Resize_size us _ s1 Hh1 ltac:(lia)) as Hs1.
  destruct (holds_buffer s1 _ Hh1) as (buf1 & Hb1 & Hlen1 & Hpre1 & Hus1).
  destruct Hh1 as [Hwf1 _]. pose proof (String.wf_size s1 Hwf1) as Hsz1.
  unfold String.Append, String.view_size, String.ResizeMore. simpl. rewrite Hts, Hts2, Hr. simpl.
  destruct (copy_from_outside s1 buf1 mem a (Z.to_nat (b - a)) (Size s.2) Hwf1 Hb1)
    as (s' & buf' & Hrun & Hwf' & Hb' & Es & Ec & Ea & Hso' & Hlk); try lia.
  rewrite Hrun. exists s'. split; [done|].
  pose proof (wf_buffer_length s' buf' Hwf' Hb') as Hlen'.
  split.
  { apply (holds_intro s' buf' _ Hwf' Hb'). rewrite Es, Hs1.
    apply prefix_intro; [rewrite length_app, length_take, length_drop; lia|lia|].
    intros j Hj. rewrite Hlk. case_decide as Hj2.
    - rewrite lookup_app_r by lia. rewrite lookup_take_lt by lia. rewrite lookup_drop.
      do 2 f_equal. lia.
    - rewrite (prefix_lookup buf1 _ _ j Hpre1) by lia.
      rewrite take_ge by lia. rewrite !lookup_app_l by lia. done. }
  split.
  { apply (holds_terminator_kept s1 s' buf1 buf' Hb1 Hb' Es); [|lia|done].
    rewrite Hlk. rewrite decide_False by lia. done. }
  split; [by auto|]. by rewrite Ec, Ea.
Qed.

Lemma pop_back_effect s us n :
  holds s us -> 0 <= n <= Z.of_nat (length us) ->
  exists s',
    String.pop_back n s = Returns s'
    /\ holds s' (take (length us - Z.to_nat n) us)
    /\ terminator s' = Some [unit_ 0]
    /\ (sole_owner s -> sole_owner s')
    /\ Capacity s'.2 = Capacity s.2
    /\ allocations s'.1 = allocations s.1.
Proof.
  intros Hh Hn.
  destruct (holds_buffer s us Hh) as (_ & _ & _ & _ & Hus).
  pose proof (String.wf_size s (proj1 Hh)) as Hsz.
  pose proof (String.wf_capacity s (proj1 Hh)) as Hcap.
  assert (Hts : to_size_t (Size s.2 - n) = Size s.2 - n).
  { apply to_size_t_small. unfold is_size_t, size_t_modulus in *. lia. }
  destruct (Resize_effect s us (Size s.2 - n) Hh)
    as (s' & Hr & Hh1 & Ht1 & Hso1 & Hc1 & Ha1).
  { unfold size_t_modulus in *. lia. }
  unfold String.pop_back. rewrite Hts, Hr. exists s'. split; [done|].
  destruct (Z.leb_spec (Capacity s.2) (Size s.2 - n)); [lia|].
  split; [|done].
  replace (Z.to_nat (Size s.2 - n)) with (length us - Z.to_nat n)%nat in Hh1 by lia.
  replace (length us - Z.to_nat n - length us)%nat with 0%nat in Hh1 by lia.
  simpl in Hh1. by rewrite app_nil_r in Hh1.
Qed.

Lemma pop_front_effect s us n :
  holds s us -> 0 <= n <= Z.of_nat (length us) ->
  exists s',
    String.pop_front n s = Returns s'
    /\ holds s' (drop (Z.to_nat n) us)
    /\ terminator s' = Some [unit_ 0]
    /\ (sole_owner s -> sole_owner s')
    /\ Capacity s'.2 = Capacity s.2
    /\ allocations s'.1 = allocations s.1.
Proof.
  intros Hh Hn.
  destruct (holds_buffer s us Hh) as (buf & Hb & Hlen & Hpre & Hus).
  destruct Hh as [Hwf _].
  pose proof (String.wf_size s Hwf) as Hsz.
  pose proof (String.wf_capacity s Hwf) as Hcap.
  assert (Hts : to_size_t (Size s.2 - n) = Size s.2 - n).
  { apply to_size_t_small. unfold is_size_t, size_t_modulus in *. lia. }
  unfold String.pop_front. cbv zeta. rewrite Hts.
  destruct (copy_loop_down (Z.to_nat (Size s.2 - n)) n 0 s buf Hb)
    as (s1 & buf1 & Hrun & Hb1 & Hl1 & Hlk); [lia|lia|].
  rewrite <- (data_is_ptr_add s buf Hb) in Hrun.
  rewrite Hrun. simpl.
  rewrite (data_is_ptr_add s buf Hb) in Hrun.
  destruct (copy_loop_preserves _ _ _ _ _ Hwf Hrun) as (Hwf1 & Es & Ec & Ea).
  assert (Hh1 : holds s1 (drop (Z.to_nat n) us ++ drop (length us - Z.to_nat n) us)).
  { apply (holds_intro s1 buf1 _ Hwf1 Hb1). rewrite Es.
    apply prefix_intro; [rewrite length_app, !length_drop; lia|lia|].
    intros j Hj. rewrite Hlk. case_decide as Hj2.
    - rewrite lookup_app_l by (rewrite length_drop; lia). rewrite lookup_drop.
      rewrite (prefix_lookup buf _ us _ Hpre) by lia. do 2 f_equal. lia.
    - rewrite lookup_app_r by (rewrite length_drop; lia). rewrite length_drop, lookup_drop.
      rewrite (prefix_lookup buf _ us _ Hpre) by lia. do 2 f_equal. lia. }
  rewrite Es, Hts.
  destruct (Resize_effect s1 _ (Size s.2 - n) Hh1)
    as (s' & Hr & Hh' & Ht' & Hso' & Hc' & Ha').
  { unfold size_t_modulus in *. lia. }
  rewrite Hr. exists s'. split; [done|].
  rewrite Ec, Ea in *.
  destruct (Z.leb_spec (Capacity s.2) (Size s.2 - n)); [lia|].
  split.
  { rewrite take_app_le in Hh' by (rewrite length_drop; lia).
    rewrite take_ge in Hh' by (rewrite length_drop; lia).
    rewrite length_app, !length_drop in Hh'.
    replace (Z.to_nat (Size s.2 - n) - _)%nat with 0%nat in Hh' by lia.
    simpl in Hh'. by rewrite app_nil_r in Hh'. }
  split; [done|]. split; [|done].
  intros Hso. apply Hso'. by apply (copy_loop_sole_owner _ _ _ _ _ Hwf Hso Hrun).
Qed.

Lemma Clear_effect s us :
  holds s us ->
  exists s',
    String.Clear s = Returns s'
    /\ holds s' []
    /\ terminator s' = Some [unit_ 0]
    /\ (sole_owner s -> sole_owner s')
    /\ Capacity s'.2 = Capacity s.2
    /\ allocations s'.1 = allocations s.1.
Proof.
  intros Hh.
  pose proof (String.wf_capacity s (proj1 Hh)) as Hcap.
  destruct (Resize_effect s us 0 Hh) as (s' & Hr & Hh1 & Ht1 & Hso1 & Hc1 & Ha1).
  { unfold size_t_modulus. lia. }
  exists s'. split; [done|]. simpl in Hh1.
  unfold String.MaxShortStringSize in *.
  destruct (Z.leb_spec (Capacity s.2) 0); [lia|]. done.
Qed.


Lemma outside_units (l : list Z) :
  take (Z.to_nat (Z.of_nat (length l) - 0)) (drop (Z.to_nat 0) l) = l.
Proof.
  rewrite Z.sub_0_r, Nat2Z.id. change (Z.to_nat 0) with 0%nat.
  rewrite drop_0. by rewrite take_ge.
Qed.

(** Every operation acts on the code units as [effect] says, keeps the
    string well formed and the only user of the free store, and never
    lowers the capacity. *)
Lemma apply_effect c s us :
  holds s us -> admissible c us ->
  exists s',
    String.apply c s = Returns s'
    /\ holds s' (effect c us)
    /\ (is_Reserve c = false -> terminator s' = Some [unit_ 0])
    /\ (sole_owner s -> sole_owner s')
    /\ Capacity s.2 <= Capacity s'.2
    /\ (allocations s.1 <= allocations s'.1)%nat.
Proof.
  intros Hh Ha.
  destruct (holds_buffer s us Hh) as (_ & _ & _ & _ & Hus).
  pose proof (String.wf_size s (proj1 Hh)) as Hsz.
  assert (Hgrow : forall n, 0 <= n < size_t_modulus - 1 ->
            Capacity s.2 <= (if Capacity s.2 <=? n then Grow n else Capacity s.2)).
  { intros n Hn. pose proof (Grow_above n Hn). destruct (Z.leb_spec (Capacity s.2) n); lia. }
  assert (Hall : forall b : bool,
            (allocations s.1 <= (if b then S (allocations s.1) else allocations s.1))%nat).
  { intros b. destruct b; lia. }
  destruct c as [c|n|ch n|l|ch n|l| |n|n]; simpl in Ha |- *.
  - destruct (Reserve_effect s us c Hh Ha) as (s' & Hr & Hh' & _ & Hso & _ & Hc & Hal).
    exists s'. split; [done|]. split; [done|]. split; [done|]. split; [done|].
    split; [lia|]. rewrite Hal. destruct (c <=? Capacity s.2); lia.
  - destruct (Resize_effect s us n Hh Ha) as (s' & Hr & Hh' & Ht & Hso & Hc & Hal).
    exists s'. rewrite Hc, Hal. split; [done|]. split; [done|]. split; [done|].
    split; [done|]. split; [apply Hgrow; lia|apply Hall].
  - destruct (Assign_char_effect s us ch n Hh Ha) as (s' & Hr & Hh' & Ht & Hso & Hc & Hal).
    exists s'. rewrite Hc, Hal. split; [done|]. split; [done|]. split; [done|].
    split; [done|]. split; [apply Hgrow; lia|apply Hall].
  - destruct (Assign_effect s us l 0 (Z.of_nat (length l)) Hh)
      as (s' & Hr & Hh' & Ht & Hso & Hc & Hal); [lia|lia|lia|].
    rewrite outside_units in Hh'.
    exists s'. rewrite Hc, Hal. split; [done|]. split; [done|]. split; [done|].
    split; [done|]. split; [apply Hgrow; lia|apply Hall].
  - destruct Ha as [Hn Hsum].
    destruct (Append_char_effect s us ch n Hh Hn Hsum) as (s' & Hr & Hh' & Ht & Hso & Hc & Hal).
    exists s'. rewrite Hc, Hal. split; [done|]. split; [done|]. split; [done|].
    split; [done|]. split; [apply Hgrow; lia|apply Hall].
  - destruct (Append_effect s us l 0 (Z.of_nat (length l)) Hh)
      as (s' & Hr & Hh' & Ht & Hso & Hc & Hal); [lia|lia|lia|].
    rewrite outside_units in Hh'.
    exists s'. rewrite Hc, Hal. split; [done|]. split; [done|]. split; [done|].
    split; [done|]. split; [apply Hgrow; lia|apply Hall].
  - destruct (Clear_effect s us Hh) as (s' & Hr & Hh' & Ht & Hso & Hc & Hal).
    exists s'. rewrite Hc, Hal. split; [done|]. split; [done|]. split; [done|].
    split; [done|]. split; lia.
  - destruct (pop_front_effect s us n Hh Ha) as (s' & Hr & Hh' & Ht & Hso & Hc & Hal).
    exists s'. rewrite Hc, Hal. split; [done|]. split; [done|]. split; [done|].
    split; [done|]. split; lia.
  - destruct (pop_back_effect s us n Hh Ha) as (s' & Hr & Hh' & Ht & Hso & Hc & Hal).
    exists s'. rewrite Hc, Hal. split; [done|]. split; [done|]. split; [done|].
    split; [done|]. split; lia.
Qed.

Lemma apply_all_effect cs : forall s us,
  holds s us -> admissible_all cs us ->
  exists s',
    String.apply_all cs s = Returns s'
    /\ holds s' (effects cs us)
    /\ (sole_owner s -> sole_owner s')
    /\ Capacity s.2 <= Capacity s'.2
    /\ (allocations s.1 <= allocations s'.1)%nat.
Proof.
  induction cs as [|c cs IH]; intros s us Hh Ha; simpl in *.
  - exists s. split; [done|]. split; [done|]. split; [done|]. split; lia.
  - destruct Ha as [Hc Hcs].
    destruct (apply_effect c s us Hh Hc) as (s1 & Hr & Hh1 & _ & Hso1 & Hc1 & Ha1).
    destruct (IH s1 _ Hh1 Hcs) as (s' & Hr' & Hh' & Hso' & Hc' & Ha').
    exists s'. rewrite Hr. simpl. split; [done|]. split; [done|].
    split; [by auto|]. split; lia.
Qed.

Lemma holds_empty : holds String.empty [].
Proof. split; [apply wf_empty|done]. Qed.

Lemma sole_owner_empty : sole_owner String.empty.
Proof. intros b [x Hx]. simpl in Hx. by rewrite lookup_empty in Hx. Qed.

Lemma destroy_sole_owner s :
  String.wf s -> sole_owner s ->
  exists h, String.destroy s = Returns h /\ live h = ∅ /\ allocations h = allocations s.1.
Proof.
  intros Hwf Hso. destruct (String.wf_buffer s Hwf) as (buf & Hb & Hlen).
  unfold String.destroy, StringStorage_destroy.
  destruct (String.is_inline s) eqn:Hin.
  - unfold String.is_inline in Hin. apply Z.leb_le in Hin.
    destruct (Z.ltb_spec String.MaxShortStringSize (Capacity s.2)); [lia|].
    exists s.1. split; [done|]. split; [|done].
    apply map_empty. intros b. destruct (live s.1 !! b) eqn:E; [|done].
    destruct (Hso b) as [Hin' _]; [by eauto|].
    unfold String.is_inline in Hin'. apply Z.leb_gt in Hin'. lia.
  - destruct (wf_data_fresh s buf Hwf Hb Hin) as (old & HM & Hold & Hfresh).
    unfold String.is_inline in Hin. apply Z.leb_gt in Hin.
    destruct (Z.ltb_spec String.MaxShortStringSize (Capacity s.2)); [|lia].
    rewrite HM. simpl. rewrite Hold. simpl.
    eexists. split; [done|]. split; [|done]. simpl.
    apply map_empty. intros b. destruct (decide (old = b)) as [->|Hne].
    + by rewrite lookup_delete_eq.
    + rewrite lookup_delete_ne by done.
      destruct (live s.1 !! b) eqn:E; [|done].
      destruct (Hso b) as [_ HM']; [by eauto|]. congruence.
Qed.

(** X1.  A string that holds the code units [us] holds, after any
    sequence of [Reserve], [Resize], [Assign], [Append], [Clear],
    [pop_front] and [pop_back] whose arguments are admissible, the code
    units that the corresponding list operations give, and is well
    formed; every call returns. *)
Theorem mutations_act_on_the_code_units cs s us :
  String.wf s -> String.content s = Some us -> admissible_all cs us ->
  exists s',
    String.apply_all cs s = Returns s'
    /\ String.wf s'
    /\ String.content s' = Some (effects cs us)
    /\ Size s'.2 = Z.of_nat (length (effects cs us)).
Proof.
  intros Hwf Hc Ha.
  destruct (apply_all_effect cs s us (conj Hwf Hc) Ha) as (s' & Hr & Hh & _).
  destruct (holds_buffer s' _ Hh) as (_ & _ & _ & _ & Hus).
  destruct Hh as [Hwf' Hc']. exists s'. by rewrite Hus.
Qed.

Lemma mutations_act_on_the_code_units_witness :
  exists s',
    String.apply_all
      [String.call_Assign (u8 "0123456789abcdef0123456789abcdef"); String.call_pop_front 30;
       String.call_Append_char 33 2; String.call_Reserve 100; String.call_Resize 3]
      String.empty = Returns s'
    /\ String.wf s'
    /\ String.content s' = Some (u8 "ef!")
    /\ Size s'.2 = 3.
Proof.
  apply (mutations_act_on_the_code_units
           [String.call_Assign (u8 "0123456789abcdef0123456789abcdef"); String.call_pop_front 30;
            String.call_Append_char 33 2; String.call_Reserve 100; String.call_Resize 3]
           String.empty []).
  - apply wf_empty.
  - reflexivity.
  - simpl. unfold size_t_modulus. lia.
Defined.

(** X2.  After [Resize], [Assign], [Append], [Clear], [pop_front] or
    [pop_back] the slot [data()[size()]] holds the terminator 0. *)
Theorem mutation_writes_the_terminator c s us s' :
  String.wf s -> String.content s = Some us -> admissible c us ->
  is_Reserve c = false ->
  String.apply c s = Returns s' ->
  terminator s' = Some [unit_ 0] /\ String.UncheckGet s' (Size s'.2) = Returns 0.
Proof.
  intros Hwf Hc Ha Hr Hrun.
  destruct (apply_effect c s us (conj Hwf Hc) Ha) as (s1 & Hr1 & _ & Ht & _).
  rewrite Hrun in Hr1. injection Hr1 as <-. specialize (Ht Hr).
  split; [done|]. unfold String.UncheckGet. unfold terminator in Ht. by rewrite Ht.
Qed.

Lemma mutation_writes_the_terminator_witness :
  match String.Append_char 97 40 String.empty with
  | Returns s' => terminator s' = Some [unit_ 0] /\ String.UncheckGet s' (Size s'.2) = Returns 0
  | _ => False
  end.
Proof.
  destruct (String.Append_char 97 40 String.empty) as [s'| | |] eqn:Hs;
    try (vm_compute in Hs; discriminate).
  apply (mutation_writes_the_terminator (String.call_Append_char 97 40) String.empty [] s').
  - apply wf_empty.
  - reflexivity.
  - simpl. unfold size_t_modulus. lia.
  - reflexivity.
  - exact Hs.
Defined.

(** X3.  [Reserve] beyond the capacity of an empty string replaces the
    array by one that was never written: [data()[0]] is indeterminate
    afterwards, not the terminator. *)
Theorem Reserve_of_empty_string_leaves_no_terminator s c :
  String.wf s -> Size s.2 = 0 -> Capacity s.2 < c < size_t_modulus ->
  exists s',
    String.Reserve c s = Returns s'
    /\ Size s'.2 = 0 /\ Capacity s'.2 = c
    /\ terminator s' = Some [indeterminate]
    /\ String.UncheckGet s' 0 = Undefined.
Proof.
  intros Hwf Hs Hc. destruct (String.wf_buffer s Hwf) as (buf & Hb & Hlen).
  pose proof (String.wf_capacity s Hwf) as Hcap.
  rewrite (Reserve_grows s buf c Hwf Hb ltac:(lia)).
  eexists. split; [done|]. split; [done|]. split; [done|].
  assert (Hb' : String.buffer (reallocated s c (grown_buffer buf (Size s.2) c))
                = Some (replicate (Z.to_nat c) indeterminate)).
  { rewrite buffer_reallocated by lia. unfold grown_buffer. by rewrite Hs. }
  assert (Hread : cells_read (replicate (Z.to_nat c) indeterminate) 0 1 = Some [indeterminate]).
  { apply cells_read_one; [lia|]. apply lookup_replicate_2. unfold String.MaxShortStringSize in *. lia. }
  split.
  - rewrite (terminator_buffer _ _ Hb'). simpl. by rewrite Hs.
  - unfold String.UncheckGet. rewrite (load_range_data _ _ 0 1 Hb'). by rewrite Hread.
Qed.

Lemma Reserve_of_empty_string_leaves_no_terminator_witness :
  exists s',
    String.Reserve 100 String.empty = Returns s'
    /\ Size s'.2 = 0 /\ Capacity s'.2 = 100
    /\ terminator s' = Some [indeterminate]
    /\ String.UncheckGet s' 0 = Undefined.
Proof.
  apply (Reserve_of_empty_string_leaves_no_terminator String.empty 100).
  - apply wf_empty.
  - reflexivity.
  - split; reflexivity.
Defined.

(** X4.  [Reserve] keeps the size and the code units; the capacity
    becomes the larger of the old one and the requested one, and a new
    array is obtained only when the request exceeds the old capacity. *)
Theorem Reserve_keeps_content_and_raises_capacity s us c :
  String.wf s -> String.content s = Some us -> 0 <= c < size_t_modulus ->
  exists s',
    String.Reserve c s = Returns s'
    /\ String.wf s' /\ String.content s' = Some us
    /\ Size s'.2 = Size s.2
    /\ Capacity s'.2 = Z.max (Capacity s.2) c
    /\ (c <= Capacity s.2 -> s' = s)
    /\ (Capacity s.2 < c -> allocations s'.1 = S (allocations s.1)
                            /\ owns s' (allocations s.1)).
Proof.
  intros Hwf Hc Hr.
  destruct (Reserve_effect s us c (conj Hwf Hc) Hr) as (s' & Hrun & [Hwf' Hc'] & _ & _ & Hs & Hcap & Hal).
  exists s'. split; [done|]. split; [done|]. split; [done|]. split; [done|]. split; [done|].
  pose proof (String.wf_capacity s Hwf) as Hcp.
  destruct (String.wf_buffer s Hwf) as (buf & Hb & Hlen).
  split.
  - intros Hle. unfold String.Reserve, Reserve in Hrun. destruct s as [h st]. simpl in *.
    destruct (Z.leb_spec c (Capacity st)); [|lia]. by injection Hrun as <-.
  - intros Hgt. destruct (Z.leb_spec c (Capacity s.2)); [lia|]. split; [done|].
    rewrite (Reserve_grows s buf c Hwf Hb Hgt) in Hrun. injection Hrun as <-.
    split; [|done]. unfold String.is_inline. simpl. apply Z.leb_gt. lia.
Qed.

Lemma Reserve_keeps_content_and_raises_capacity_witness :
  match String.of_list (u8 "abc") with
  | Returns s =>
    exists s',
      String.Reserve 40 s = Returns s'
      /\ String.wf s' /\ String.content s' = Some (u8 "abc")
      /\ Size s'.2 = Size s.2
      /\ Capacity s'.2 = Z.max (Capacity s.2) 40
      /\ (40 <= Capacity s.2 -> s' = s)
      /\ (Capacity s.2 < 40 -> allocations s'.1 = S (allocations s.1)
                               /\ owns s' (allocations s.1))
  | _ => False
  end.
Proof.
  destruct (String.of_list (u8 "abc")) as [s| | |] eqn:Hs; try (vm_compute in Hs; discriminate).
  apply (Reserve_keeps_content_and_raises_capacity s (u8 "abc") 40).
  - by apply (of_list_wf (u8 "abc")).
  - vm_compute in Hs. injection Hs as <-. reflexivity.
  - unfold size_t_modulus. lia.
Defined.

(** X5.  Whatever admissible operations ran on a string that started
    empty, its destructor returns every array to the free store: no
    array stays live, and none is released twice. *)
Theorem destructor_releases_every_array cs :
  admissible_all cs [] ->
  exists s' h,
    String.apply_all cs String.empty = Returns s'
    /\ String.destroy s' = Returns h
    /\ live h = ∅.
Proof.
  intros Ha.
  destruct (apply_all_effect cs String.empty [] holds_empty Ha) as (s' & Hr & [Hwf _] & Hso & _).
  destruct (destroy_sole_owner s' Hwf (Hso sole_owner_empty)) as (h & Hd & Hl & _).
  by exists s', h.
Qed.

Lemma destructor_releases_every_array_witness :
  exists s' h,
    String.apply_all
      [String.call_Append (u8 "0123456789abcdef0123456789abcdef"); String.call_Reserve 100;
       String.call_Clear] String.empty = Returns s'
    /\ String.destroy s' = Returns h
    /\ live h = ∅.
Proof.
  apply (destructor_releases_every_array
           [String.call_Append (u8 "0123456789abcdef0123456789abcdef"); String.call_Reserve 100;
            String.call_Clear]).
  simpl. unfold size_t_modulus. lia.
Defined.

(** X6.  No admissible operation lowers the capacity or returns a
    heap-backed string to the inline array; [Clear], [pop_front] and
    [pop_back] keep the capacity and obtain no array. *)
Theorem capacity_never_decreases :
  (forall cs s us,
     String.wf s -> String.content s = Some us -> admissible_all cs us ->
     exists s', String.apply_all cs s = Returns s'
       /\ Capacity s.2 <= Capacity s'.2
       /\ (String.is_inline s = false -> String.is_inline s' = false)) /\
  (forall c s us,
     String.wf s -> String.content s = Some us -> admissible c us ->
     c = String.call_Clear \/ (exists n, c = String.call_pop_front n)
       \/ (exists n, c = String.call_pop_back n) ->
     exists s', String.apply c s = Returns s'
       /\ Capacity s'.2 = Capacity s.2 /\ allocations s'.1 = allocations s.1).
Proof.
  split.
  - intros cs s us Hwf Hc Ha.
    destruct (apply_all_effect cs s us (conj Hwf Hc) Ha) as (s' & Hr & _ & _ & Hcap & _).
    exists s'. split; [done|]. split; [done|].
    unfold String.is_inline. rewrite !Z.leb_gt. lia.
  - intros c s us Hwf Hc Ha [->|[[n ->]|[n ->]]]; simpl in *.
    + destruct (Clear_effect s us (conj Hwf Hc)) as (s' & Hr & _ & _ & _ & Hcap & Hal).
      by exists s'.
    + destruct (pop_front_effect s us n (conj Hwf Hc) Ha) as (s' & Hr & _ & _ & _ & Hcap & Hal).
      by exists s'.
    + destruct (pop_back_effect s us n (conj Hwf Hc) Ha) as (s' & Hr & _ & _ & _ & Hcap & Hal).
      by exists s'.
Qed.

(** *** The growth policy *)

Lemma Grow_value n :
  0 <= n -> n + 1 + (n + 1) / 2 + 15 < size_t_modulus ->
  Grow n = 16 * ((n + 1 + (n + 1) / 2 + 15) / 16).
Proof.
  intros Hn Hsum. unfold Grow.
  pose proof (Z.div_pos (n + 1) 2 ltac:(lia) ltac:(lia)) as Hdiv.
  rewrite (to_size_t_small (n + 1)) by (unfold is_size_t; lia).
  rewrite Z.shiftr_div_pow2 by lia. change (2 ^ 1) with 2.
  rewrite (to_size_t_small (n + 1 + (n + 1) / 2 + 15)) by (unfold is_size_t; lia).
  change (to_size_t (-16)) with ((-16) mod 2 ^ 64).
  rewrite land_round_down_16 by (unfold size_t_modulus in Hsum; lia).
  set (y := n + 1 + (n + 1) / 2 + 15).
  pose proof (Z.mod_pos_bound y 16 ltac:(lia)) as Hm.
  pose proof (Z.div_mod y 16 ltac:(lia)) as Hy. subst y. lia.
Qed.

(** X7.  When [Resize(n)] has to leave the current array it asks for
    [Grow(n)] slots: a multiple of 16 that is at least one and a half
    times [n + 1], and less than 16 above that. *)
Theorem Resize_grows_by_half_rounded_to_16 s n :
  String.wf s -> Capacity s.2 <= n -> n + 1 + (n + 1) / 2 + 15 < size_t_modulus ->
  exists s',
    String.Resize n s = Returns s'
    /\ Capacity s'.2 = Grow n
    /\ Grow n mod 16 = 0
    /\ n + 1 + (n + 1) / 2 <= Grow n < n + 1 + (n + 1) / 2 + 16
    /\ allocations s'.1 = S (allocations s.1).
Proof.
  intros Hwf Hc Hsum. destruct (String.wf_buffer s Hwf) as (buf & Hb & Hlen).
  pose proof (String.wf_capacity s Hwf) as Hcap.
  pose proof (Z.div_pos (n + 1) 2 ltac:(unfold String.MaxShortStringSize in *; lia) ltac:(lia)).
  destruct (Resize_buffer s buf n Hwf Hb) as (s' & _ & Hr & _ & _ & _ & Hc' & Ha' & _).
  { unfold String.MaxShortStringSize in *. lia. }
  destruct (Z.leb_spec (Capacity s.2) n); [|lia].
  exists s'. split; [done|]. split; [done|].
  rewrite (Grow_value n) by (unfold String.MaxShortStringSize in *; lia).
  set (y := n + 1 + (n + 1) / 2 + 15).
  pose proof (Z.mod_pos_bound y 16 ltac:(lia)) as Hm.
  pose proof (Z.div_mod y 16 ltac:(lia)) as Hy.
  split. { rewrite Z.mul_comm. apply Z.mod_mul. lia. }
  split; [|done]. subst y. lia.
Qed.

Lemma Resize_grows_by_half_rounded_to_16_witness :
  exists s',
    String.Resize 31 String.empty = Returns s'
    /\ Capacity s'.2 = Grow 31
    /\ Grow 31 mod 16 = 0
    /\ 31 + 1 + (31 + 1) / 2 <= Grow 31 < 31 + 1 + (31 + 1) / 2 + 16
    /\ allocations s'.1 = S (allocations String.empty.1).
Proof.
  apply (Resize_grows_by_half_rounded_to_16 String.empty 31).
  - apply wf_empty.
  - vm_compute. discriminate.
  - reflexivity.
Defined.

(** *** Strings from null-terminated sequences *)

Lemma GetEndOfString_run_finds fuel : forall mem p e,
  0 <= p <= e -> deref mem e = Some 0 ->
  (forall j, p <= j < e -> deref mem j <> Some 0) ->
  (Z.to_nat (e - p) < fuel)%nat ->
  GetEndOfString_run fuel mem p = Returns e.
Proof.
  induction fuel as [|fuel IH]; intros mem p e Hp He Hnz Hf; [lia|].
  simpl. destruct (decide (p = e)) as [->|Hne].
  - rewrite He. done.
  - destruct (deref mem p) as [c|] eqn:Hc.
    + destruct (Z.eqb_spec c 0) as [->|Hc0]; simpl.
      * exfalso. apply (Hnz p); [lia|done].
      * apply IH; [lia|done| |lia]. intros j Hj. apply Hnz. lia.
    + exfalso. apply deref_Some in He as [_ He]. apply lookup_lt_Some in He.
      unfold deref in Hc. destruct (Z.ltb_spec p 0); [lia|].
      apply lookup_ge_None in Hc. lia.
Qed.

Lemma GetEndOfString_run_overruns fuel : forall mem p,
  (forall j, p <= j -> deref mem j <> Some 0) ->
  (length mem - Z.to_nat p < fuel)%nat ->
  GetEndOfString_run fuel mem p = Undefined.
Proof.
  induction fuel as [|fuel IH]; intros mem p Hnz Hf; [lia|].
  simpl. destruct (deref mem p) as [c|] eqn:Hc; [|done].
  destruct (Z.eqb_spec c 0) as [->|Hc0]; simpl.
  - exfalso. apply (Hnz p); [lia|done].
  - apply deref_Some in Hc as [Hp Hc]. apply lookup_lt_Some in Hc.
    apply IH; [|lia]. intros j Hj. apply Hnz. lia.
Qed.

(** X8.  [GetEndOfString] returns the position of the first zero unit at
    or after [begin], and reads past the end of the sequence when there
    is none. *)
Theorem GetEndOfString_finds_the_first_zero mem begin_ :
  (forall e, 0 <= begin_ <= e -> deref mem e = Some 0 ->
     (forall j, begin_ <= j < e -> deref mem j <> Some 0) ->
     GetEndOfString mem begin_ = Returns e
     /\ StringView.of_c_string mem begin_ = Returns (StringView.mk mem begin_ e)) /\
  ((forall j, begin_ <= j -> deref mem j <> Some 0) ->
   GetEndOfString mem begin_ = Undefined
   /\ StringView.of_c_string mem begin_ = Undefined).
Proof.
  split.
  - intros e Hb He Hnz.
    assert (H : GetEndOfString mem begin_ = Returns e).
    { apply GetEndOfString_run_finds; [done..|].
      apply deref_Some in He as [_ He]. apply lookup_lt_Some in He. lia. }
    split; [done|]. unfold StringView.of_c_string. by rewrite H.
  - intros Hnz.
    assert (H : GetEndOfString mem begin_ = Undefined).
    { apply GetEndOfString_run_overruns; [done|lia]. }
    split; [done|]. unfold StringView.of_c_string. by rewrite H.
Qed.

(** X9.  [String(const CharType* str)] holds the units from [str] up to
    the first zero unit, which it leaves out. *)
Theorem String_of_c_string_holds_the_units_before_the_terminator mem str e :
  0 <= str <= e -> deref mem e = Some 0 ->
  (forall j, str <= j < e -> deref mem j <> Some 0) ->
  Z.of_nat (length mem) < size_t_modulus ->
  exists s,
    String.of_c_string mem str = Returns s
    /\ String.wf s
    /\ String.content s = Some (take (Z.to_nat (e - str)) (drop (Z.to_nat str) mem))
    /\ Size s.2 = e - str
    /\ terminator s = Some [unit_ 0]
    /\ Forall (fun c => c <> 0) (take (Z.to_nat (e - str)) (drop (Z.to_nat str) mem)).
Proof.
  intros Hs He Hnz Hlen.
  assert (H : GetEndOfString mem str = Returns e).
  { apply GetEndOfString_run_finds; [done..|].
    apply deref_Some in He as [_ He']. apply lookup_lt_Some in He'. lia. }
  pose proof He as [_ He']%deref_Some. apply lookup_lt_Some in He'.
  unfold String.of_c_string. rewrite H. simpl.
  destruct (Assign_effect String.empty [] mem str e holds_empty)
    as (s & Hr & Hh & Ht & _); [lia|lia|lia|].
  destruct (holds_buffer s _ Hh) as (_ & _ & _ & _ & Hus).
  destruct Hh as [Hwf Hc].
  exists s. split; [done|]. split; [done|]. split; [done|].
  split. { rewrite <- Hus. rewrite length_take, length_drop. lia. }
  split; [done|].
  apply Forall_forall. intros c Hin Hc0. apply list_elem_of_lookup in Hin as [i Hi].
  pose proof (lookup_lt_Some _ _ _ Hi) as Hil. rewrite length_take, length_drop in Hil.
  rewrite lookup_take_lt in Hi by lia. rewrite lookup_drop in Hi.
  apply (Hnz (str + Z.of_nat i)); [lia|].
  unfold deref. destruct (Z.ltb_spec (str + Z.of_nat i) 0); [lia|].
  replace (Z.to_nat (str + Z.of_nat i)) with (Z.to_nat str + i)%nat by lia.
  by rewrite Hi, Hc0.
Qed.

Lemma String_of_c_string_holds_the_units_before_the_terminator_witness :
  exists s,
    String.of_c_string (u8 "key" ++ [0] ++ u8 "value" ++ [0]) 4 = Returns s
    /\ String.wf s
    /\ String.content s = Some (u8 "value")
    /\ Size s.2 = 5
    /\ terminator s = Some [unit_ 0]
    /\ Forall (fun c => c <> 0) (u8 "value").
Proof.
  apply (String_of_c_string_holds_the_units_before_the_terminator
           (u8 "key" ++ [0] ++ u8 "value" ++ [0]) 4 9).
  - lia.
  - reflexivity.
  - intros j Hj.
    assert (j = 4 \/ j = 5 \/ j = 6 \/ j = 7 \/ j = 8) as [->|[->|[->|[->| ->]]]] by lia;
      vm_compute; discriminate.
  - vm_compute. reflexivity.
Defined.

(** *** [Assign] from a storage, and the destructor after a move *)

Lemma wf_new_storage h :
  (forall b, is_Some (live h !! b) -> (b < allocations h)%nat) ->
  String.wf (h, StringStorage_new String.MaxShortStringSize).
Proof.
  intros Hf. split; simpl; [done|done| |done].
  exists (replicate 31 indeterminate). done.
Qed.

(** X10.  The member function [Assign(other)], called on a storage
    with a donor of the same inline size, gives the destination the code
    units of the donor in an array of its own: both storages are well
    formed afterwards, the donor keeps its content, and no array of the
    free store belongs to both. *)
Theorem Assign_from_a_storage_is_a_deep_copy (m : String.t) other us :
  String.wf m -> String.wf (m.1, other) ->
  (forall b, owns m b -> ~ owns (m.1, other) b) ->
  String.content (m.1, other) = Some us ->
  exists m',
    Assign_copy String.MaxShortStringSize String.MaxShortStringSize m other = Returns m'
    /\ String.wf m' /\ String.content m' = Some us
    /\ String.wf (m'.1, other)
    /\ String.content (m'.1, other) = Some us
    /\ (forall b, owns m' b -> ~ owns (m'.1, other) b).
Proof.
  destruct m as [h d]. intros Hwf Hwfo Hsep Hus. simpl in *.
  unfold Assign_copy, Assign_ptr.
  destruct (String.wf_buffer _ Hwfo) as (bo & Hbo & Hlo).
  pose proof (String.wf_size _ Hwfo) as Hso. pose proof (String.wf_capacity _ Hwfo) as Hco.
  simpl in *.
  destruct (Resize_total (h, d) (Size other) Hwf) as (m1 & Hr & Hwf1 & Hsz1 & Hal & Hframe);
    [lia|].
  change (Resize String.MaxShortStringSize (Size other) (h, d))
    with (String.Resize (Size other) (h, d)).
  rewrite Hr. simpl.
  assert (Hother : forall b, owns (h, other) b -> (b < allocations h)%nat /\ ~ owns (h, d) b).
  { intros b Hown. split.
    - apply (String.wf_fresh _ Hwfo). destruct Hown as [Hin HM].
      destruct (wf_data_fresh _ _ Hwfo Hbo Hin) as (old & HM' & Hlive & _).
      simpl in *. rewrite HM in HM'. injection HM' as <-. rewrite Hlive. eauto.
    - intros Hd. by apply (Hsep b). }
  rewrite (load_from_donor m1 h other bo (Size other) Hwfo Hbo); [|
    intros b Hown; destruct (Hother b Hown) as [? ?]; by apply Hframe | lia].
  simpl. destruct (String.wf_buffer _ Hwf1) as (b1 & Hb1 & Hl1).
  pose proof (String.wf_size _ Hwf1) as Hs1.
  rewrite (store_range_at_data m1 b1 _ Hb1).
  destruct (cells_write b1 0 (take (Z.to_nat (Size other)) bo)) as [bf|] eqn:Ew.
  2:{ apply cells_write_None in Ew. rewrite length_take in Ew. lia. }
  simpl. exists (with_buffer m1 bf).
  pose proof (cells_write_length _ _ _ _ Ew) as Hlf.
  pose proof (buffer_with_buffer m1 b1 bf Hb1) as Hbf.
  destruct (with_buffer_fields m1 bf) as (Es & Ec & Ea).
  assert (Hwf' : String.wf (with_buffer m1 bf)) by (by apply (wf_with_buffer_same m1 b1)).
  assert (Hus' : String.determinate (take (Z.to_nat (Size other)) bo) = Some us).
  { rewrite <- Hus. symmetry. apply (content_buffer (h, other) bo Hbo). simpl. lia. }
  assert (Hkeep : forall b, owns (h, other) b ->
            live (with_buffer m1 bf).1 !! b = live h !! b /\ ~ owns (with_buffer m1 bf) b).
  { intros b Hown. destruct (Hother b Hown) as [Hlt Hnd].
    destruct (Hframe b Hlt Hnd) as [Hl Hn1]. split.
    - rewrite with_buffer_frame by done. done.
    - intros Hown'. apply Hn1. by apply (owns_with_buffer m1 b1 bf). }
  assert (Hbo' : String.buffer ((with_buffer m1 bf).1, other) = Some bo).
  { unfold String.buffer in *. unfold String.is_inline in *. simpl in *.
    destruct (Capacity other <=? String.MaxShortStringSize) eqn:Hin; [done|].
    destruct (Members other) as [a|[| |[|b|l] [| |]]] eqn:HM; try done.
    destruct (Hkeep b) as [Hl _]; [|by rewrite Hl].
    split; [exact Hin|exact HM]. }
  split; [done|]. split; [done|]. split; [|split; [|split]].
  - rewrite (content_buffer _ bf Hbf) by (rewrite Es; lia).
    rewrite Es, Hsz1. rewrite <- Hus'. f_equal.
    apply cells_write_Some in Ew as [_ ->]. simpl.
    rewrite take_app_length' by (rewrite length_take; lia). done.
  - split; simpl.
    + done.
    + done.
    + exists bo. split; [done|]. simpl. lia.
    + intros b Hb. apply (String.wf_fresh _ Hwf'). done.
  - rewrite (content_buffer _ bo Hbo') by (simpl; lia). exact Hus'.
  - intros b Hown Hown'.
    assert (Hown0 : owns (h, other) b).
    { destruct Hown' as [H1 H2]. split; [exact H1|exact H2]. }
    destruct (Hkeep b Hown0) as [_ Hn]. done.
Qed.

Lemma Assign_from_a_storage_is_a_deep_copy_witness :
  match String.of_list (u8 "0123456789abcdef0123456789abcdef01234567") with
  | Returns long =>
    exists m',
      Assign_copy String.MaxShortStringSize String.MaxShortStringSize
        (long.1, StringStorage_new String.MaxShortStringSize) long.2 = Returns m'
      /\ String.wf m'
      /\ String.content m' = Some (u8 "0123456789abcdef0123456789abcdef01234567")
      /\ String.wf (m'.1, long.2)
      /\ String.content (m'.1, long.2) = Some (u8 "0123456789abcdef0123456789abcdef01234567")
      /\ (forall b, owns m' b -> ~ owns (m'.1, long.2) b)
  | _ => False
  end.
Proof.
  destruct (String.of_list (u8 "0123456789abcdef0123456789abcdef01234567"))
    as [long| | |] eqn:Hl; try (vm_compute in Hl; discriminate).
  pose proof (of_list_wf _ _ Hl) as Hwf.
  apply (Assign_from_a_storage_is_a_deep_copy (long.1, StringStorage_new String.MaxShortStringSize) long.2
           (u8 "0123456789abcdef0123456789abcdef01234567")).
  - apply wf_new_storage. apply (String.wf_fresh long Hwf).
  - by destruct long.
  - intros b [Hin _]. vm_compute in Hin. discriminate.
  - vm_compute in Hl. injection Hl as <-. reflexivity.
Defined.

(** X11.  After a move assignment that transfers the donor's array, the
    donor holds what the destination's [Pointer] member held.  When the
    destination was heap-backed, destroying both strings releases both
    arrays, each once.  When the destination held its inline array, the
    donor's destructor passes to [delete[]] a pointer read from the
    union while it held array contents. *)
Theorem destructors_after_a_transferring_move h dst other :
  String.MaxShortStringSize < Capacity other ->
  String.MaxShortStringSize < Size other ->
  exists dst' other',
    Assign_move String.MaxShortStringSize String.MaxShortStringSize (h, dst) other
    = Returns ((h, dst'), other')
    /\ Members dst' = as_Pointer (read_Pointer (Members other))
    /\ (forall b1 b2 x1 x2,
          owns (h, dst) b1 -> owns (h, other) b2 -> b1 <> b2 ->
          live h !! b1 = Some x1 -> live h !! b2 = Some x2 ->
          exists h1 h2,
            StringStorage_destroy String.MaxShortStringSize h dst' = Returns h1
            /\ StringStorage_destroy String.MaxShortStringSize h1 other' = Returns h2
            /\ live h2 = delete b1 (delete b2 (live h)))
    /\ (forall a h', Members dst = as_Array a ->
          StringStorage_destroy String.MaxShortStringSize h' other' = Undefined).
Proof.
  intros Hc Hs. unfold Assign_move.
  destruct (Z.ltb_spec String.MaxShortStringSize (Capacity other)); [|lia].
  destruct (Z.ltb_spec String.MaxShortStringSize (Size other)); [|lia].
  simpl. eexists _, _. split; [reflexivity|]. split; [done|]. split.
  - intros b1 b2 x1 x2 [_ HM1] [_ HM2] Hne Hl1 Hl2. simpl in *.
    rewrite HM1, HM2. unfold StringStorage_destroy. simpl.
    destruct (Z.ltb_spec String.MaxShortStringSize (Capacity other)); [|lia].
    rewrite Hl2. simpl.
    eexists _, _. split; [reflexivity|]. simpl.
    rewrite lookup_delete_ne by done. rewrite Hl1. simpl. split; [reflexivity|]. done.
  - intros a h' HM. unfold StringStorage_destroy. simpl.
    destruct (Z.ltb_spec String.MaxShortStringSize (Capacity other)); [|lia].
    by rewrite HM.
Qed.

Lemma destructors_after_a_transferring_move_witness :
  match String.of_list (u8 "ab"),
        String.of_list (u8 "0123456789abcdef0123456789abcdef01234567") with
  | Returns short, Returns long =>
    exists dst' other',
      Assign_move String.MaxShortStringSize String.MaxShortStringSize (long.1, short.2) long.2
      = Returns ((long.1, dst'), other')
      /\ Members dst' = as_Pointer (read_Pointer (Members long.2))
      /\ (forall b1 b2 x1 x2,
            owns (long.1, short.2) b1 -> owns (long.1, long.2) b2 -> b1 <> b2 ->
            live long.1 !! b1 = Some x1 -> live long.1 !! b2 = Some x2 ->
            exists h1 h2,
              StringStorage_destroy String.MaxShortStringSize long.1 dst' = Returns h1
              /\ StringStorage_destroy String.MaxShortStringSize h1 other' = Returns h2
              /\ live h2 = delete b1 (delete b2 (live long.1)))
      /\ (forall a h', Members short.2 = as_Array a ->
            StringStorage_destroy String.MaxShortStringSize h' other' = Undefined)
  | _, _ => False
  end.
Proof.
  destruct (String.of_list (u8 "ab")) as [short| | |] eqn:Hs;
    try (vm_compute in Hs; discriminate).
  destruct (String.of_list (u8 "0123456789abcdef0123456789abcdef01234567"))
    as [long| | |] eqn:Hl; try (vm_compute in Hl; discriminate).
  apply (destructors_after_a_transferring_move long.1 short.2 long.2).
  - vm_compute in Hl. injection Hl as <-. reflexivity.
  - vm_compute in Hl. injection Hl as <-. reflexivity.
Defined.

(** ** Resolving offsets *)

(** X12.  For a size below 2^63, the [assert] of [ApplyOffset] holds
    exactly for the offsets from [-size - 1] to [size]; a negative
    offset then counts back from one past the end. *)
Theorem ApplyOffset_accepts_offsets_within_the_view offset size :
  is_ptrdiff_t offset -> 0 <= size < ptrdiff_t_half ->
  (StringView.ApplyOffset_assert offset size = true <-> - size - 1 <= offset <= size)
  /\ (- size - 1 <= offset <= size ->
      StringView.ApplyOffset offset size = if offset <? 0 then size + 1 + offset else offset).
Proof.
  intros Ho Hs.
  assert (Hsz : is_size_t size) by (unfold is_size_t, ptrdiff_t_half, size_t_modulus in *; lia).
  assert (Hiff : StringView.ApplyOffset_assert offset size = true <-> - size - 1 <= offset <= size).
  { split.
    - intros Ha. destruct (ApplyOffset_resolved offset size Ho Hsz Ha) as [E Hr].
      rewrite E in Hr. destruct (Z.ltb_spec offset 0); lia.
    - intros Hr. unfold StringView.ApplyOffset_assert, StringView.ApplyOffset.
      unfold is_ptrdiff_t, ptrdiff_t_half, size_t_modulus in *.
      apply Z.leb_le. destruct (Z.ltb_spec offset 0).
      + unfold to_size_t, size_t_modulus. rewrite Zplus_mod_idemp_l.
        rewrite Z.mod_small by lia. lia.
      + rewrite to_size_t_small by (unfold is_size_t, size_t_modulus; lia). lia. }
  split; [done|]. intros Hr. apply Hiff in Hr.
  by destruct (ApplyOffset_resolved offset size Ho Hsz Hr).
Qed.

Lemma ApplyOffset_accepts_offsets_within_the_view_witness :
  (StringView.ApplyOffset_assert (-7) 6 = true <-> - 6 - 1 <= -7 <= 6)
  /\ (- 6 - 1 <= -7 <= 6 ->
      StringView.ApplyOffset (-7) 6 = if -7 <? 0 then 6 + 1 + -7 else -7).
Proof.
  apply (ApplyOffset_accepts_offsets_within_the_view (-7) 6).
  - unfold is_ptrdiff_t, ptrdiff_t_half. lia.
  - unfold ptrdiff_t_half. lia.
Defined.

(** ** Equality and order of views *)

Lemma compare_units_antisym stringType a : forall b,
  compare_units stringType a b = - compare_units stringType b a.
Proof.
  induction a as [|x a IH]; intros [|y b]; simpl; try done.
  rewrite (Z.eqb_sym (UChar stringType y)).
  destruct (Z.eqb_spec (UChar stringType x) (UChar stringType y)) as [E|E]; [apply IH|].
  destruct (Z.ltb_spec (UChar stringType y) (UChar stringType x));
    destruct (Z.ltb_spec (UChar stringType x) (UChar stringType y)); lia.
Qed.

Lemma compare_units_zero stringType a : forall b,
  length a = length b ->
  compare_units stringType a b = 0 <-> UChar stringType <$> a = UChar stringType <$> b.
Proof.
  induction a as [|x a IH]; intros [|y b] Hl; try done.
  cbn [compare_units]. rewrite !fmap_cons. simpl in Hl.
  destruct (Z.eqb_spec (UChar stringType x) (UChar stringType y)) as [E|E].
  - rewrite IH by lia. rewrite E. split; [by intros ->|]. by intros [= ?].
  - split.
    + destruct (_ <? _); done.
    + intros [= ? ?]. done.
Qed.

(** X13.  On views of equal or different sizes alike, [operator==] holds
    exactly when the two views have the same units read as unsigned, and
    [operator!=] is its negation. *)
Theorem op_eq_is_equality_of_the_units stringType a b ua ub :
  StringView.wf a -> StringView.wf b ->
  StringView.units a = Some ua -> StringView.units b = Some ub ->
  StringView.op_eq stringType a b
  = Returns (bool_decide (UChar stringType <$> ua = UChar stringType <$> ub))
  /\ StringView.op_ne stringType a b
     = Returns (negb (bool_decide (UChar stringType <$> ua = UChar stringType <$> ub))).
Proof.
  intros Ha Hb Hua Hub.
  destruct (units_length a ua Ha Hua) as [Hla _].
  destruct (units_length b ub Hb Hub) as [Hlb _].
  unfold StringView.op_eq, StringView.op_ne.
  rewrite (Compare_units stringType a b ua ub Ha Hb Hua Hub). simpl.
  rewrite <- Hla, <- Hlb.
  destruct (Z.eqb_spec (Z.of_nat (length ua)) (Z.of_nat (length ub))) as [E|E]; simpl.
  - pose proof (compare_units_zero stringType ua ub ltac:(lia)) as Hz.
    destruct (Z.eqb_spec (compare_units stringType ua ub) 0) as [E0|E0].
    + rewrite bool_decide_eq_true_2 by (by apply Hz). done.
    + rewrite bool_decide_eq_false_2 by (intros H; by apply E0, Hz). done.
  - rewrite bool_decide_eq_false_2; [done|].
    intros H. apply (f_equal length) in H. rewrite !length_fmap in H. lia.
Qed.

Lemma op_eq_is_equality_of_the_units_witness :
  StringView.op_eq Utf8 (StringView.of_list (u8 "abc")) (StringView.mk (u8 "xabcx") 1 4)
  = Returns (bool_decide (UChar Utf8 <$> u8 "abc" = UChar Utf8 <$> u8 "abc"))
  /\ StringView.op_ne Utf8 (StringView.of_list (u8 "abc")) (StringView.mk (u8 "xabcx") 1 4)
     = Returns (negb (bool_decide (UChar Utf8 <$> u8 "abc" = UChar Utf8 <$> u8 "abc"))).
Proof.
  apply (op_eq_is_equality_of_the_units Utf8 (StringView.of_list (u8 "abc"))
           (StringView.mk (u8 "xabcx") 1 4) (u8 "abc") (u8 "abc")).
  - unfold StringView.wf, ptrdiff_t_half. simpl. lia.
  - unfold StringView.wf, ptrdiff_t_half. simpl. lia.
  - reflexivity.
  - reflexivity.
Defined.

(** X14.  Swapping the operands of [Compare] negates the result, so
    [a < b] is [b > a] and [a <= b] is [b >= a]. *)
Theorem Compare_is_antisymmetric stringType a b ua ub :
  StringView.wf a -> StringView.wf b ->
  StringView.units a = Some ua -> StringView.units b = Some ub ->
  exists c,
    StringView.Compare stringType a b = Returns c
    /\ StringView.Compare stringType b a = Returns (- c)
    /\ -1 <= c <= 1
    /\ StringView.op_lt stringType a b = StringView.op_gt stringType b a
    /\ StringView.op_le stringType a b = StringView.op_ge stringType b a.
Proof.
  intros Ha Hb Hua Hub. exists (compare_units stringType ua ub).
  unfold StringView.op_lt, StringView.op_gt, StringView.op_le, StringView.op_ge.
  rewrite (Compare_units stringType a b ua ub Ha Hb Hua Hub).
  rewrite (Compare_units stringType b a ub ua Hb Ha Hub Hua).
  rewrite (compare_units_antisym stringType ub ua). simpl.
  split; [done|]. split; [done|]. split.
  { clear. revert ub. induction ua as [|x ua IH]; intros [|y ub]; simpl; try lia.
    destruct (_ =? _); [apply IH|]. destruct (_ <? _); lia. }
  split; f_equal.
  - destruct (Z.ltb_spec (compare_units stringType ua ub) 0);
      destruct (Z.ltb_spec 0 (- compare_units stringType ua ub)); lia.
  - destruct (Z.leb_spec (compare_units stringType ua ub) 0);
      destruct (Z.leb_spec 0 (- compare_units stringType ua ub)); lia.
Qed.

Lemma Compare_is_antisymmetric_witness :
  exists c,
    StringView.Compare Utf8 (StringView.of_list (u8 "abd")) (StringView.of_list (u8 "abc"))
    = Returns c
    /\ StringView.Compare Utf8 (StringView.of_list (u8 "abc")) (StringView.of_list (u8 "abd"))
       = Returns (- c)
    /\ -1 <= c <= 1
    /\ StringView.op_lt Utf8 (StringView.of_list (u8 "abd")) (StringView.of_list (u8 "abc"))
       = StringView.op_gt Utf8 (StringView.of_list (u8 "abc")) (StringView.of_list (u8 "abd"))
    /\ StringView.op_le Utf8 (StringView.of_list (u8 "abd")) (StringView.of_list (u8 "abc"))
       = StringView.op_ge Utf8 (StringView.of_list (u8 "abc")) (StringView.of_list (u8 "abd")).
Proof.
  apply (Compare_is_antisymmetric Utf8 (StringView.of_list (u8 "abd"))
           (StringView.of_list (u8 "abc")) (u8 "abd") (u8 "abc")).
  - unfold StringView.wf, ptrdiff_t_half. simpl. lia.
  - unfold StringView.wf, ptrdiff_t_half. simpl. lia.
  - reflexivity.
  - reflexivity.
Defined.

(** X15.  [DoesOverlapWith] is symmetric; for two non-empty views of one
    sequence it holds exactly when they share a position; an empty view
    overlaps every view it lies strictly inside of. *)
Theorem DoesOverlapWith_iff_shared_position v other :
  StringView.DoesOverlapWith v other = StringView.DoesOverlapWith other v
  /\ (StringView.m_StrBegin v < StringView.m_StrEnd v ->
      StringView.m_StrBegin other < StringView.m_StrEnd other ->
      (StringView.DoesOverlapWith v other = true <->
       exists p, StringView.m_StrBegin v <= p < StringView.m_StrEnd v
                 /\ StringView.m_StrBegin other <= p < StringView.m_StrEnd other))
  /\ (StringView.IsEmpty v = true ->
      (StringView.DoesOverlapWith v other = true <->
       StringView.m_StrBegin other < StringView.m_StrBegin v < StringView.m_StrEnd other)).
Proof.
  unfold StringView.DoesOverlapWith, StringView.IsEmpty.
  split; [apply andb_comm|]. split.
  - intros Hv Ho. rewrite andb_true_iff, !Z.ltb_lt. split.
    + intros [H1 H2].
      exists (Z.max (StringView.m_StrBegin v) (StringView.m_StrBegin other)). lia.
    + intros (p & Hp1 & Hp2). lia.
  - intros He%Z.eqb_eq. rewrite andb_true_iff, !Z.ltb_lt. lia.
Qed.

(** ** Character-run search *)

(** X16.  [FindCharRepeat] with a count of at least one answers [npos]
    exactly when no run of [repeatCount] copies of the character lies in
    the view at or after the resolved offset; otherwise, with [i] the
    offset of the first such run, it returns [size - i + realBegin]. *)
Theorem FindCharRepeat_locates_the_first_run v c repeatCount nBegin :
  StringView.wf v -> is_ptrdiff_t nBegin ->
  StringView.ApplyOffset_assert nBegin (StringView.GetSize v) = true ->
  1 <= repeatCount < size_t_modulus ->
  let size := StringView.GetSize v in
  let realBegin := StringView.ApplyOffset nBegin size in
  (StringView.FindCharRepeat v c repeatCount nBegin = Returns StringView.npos <->
   forall q, realBegin <= q -> q + repeatCount <= size -> ~ run_at_offset v c repeatCount q)
  /\ (forall i, realBegin <= i -> i + repeatCount <= size ->
        run_at_offset v c repeatCount i ->
        (forall q, realBegin <= q < i -> ~ run_at_offset v c repeatCount q) ->
        StringView.FindCharRepeat v c repeatCount nBegin = Returns (size - i + realBegin)).
Proof.
  intros Hwf Hn Ha Hk size realBegin.
  assert (Hsz : is_size_t size) by apply to_size_t_range.
  destruct (ApplyOffset_resolved nBegin size Hn Hsz Ha) as [_ Hrb]. fold realBegin in Hrb.
  pose proof (GetSize_wf v Hwf) as Esz. fold size in Esz.
  pose proof Hwf as (Hw1 & Hw2 & Hw3). unfold ptrdiff_t_half in *.
  pose proof (FindCharRepeat_answers v c repeatCount nBegin Hwf Hn Ha ltac:(lia)) as Hans.
  cbv zeta in Hans. fold size in Hans. fold realBegin in Hans.
  destruct (Z.le_gt_cases (realBegin + repeatCount) size) as [Hfit|Hno].
  - destruct (Hans Hfit) as [(i & Hi1 & Hi2 & Hrun & Hfirst & ->)|[Hnone ->]].
    + split.
      * split.
        -- intros [= E]. unfold StringView.npos, npos in E. vm_compute to_size_t in E. lia.
        -- intros Hnone. exfalso. by apply (Hnone i).
      * intros i' Hi1' Hi2' Hrun' Hfirst'.
        assert (i' = i) as ->; [|done].
        destruct (Z.lt_trichotomy i i') as [Hlt|[->|Hgt]]; [|done|].
        -- exfalso. apply (Hfirst' i); [lia|done].
        -- exfalso. apply (Hfirst i'); [lia|done].
    + split; [done|]. intros i Hi1 Hi2 Hrun _. exfalso. by apply (Hnone i).
  - assert (E : StringView.FindCharRepeat v c repeatCount nBegin = Returns StringView.npos).
    { unfold StringView.FindCharRepeat. fold size. fold realBegin.
      destruct (Z.eqb_spec repeatCount 0); [lia|].
      destruct (Z.ltb_spec size repeatCount); [done|].
      rewrite (to_size_t_small (realBegin + repeatCount))
        by (unfold is_size_t, size_t_modulus; lia).
      destruct (Z.ltb_spec size (realBegin + repeatCount)); [done|lia]. }
    rewrite E. split.
    + split; [|done]. intros _ q Hq1 Hq2. lia.
    + intros i Hi1 Hi2. lia.
Qed.

Lemma FindCharRepeat_locates_the_first_run_witness :
  let v := StringView.of_list (u8 "xaayyaaa") in
  (StringView.FindCharRepeat v 97 2 0 = Returns StringView.npos <->
   forall q, 0 <= q -> q + 2 <= 8 -> ~ run_at_offset v 97 2 q)
  /\ (forall i, 0 <= i -> i + 2 <= 8 ->
        run_at_offset v 97 2 i ->
        (forall q, 0 <= q < i -> ~ run_at_offset v 97 2 q) ->
        StringView.FindCharRepeat v 97 2 0 = Returns (8 - i + 0)).
Proof.
  apply (FindCharRepeat_locates_the_first_run (StringView.of_list (u8 "xaayyaaa")) 97 2 0).
  - unfold StringView.wf, ptrdiff_t_half. simpl. lia.
  - unfold is_ptrdiff_t, ptrdiff_t_half. lia.
  - reflexivity.
  - unfold size_t_modulus. lia.
Defined.

(** X17.  The backward character searches build their reverse range
    from [m_StrBegin]: the range handed to [SearchCharRepeat] has a
    negative length, and [FindCharRepeatBackward] (with a count of at
    least one) and [FindBackward(CharType)] answer [npos] on every view,
    without reading a unit. *)
Theorem FindCharRepeatBackward_always_answers_npos v c repeatCount nEnd :
  StringView.wf v -> is_ptrdiff_t nEnd ->
  StringView.ApplyOffset_assert nEnd (StringView.GetSize v) = true ->
  1 <= repeatCount < size_t_modulus ->
  StringView.crend v - (StringView.crbegin v + StringView.ApplyOffset nEnd (StringView.GetSize v))
    <= 0
  /\ StringView.FindCharRepeatBackward v c repeatCount nEnd = Returns StringView.npos
  /\ StringView.FindCharBackward v c nEnd = Returns StringView.npos.
Proof.
  intros Hwf Hn Ha Hk.
  assert (Hsz : is_size_t (StringView.GetSize v)) by apply to_size_t_range.
  destruct (ApplyOffset_resolved nEnd _ Hn Hsz Ha) as [_ Hre].
  pose proof (GetSize_wf v Hwf) as Esz.
  pose proof Hwf as (Hw1 & Hw2 & Hw3). unfold ptrdiff_t_half in *.
  set (realEnd := StringView.ApplyOffset nEnd (StringView.GetSize v)) in *.
  assert (Hlen : StringView.crend v - (StringView.crbegin v + realEnd) <= 0).
  { unfold StringView.crend, StringView.crbegin. lia. }
  split; [done|].
  assert (Hall : forall k, 1 <= k < size_t_modulus ->
            StringView.FindCharRepeatBackward v c k nEnd = Returns StringView.npos).
  { intros k Hk'. unfold StringView.FindCharRepeatBackward. fold realEnd.
    destruct (Z.eqb_spec k 0); [lia|].
    destruct (_ || _) eqn:Hguard; [done|].
    apply orb_false_iff in Hguard as [Hg1%Z.ltb_ge Hg2%Z.ltb_ge].
    unfold SearchCharRepeat.
    destruct (Z.to_nat _) as [|n'] eqn:En; [|lia].
    simpl. rewrite to_ptrdiff_t_small by (unfold is_ptrdiff_t, ptrdiff_t_half; lia).
    destruct (Z.ltb_spec (StringView.crend v - (StringView.crbegin v + realEnd)) k); [|lia].
    by rewrite Z.eqb_refl. }
  split; [by apply Hall|].
  apply Hall. unfold size_t_modulus. lia.
Qed.

Lemma FindCharRepeatBackward_always_answers_npos_witness :
  let v := StringView.of_list (u8 "abcabc") in
  StringView.crend v - (StringView.crbegin v + StringView.ApplyOffset (-1) (StringView.GetSize v))
    <= 0
  /\ StringView.FindCharRepeatBackward v 99 1 (-1) = Returns StringView.npos
  /\ StringView.FindCharBackward v 99 (-1) = Returns StringView.npos.
Proof.
  apply (FindCharRepeatBackward_always_answers_npos (StringView.of_list (u8 "abcabc")) 99 1 (-1)).
  - unfold StringView.wf, ptrdiff_t_half. simpl. lia.
  - unfold is_ptrdiff_t, ptrdiff_t_half. lia.
  - reflexivity.
  - unfold size_t_modulus. lia.
Defined.

(** ** The search loop of [MatchString] finds the first occurrence *)

Section MatchString_finds.
Variables (mem : list Z) (srcBegin srcEnd : Z).
Variables (patMem : list Z) (patternBegin : Z).
Variable p : list Z.
Variable table : option (list Z).
Variable q0 : Z.

Let m := Z.of_nat (length p).

Hypothesis Hm : 1 <= m < ptrdiff_t_half.
Hypothesis Hpat : occurs_in patMem p patternBegin.
Hypothesis Hwin : 0 <= srcBegin <= q0 /\ q0 + m <= srcEnd
                  /\ srcEnd <= Z.of_nat (length mem)
                  /\ Z.of_nat (length mem) < ptrdiff_t_half.
Hypothesis Hocc : occurs_in mem p q0.
Hypothesis Hfirst : forall q, srcBegin <= q < q0 -> ~ occurs_in mem p q.
Hypothesis Htbl : forall tbl, table = Some tbl -> Border.table_filled p tbl (length p - 1).

Lemma pattern_unit j : (j < length p)%nat -> exists x, p !! j = Some x.
Proof. intros Hj. by apply lookup_lt_is_Some_2. Qed.

(** A mismatch after [matchLen] matched units rules out every start
    before [current + matchLen - f], with [f] the table entry. *)
Lemma no_occurrence_skipped current n c pm :
  srcBegin <= current <= q0 -> (1 <= n < length p)%nat ->
  (forall j, (j < n)%nat -> deref mem (current + Z.of_nat j) = p !! j) ->
  deref mem (current + Z.of_nat n) = Some c -> p !! n = Some pm -> c <> pm ->
  current + Z.of_nat n - Z.of_nat (Border.longest_differing_border p n) <= q0.
Proof.
  intros Hc Hn Hpre Hmis Hpm Hne.
  set (f := Border.longest_differing_border p n).
  destruct (longest_differing_border_spec p n) as [_ Hmax]. fold f in Hmax.
  destruct (Z.le_gt_cases (current + Z.of_nat n - Z.of_nat f) q0) as [|Hgt]; [done|exfalso].
  destruct (decide (q0 = current)) as [E|E].
  - pose proof (Hocc n ltac:(lia)) as H. rewrite E, Hmis, Hpm in H. congruence.
  - set (d := Z.to_nat (q0 - current)).
    assert (Hd : (0 < d)%nat /\ (d + f < n)%nat /\ q0 = current + Z.of_nat d) by lia.
    destruct Hd as (Hd0 & Hdf & Eq).
    assert (Hb : (n - d <= f)%nat).
    { apply Hmax.
      - split; [lia|]. intros j Hj.
        rewrite <- (Hocc j ltac:(lia)). rewrite Eq.
        rewrite <- (Hpre (n - (n - d) + j)%nat ltac:(lia)). f_equal. lia.
      - rewrite <- (Hocc (n - d)%nat ltac:(lia)). rewrite Eq, Hpm.
        replace (current + Z.of_nat d + Z.of_nat (n - d)) with (current + Z.of_nat n) by lia.
        rewrite Hmis. congruence. }
    lia.
Qed.

Lemma MatchString_run_finds fuel : forall st,
  match st with
  | ms_scan current => srcBegin <= current <= q0
  | ms_Fallback current matchLen =>
    srcBegin <= current <= q0 /\ 1 <= matchLen < m
    /\ forall j, (j < Z.to_nat matchLen)%nat -> deref mem (current + Z.of_nat j) = p !! j
  end ->
  MatchString_run mem srcBegin srcEnd patMem patternBegin m table fuel st = OutOfFuel
  \/ MatchString_run mem srcBegin srcEnd patMem patternBegin m table fuel st
     = Returns (q0 - srcBegin).
Proof.
  destruct Hwin as (Hw1 & Hw2 & Hw3 & Hw4). unfold ptrdiff_t_half in *.
  assert (Hret : forall current, srcBegin <= current <= q0 -> occurs_in mem p current ->
            Returns (to_size_t (current - srcBegin)) = Returns (q0 - srcBegin) :> outcome Z).
  { intros current Hc Ho. destruct (decide (current = q0)) as [->|Hne].
    - rewrite to_size_t_small by (unfold is_size_t, size_t_modulus; lia). done.
    - exfalso. apply (Hfirst current); [lia|done]. }
  induction fuel as [|fuel IH]; intros st Hinv; [by left|].
  destruct st as [current|current matchLen].
  - cbn [MatchString_run].
    rewrite to_ptrdiff_t_small by (unfold is_ptrdiff_t, ptrdiff_t_half; lia).
    destruct (Z.ltb_spec (srcEnd - current) m); [lia|].
    destruct (deref_in_range mem current ltac:(lia)) as [c Hc]. rewrite Hc.
    destruct (pattern_unit 0 ltac:(lia)) as [p0 Hp0].
    pose proof (Hpat 0%nat ltac:(lia)) as Hpat0. rewrite Z.add_0_r, Hp0 in Hpat0.
    rewrite Hpat0.
    destruct (Z.eqb_spec c p0) as [->|Hne].
    + unfold ms_enter. rewrite (to_size_t_small 1) by (unfold is_size_t, size_t_modulus; lia).
      destruct (Z.leb_spec m 1).
      * right. apply Hret; [done|]. intros j Hj. assert (j = 0)%nat as -> by lia.
        by rewrite Z.add_0_r, Hc, Hp0.
      * apply (IH (ms_Fallback current 1)). split; [done|]. split; [lia|].
        intros j Hj. assert (j = 0)%nat as -> by lia. by rewrite Z.add_0_r, Hc, Hp0.
    + apply (IH (ms_scan (current + 1))).
      assert (current <> q0); [|lia].
      intros ->. pose proof (Hocc 0%nat ltac:(lia)) as H0.
      rewrite Z.add_0_r, Hc, Hp0 in H0. congruence.
  - destruct Hinv as (Hc & Hml & Hpre).
    cbn [MatchString_run].
    destruct (deref_in_range mem (current + matchLen) ltac:(lia)) as [c Hcm]. rewrite Hcm.
    destruct (pattern_unit (Z.to_nat matchLen) ltac:(lia)) as [pm Hpm].
    pose proof (Hpat (Z.to_nat matchLen) ltac:(lia)) as Hpatm.
    rewrite Z2Nat.id, Hpm in Hpatm by lia. rewrite Hpatm.
    destruct (Z.eqb_spec c pm) as [->|Hne]; cbn [negb].
    + unfold ms_enter.
      rewrite (to_size_t_small (matchLen + 1)) by (unfold is_size_t, size_t_modulus; lia).
      destruct (Z.leb_spec m (matchLen + 1)).
      * right. apply Hret; [done|]. intros j Hj.
        destruct (decide (j < Z.to_nat matchLen)%nat) as [Hlt|Hge]; [by apply Hpre|].
        assert (j = Z.to_nat matchLen) as -> by lia. by rewrite Z2Nat.id, Hcm, Hpm by lia.
      * apply (IH (ms_Fallback current (matchLen + 1))). split; [done|]. split; [lia|].
        intros j Hj.
        destruct (decide (j < Z.to_nat matchLen)%nat) as [Hlt|Hge]; [by apply Hpre|].
        assert (j = Z.to_nat matchLen) as -> by lia. by rewrite Z2Nat.id, Hcm, Hpm by lia.
    + destruct table as [tbl|] eqn:Et.
      * set (n := Z.to_nat matchLen).
        assert (Hf : table_get tbl (matchLen - 1)
                     = Some (Z.of_nat (Border.longest_differing_border p n))).
        { unfold table_get. destruct (Z.ltb_spec (matchLen - 1) 0); [lia|].
          rewrite (Htbl tbl eq_refl (Z.to_nat (matchLen - 1))) by lia.
          do 3 f_equal. lia. }
        rewrite Hf.
        pose proof (no_occurrence_skipped current n c pm Hc ltac:(lia) Hpre
                      ltac:(subst n; by rewrite Z2Nat.id by lia) Hpm Hne) as Hskip.
        pose proof (longest_differing_border_below p n ltac:(lia)) as Hbelow.
        destruct (longest_differing_border_spec p n) as [Hfb _].
        set (f := Border.longest_differing_border p n) in *.
        destruct (Z.eqb_spec (Z.of_nat f) 0) as [E0|E0]; cbn [negb].
        -- apply (IH (ms_scan (current + matchLen))). lia.
        -- apply (IH (ms_Fallback (current + matchLen - Z.of_nat f) (Z.of_nat f))).
           split; [lia|]. split; [lia|]. intros j Hj.
           destruct Hfb as [?|[[_ Hbord] _]]; [lia|].
           rewrite (Hbord j ltac:(lia)).
           rewrite <- (Hpre (n - f + j)%nat ltac:(lia)). f_equal. lia.
      * apply (IH (ms_scan (current + 1))).
        assert (current <> q0); [|lia].
        intros ->. pose proof (Hocc (Z.to_nat matchLen) ltac:(lia)) as H0.
        rewrite Z2Nat.id, Hcm, Hpm in H0 by lia. congruence.
Qed.
End MatchString_finds.

(** ** [Find] against the reference search *)

Lemma find_seq_first (f : nat -> bool) n : forall a x,
  List.find f (seq a n) = Some x ->
  (a <= x < a + n)%nat /\ f x = true /\ forall k, (a <= k < x)%nat -> f k = false.
Proof.
  induction n as [|n IH]; intros a x; simpl; [done|].
  destruct (f a) eqn:Ea.
  - intros [= <-]. split; [lia|]. split; [done|]. intros k Hk. lia.
  - intros H. destruct (IH _ _ H) as (Hx & Hfx & Hk). split; [lia|]. split; [done|].
    intros k Hk'. destruct (decide (k = a)) as [->|Hne]; [done|]. apply Hk. lia.
Qed.

Lemma find_seq_None (f : nat -> bool) n : forall a,
  List.find f (seq a n) = None -> forall k, (a <= k < a + n)%nat -> f k = false.
Proof.
  induction n as [|n IH]; intros a; simpl; [lia|].
  destruct (f a) eqn:Ea; [done|]. intros H k Hk.
  destruct (decide (k = a)) as [->|Hne]; [done|]. apply (IH _ H). lia.
Qed.

Lemma occurs_at_true source pattern i :
  StringView.occurs_at source pattern i = true <->
  forall j, (j < length pattern)%nat -> source !! (i + j)%nat = pattern !! j.
Proof.
  unfold StringView.occurs_at. rewrite bool_decide_eq_true. split.
  - intros H j Hj. rewrite <- H.
    rewrite lookup_take_lt by lia. by rewrite lookup_drop.
  - intros H. apply list_eq. intros j.
    destruct (decide (j < length pattern)%nat) as [Hj|Hj].
    + rewrite lookup_take_lt by lia. rewrite lookup_drop. by apply H.
    + rewrite lookup_take_ge by lia. symmetry. apply lookup_ge_None. lia.
Qed.

Lemma occurs_at_fits (source pattern : list Z) i :
  (forall j, (j < length pattern)%nat -> source !! (i + j)%nat = pattern !! j) ->
  (0 < length pattern)%nat -> (i + length pattern <= length source)%nat.
Proof.
  intros H Hl. specialize (H (length pattern - 1)%nat ltac:(lia)).
  destruct (lookup_lt_is_Some_2 pattern (length pattern - 1)%nat ltac:(lia)) as [x Hx].
  rewrite Hx in H. apply lookup_lt_Some in H. lia.
Qed.

Lemma reference_Find_found source pattern from :
  Z.of_nat (length source) < ptrdiff_t_half ->
  StringView.reference_Find source pattern from <> StringView.npos ->
  exists i, StringView.reference_Find source pattern from = Z.of_nat i
    /\ (from <= i <= length source)%nat
    /\ StringView.occurs_at source pattern i = true
    /\ forall k, (from <= k < i)%nat -> StringView.occurs_at source pattern k = false.
Proof.
  intros Hl. unfold StringView.reference_Find.
  destruct (List.find _ _) as [i|] eqn:E; [|done]. intros _.
  apply find_seq_first in E as (Hi & Hocc & Hfirst). exists i.
  split; [done|]. split; [lia|]. done.
Qed.

(** On a table that holds all its entries: whenever the pattern occurs
    in the view at or after the resolved offset, the search returns the
    offset of the first such occurrence, the answer of the reference
    search; an answer of [npos] is given only when the pattern does not
    occur there. *)
Lemma Find_on_whole_table_returns_the_first_occurrence heap_has_room v pattern nBegin s p :
  StringView.wf v -> StringView.wf pattern ->
  StringView.units v = Some s -> StringView.units pattern = Some p ->
  is_ptrdiff_t nBegin ->
  StringView.ApplyOffset_assert nBegin (StringView.GetSize v) = true ->
  let from := Z.to_nat (StringView.ApplyOffset nBegin (StringView.GetSize v)) in
  (StringView.reference_Find s p from <> StringView.npos ->
   StringView.Find heap_has_room v pattern nBegin = Returns (StringView.reference_Find s p from))
  /\ (StringView.Find heap_has_room v pattern nBegin = Returns StringView.npos ->
      StringView.reference_Find s p from = StringView.npos).
Proof.
  intros Hv Hp Hs Hpu Hn Ha from.
  assert (Hsz : is_size_t (StringView.GetSize v)) by apply to_size_t_range.
  destruct (ApplyOffset_resolved nBegin _ Hn Hsz Ha) as [_ Hrb].
  destruct (units_length v s Hv Hs) as [Hls Hss].
  destruct (units_length pattern p Hp Hpu) as [Hlp Hsp].
  pose proof Hv as (Hv1 & Hv2 & Hv3).
  pose proof (GetSize_wf v Hv) as Esz.
  set (rb := StringView.ApplyOffset nBegin (StringView.GetSize v)) in *.
  assert (Hmain : StringView.reference_Find s p from <> StringView.npos ->
            StringView.Find heap_has_room v pattern nBegin
            = Returns (StringView.reference_Find s p from)).
  { intros Href.
    destruct (reference_Find_found s p from Hss Href) as (i & -> & Hi & Hocc & Hfirst).
    rename Hocc into Hocc_b. pose proof (proj1 (occurs_at_true s p i) Hocc_b) as Hocc.
    pose proof (Find_has_fuel heap_has_room v pattern nBegin Hv Hp Hn Ha) as Hfuel.
    unfold StringView.Find in *. fold rb in Hfuel |- *.
    rewrite <- Hlp in *. rewrite <- Hls in *.
    destruct (Z.eqb_spec (Z.of_nat (length p)) 0) as [E0|E0].
    { assert (i = from); [|f_equal; lia].
      destruct (decide (i = from)) as [|Hne]; [done|exfalso].
      assert (Hf : StringView.occurs_at s p from = true).
      { apply occurs_at_true. intros j Hj. lia. }
      rewrite Hfirst in Hf by lia. done. }
    pose proof (occurs_at_fits s p i Hocc ltac:(lia)) as Hfit.
    rewrite (to_size_t_small (rb + Z.of_nat (length p))) in *
      by (unfold is_size_t, size_t_modulus, ptrdiff_t_half in *; lia).
    destruct (Z.ltb_spec (Z.of_nat (length s)) (Z.of_nat (length p))); [lia|].
    destruct (Z.ltb_spec (Z.of_nat (length s)) (rb + Z.of_nat (length p))); [lia|].
    cbn [orb] in *.
    assert (Hrun : MatchString heap_has_room (StringView.underlying v)
                     (StringView.m_StrBegin v + rb) (StringView.m_StrEnd v)
                     (StringView.underlying pattern) (StringView.m_StrBegin pattern)
                     (StringView.m_StrEnd pattern) = OutOfFuel
                   \/ MatchString heap_has_room (StringView.underlying v)
                        (StringView.m_StrBegin v + rb) (StringView.m_StrEnd v)
                        (StringView.underlying pattern) (StringView.m_StrBegin pattern)
                        (StringView.m_StrEnd pattern)
                      = Returns (StringView.m_StrBegin v + Z.of_nat i
                                 - (StringView.m_StrBegin v + rb))).
    { unfold MatchString. fold (StringView.GetSize pattern). rewrite <- Hlp.
      assert (Hpat : occurs_in (StringView.underlying pattern) p (StringView.m_StrBegin pattern)).
      { intros j Hj. destruct (units_deref pattern p j Hp Hpu Hj) as (c & Hc & Hd).
        by rewrite Hd, Hc. }
      assert (Hoc : occurs_in (StringView.underlying v) p (StringView.m_StrBegin v + Z.of_nat i)).
      { intros j Hj. rewrite <- Hocc by done.
        destruct (units_deref v s (i + j) Hv Hs ltac:(lia)) as (c & Hc & Hd).
        rewrite Hc, <- Hd. f_equal. lia. }
      assert (Hno : forall q, StringView.m_StrBegin v + rb <= q < StringView.m_StrBegin v + Z.of_nat i ->
                ~ occurs_in (StringView.underlying v) p q).
      { intros q Hq Hoq.
        set (k := Z.to_nat (q - StringView.m_StrBegin v)).
        assert (Hk : StringView.occurs_at s p k = true); [|rewrite Hfirst in Hk by lia; done].
        apply occurs_at_true. intros j Hj.
        rewrite <- (Hoq j Hj).
        destruct (units_deref v s (k + j) Hv Hs ltac:(lia)) as (c & Hc & Hd).
        rewrite Hc, <- Hd. f_equal. lia. }
      destruct (table_obtained _ _).
      - destruct (build_table_filled pattern p Hp Hpu) as (table & Hb & Hl & Hfill); [lia|].
        rewrite Hlp, Hb, <- Hlp. cbn [outcome_bind].
        apply (MatchString_run_finds (StringView.underlying v) (StringView.m_StrBegin v + rb)
                 (StringView.m_StrEnd v) (StringView.underlying pattern)
                 (StringView.m_StrBegin pattern) p (Some table)
                 (StringView.m_StrBegin v + Z.of_nat i)
                 ltac:(lia) Hpat ltac:(lia) Hoc Hno
                 ltac:(by intros tbl [= <-]) _ (ms_scan (StringView.m_StrBegin v + rb))).
        lia.
      - apply (MatchString_run_finds (StringView.underlying v) (StringView.m_StrBegin v + rb)
                 (StringView.m_StrEnd v) (StringView.underlying pattern)
                 (StringView.m_StrBegin pattern) p None
                 (StringView.m_StrBegin v + Z.of_nat i)
                 ltac:(lia) Hpat ltac:(lia) Hoc Hno
                 ltac:(by intros tbl [=]) _ (ms_scan (StringView.m_StrBegin v + rb))).
        lia. }
    destruct Hrun as [Hrun|Hrun]; rewrite Hrun in *; [done|].
    destruct (Z.eqb_spec (StringView.m_StrBegin v + Z.of_nat i - (StringView.m_StrBegin v + rb))
                StringView.npos) as [E|_].
    { unfold StringView.npos, npos, ptrdiff_t_half in *. vm_compute to_size_t in E. lia. }
    rewrite to_size_t_small by (unfold is_size_t, size_t_modulus, ptrdiff_t_half in *; lia).
    f_equal. lia. }
  split; [done|].
  intros Hnpos. destruct (decide (StringView.reference_Find s p from = StringView.npos)) as [|Hne];
    [done|].
  rewrite (Hmain Hne) in Hnpos. by injection Hnpos.
Qed.

(** ** An answer of [Find] is an occurrence in memory *)

Section MatchString_answers.
Variables (mem : list Z) (srcBegin srcEnd : Z).
Variables (patMem : list Z) (patternBegin : Z).
Variable p : list Z.
Variable table : option (list Z).

Let m := Z.of_nat (length p).

Hypothesis Hm : 1 <= m < ptrdiff_t_half.
Hypothesis Hpat : occurs_in patMem p patternBegin.
Hypothesis Htbl : forall tbl, table = Some tbl -> Border.table_filled p tbl (length p - 1).

Lemma MatchString_run_answers fuel : forall st r,
  match st with
  | ms_scan current => srcBegin <= current
  | ms_Fallback current matchLen =>
    srcBegin <= current /\ 1 <= matchLen < m
    /\ forall j, (j < Z.to_nat matchLen)%nat -> deref mem (current + Z.of_nat j) = p !! j
  end ->
  MatchString_run mem srcBegin srcEnd patMem patternBegin m table fuel st = Returns r ->
  r = npos
  \/ exists q, srcBegin <= q /\ r = to_size_t (q - srcBegin) /\ occurs_in mem p q.
Proof.
  unfold ptrdiff_t_half in *.
  induction fuel as [|fuel IH]; intros st r Hinv; [done|].
  destruct st as [current|current matchLen].
  - cbn [MatchString_run].
    destruct (srcEnd - current <? to_ptrdiff_t m); [intros [= <-]; by left|].
    destruct (deref mem current) as [c|] eqn:Hc; [|done].
    destruct (pattern_unit p 0 ltac:(lia)) as [p0 Hp0].
    pose proof (Hpat 0%nat ltac:(lia)) as Hpat0. rewrite Z.add_0_r, Hp0 in Hpat0.
    rewrite Hpat0.
    destruct (Z.eqb_spec c p0) as [->|Hne].
    + unfold ms_enter. rewrite (to_size_t_small 1) by (unfold is_size_t, size_t_modulus; lia).
      destruct (Z.leb_spec m 1).
      * intros [= <-]. right. exists current. split; [done|]. split; [done|].
        intros j Hj. assert (j = 0)%nat as -> by lia. by rewrite Z.add_0_r, Hc, Hp0.
      * apply (IH (ms_Fallback current 1)). split; [done|]. split; [lia|].
        intros j Hj. assert (j = 0)%nat as -> by lia. by rewrite Z.add_0_r, Hc, Hp0.
    + apply (IH (ms_scan (current + 1))). lia.
  - destruct Hinv as (Hc & Hml & Hpre).
    cbn [MatchString_run].
    destruct (deref mem (current + matchLen)) as [c|] eqn:Hcm; [|done].
    destruct (pattern_unit p (Z.to_nat matchLen) ltac:(lia)) as [pm Hpm].
    pose proof (Hpat (Z.to_nat matchLen) ltac:(lia)) as Hpatm.
    rewrite Z2Nat.id, Hpm in Hpatm by lia. rewrite Hpatm.
    destruct (Z.eqb_spec c pm) as [->|Hne]; cbn [negb].
    + unfold ms_enter.
      rewrite (to_size_t_small (matchLen + 1)) by (unfold is_size_t, size_t_modulus; lia).
      assert (Hext : forall j, (j < Z.to_nat (matchLen + 1))%nat ->
                deref mem (current + Z.of_nat j) = p !! j).
      { intros j Hj.
        destruct (decide (j < Z.to_nat matchLen)%nat) as [Hlt|Hge]; [by apply Hpre|].
        assert (j = Z.to_nat matchLen) as -> by lia. by rewrite Z2Nat.id, Hcm, Hpm by lia. }
      destruct (Z.leb_spec m (matchLen + 1)).
      * intros [= <-]. right. exists current. split; [done|]. split; [done|].
        intros j Hj. apply Hext. lia.
      * apply (IH (ms_Fallback current (matchLen + 1))). by split; [|split; [lia|]].
    + destruct table as [tbl|] eqn:Et.
      * set (n := Z.to_nat matchLen).
        assert (Hf : table_get tbl (matchLen - 1)
                     = Some (Z.of_nat (Border.longest_differing_border p n))).
        { unfold table_get. destruct (Z.ltb_spec (matchLen - 1) 0); [lia|].
          rewrite (Htbl tbl eq_refl (Z.to_nat (matchLen - 1))) by lia.
          do 3 f_equal. lia. }
        rewrite Hf.
        pose proof (longest_differing_border_below p n ltac:(lia)) as Hbelow.
        destruct (longest_differing_border_spec p n) as [Hfb _].
        set (f := Border.longest_differing_border p n) in *.
        destruct (Z.eqb_spec (Z.of_nat f) 0) as [E0|E0]; cbn [negb].
        -- apply (IH (ms_scan (current + matchLen))). lia.
        -- apply (IH (ms_Fallback (current + matchLen - Z.of_nat f) (Z.of_nat f))).
           split; [lia|]. split; [lia|]. intros j Hj.
           destruct Hfb as [?|[[_ Hbord] _]]; [lia|].
           rewrite (Hbord j ltac:(lia)).
           rewrite <- (Hpre (n - f + j)%nat ltac:(lia)). f_equal. lia.
      * apply (IH (ms_scan (current + 1))). lia.
Qed.
End MatchString_answers.

(** On a table that holds all its entries: an answer other than
    [npos], for a non-empty pattern, is an offset at or after the
    resolved one at which the units of the pattern stand in the sequence
    the view borrows. *)
Lemma Find_on_whole_table_answer_is_an_occurrence heap_has_room v pattern nBegin p pos :
  StringView.wf v -> StringView.wf pattern ->
  StringView.units pattern = Some p -> p <> [] ->
  is_ptrdiff_t nBegin ->
  StringView.ApplyOffset_assert nBegin (StringView.GetSize v) = true ->
  StringView.Find heap_has_room v pattern nBegin = Returns pos ->
  pos <> StringView.npos ->
  StringView.ApplyOffset nBegin (StringView.GetSize v) <= pos
  /\ forall j, (j < length p)%nat ->
       StringView.UncheckGet v (pos + Z.of_nat j) = lift (p !! j).
Proof.
  intros Hv Hp Hpu Hne Hn Ha Hfind Hpos.
  assert (Hsz : is_size_t (StringView.GetSize v)) by apply to_size_t_range.
  destruct (ApplyOffset_resolved nBegin _ Hn Hsz Ha) as [_ Hrb].
  destruct (units_length pattern p Hp Hpu) as [Hlp Hsp].
  pose proof Hv as (Hv1 & Hv2 & Hv3).
  pose proof (GetSize_wf v Hv) as Esz.
  set (rb := StringView.ApplyOffset nBegin (StringView.GetSize v)) in *.
  assert (Hlen : (0 < length p)%nat) by (destruct p; [done|simpl; lia]).
  unfold StringView.Find in Hfind. fold rb in Hfind.
  rewrite <- Hlp in Hfind.
  destruct (Z.eqb_spec (Z.of_nat (length p)) 0) as [E0|E0]; [lia|].
  destruct (_ || _); [by injection Hfind as <-|].
  destruct (MatchString _ _ _ _ _ _ _) as [r| | |] eqn:Hrun; try done.
  destruct (Z.eqb_spec r StringView.npos) as [E|E]; [by injection Hfind as <-|].
  injection Hfind as <-.
  assert (Hpat : occurs_in (StringView.underlying pattern) p (StringView.m_StrBegin pattern)).
  { intros j Hj. destruct (units_deref pattern p j Hp Hpu Hj) as (c & Hc & Hd).
    by rewrite Hd, Hc. }
  assert (Hans : r = npos
            \/ exists q, StringView.m_StrBegin v + rb <= q
                 /\ r = to_size_t (q - (StringView.m_StrBegin v + rb))
                 /\ occurs_in (StringView.underlying v) p q).
  { unfold MatchString in Hrun. fold (StringView.GetSize pattern) in Hrun.
    rewrite <- Hlp in Hrun.
    destruct (table_obtained _ _).
    - destruct (build_table_filled pattern p Hp Hpu) as (table & Hb & Hl & Hfill); [lia|].
      rewrite Hlp, Hb, <- Hlp in Hrun. cbn [outcome_bind] in Hrun.
      apply (MatchString_run_answers (StringView.underlying v) (StringView.m_StrBegin v + rb)
               (StringView.m_StrEnd v) (StringView.underlying pattern)
               (StringView.m_StrBegin pattern) p (Some table)
               ltac:(lia) Hpat ltac:(by intros tbl [= <-])
               _ (ms_scan (StringView.m_StrBegin v + rb)) r ltac:(simpl; lia) Hrun).
    - apply (MatchString_run_answers (StringView.underlying v) (StringView.m_StrBegin v + rb)
               (StringView.m_StrEnd v) (StringView.underlying pattern)
               (StringView.m_StrBegin pattern) p None
               ltac:(lia) Hpat ltac:(by intros tbl [=])
               _ (ms_scan (StringView.m_StrBegin v + rb)) r ltac:(simpl; lia) Hrun). }
  destruct Hans as [->|(q & Hq & -> & Hocc)]; [done|].
  pose proof (Hocc 0%nat Hlen) as H0.
  destruct (lookup_lt_is_Some_2 p 0 Hlen) as [x Hx]. rewrite Hx in H0.
  apply deref_Some in H0 as [_ H0]. apply lookup_lt_Some in H0.
  unfold ptrdiff_t_half in *.
  rewrite (to_size_t_small (q - (StringView.m_StrBegin v + rb)))
    by (unfold is_size_t, size_t_modulus; lia).
  rewrite to_size_t_small by (unfold is_size_t, size_t_modulus; lia).
  split; [lia|]. intros j Hj. unfold StringView.UncheckGet.
  replace (StringView.m_StrBegin v + (q - (StringView.m_StrBegin v + rb) + rb + Z.of_nat j))
    with (q + Z.of_nat j) by lia.
  rewrite (Hocc j Hj). by destruct (p !! j).
Qed.

(** X20.  Every call of [MatchString] that [Find] makes on well-formed
    views meets both [assert]s of [MatchString]: the source range is not
    empty and is at least as long as the pattern. *)
Theorem Find_meets_the_asserts_of_MatchString v pattern nBegin :
  StringView.wf v -> StringView.wf pattern -> is_ptrdiff_t nBegin ->
  StringView.ApplyOffset_assert nBegin (StringView.GetSize v) = true ->
  Find_calls_MatchString v pattern nBegin = true ->
  Find_MatchString_asserts v pattern nBegin = true.
Proof.
  intros Hv Hp Hn Ha Hcall.
  assert (Hsz : is_size_t (StringView.GetSize v)) by apply to_size_t_range.
  destruct (ApplyOffset_resolved nBegin _ Hn Hsz Ha) as [_ Hrb].
  pose proof (GetSize_wf v Hv) as Ev. pose proof (GetSize_wf pattern Hp) as Ep.
  pose proof Hv as (Hv1 & Hv2 & Hv3). pose proof Hp as (Hp1 & Hp2 & Hp3).
  unfold ptrdiff_t_half in *.
  unfold Find_calls_MatchString in Hcall. unfold Find_MatchString_asserts, MatchString_asserts.
  set (rb := StringView.ApplyOffset nBegin (StringView.GetSize v)) in *.
  apply andb_true_iff in Hcall as [H0%negb_true_iff%Z.eqb_neq Hg%negb_true_iff].
  apply orb_false_iff in Hg as [Hg1%Z.ltb_ge Hg2%Z.ltb_ge].
  rewrite to_size_t_small in Hg2 by (unfold is_size_t, size_t_modulus; lia).
  fold (StringView.GetSize pattern).
  rewrite (to_size_t_small (StringView.m_StrEnd v - (StringView.m_StrBegin v + rb)))
    by (unfold is_size_t, size_t_modulus; lia).
  apply andb_true_iff. split.
  - apply negb_true_iff, Z.eqb_neq. lia.
  - apply Z.leb_le. lia.
Qed.

Lemma Find_meets_the_asserts_of_MatchString_witness :
  Find_MatchString_asserts (StringView.of_list (u8 "a")) (StringView.of_list (u8 "a")) 0 = true.
Proof.
  apply (Find_meets_the_asserts_of_MatchString
           (StringView.of_list (u8 "a")) (StringView.of_list (u8 "a")) 0).
  - unfold StringView.wf, ptrdiff_t_half. simpl. lia.
  - unfold StringView.wf, ptrdiff_t_half. simpl. lia.
  - unfold is_ptrdiff_t, ptrdiff_t_half. lia.
  - reflexivity.
  - reflexivity.
Defined.

(** *** Assigning a view of the string itself *)

Lemma Resize_in_place s buf n :
  String.wf s -> String.buffer s = Some buf -> 0 <= n < Capacity s.2 ->
  exists buf',
    String.Resize n s = Returns (set_Size n (with_buffer s buf'))
    /\ resized_buffer buf (Size s.2) n = Some buf'
    /\ length buf' = length buf.
Proof.
  intros Hwf Hb Hn.
  pose proof (String.wf_size s Hwf) as Hsz.
  pose proof (wf_buffer_length s buf Hwf Hb) as Hlen.
  rewrite (Resize_unfold s buf n Hwf Hb). cbv zeta.
  assert (Hre : Resize_reallocates s n = false).
  { unfold Resize_reallocates. destruct (Z.leb_spec (Capacity s.2) n); [lia|done]. }
  rewrite Hre.
  destruct (resized_buffer_exists buf (Size s.2) n) as (buf' & Hr & Hl'); [lia|lia|].
  rewrite Hr. by exists buf'.
Qed.

(** X21.  [Assign] of a view of the string's own units [a .. a + n),
    [a >= 1], copies them after [Resize(n)] has written the terminator at
    index [n]: the result is the view of the old content with the unit
    at index [n] replaced by 0.  It is the viewed units when the view
    starts after index [n]; otherwise the unit at [n - a] of the result
    is 0. *)
Theorem Assign_of_own_view_reads_the_new_terminator s us a n :
  String.wf s -> String.content s = Some us ->
  1 <= a -> 0 <= n -> a + n <= Size s.2 ->
  exists s',
    String.Assign (own_view s a n) s = Returns s'
    /\ String.wf s'
    /\ String.content s'
       = Some (take (Z.to_nat n) (drop (Z.to_nat a) (<[Z.to_nat n := 0]> us)))
    /\ (n < a -> String.content s' = Some (take (Z.to_nat n) (drop (Z.to_nat a) us)))
    /\ (a <= n -> exists r, String.content s' = Some r /\ r !! Z.to_nat (n - a) = Some 0).
Proof.
  intros Hwf Hc Ha Hn Han.
  destruct (holds_buffer s us (conj Hwf Hc)) as (buf & Hb & Hlen & Hpre & Hus).
  pose proof (String.wf_size s Hwf) as Hsz. pose proof (String.wf_capacity s Hwf) as Hcap.
  destruct (Resize_in_place s buf n Hwf Hb ltac:(lia)) as (buf1 & Hr & Hrb & Hl1).
  set (s1 := set_Size n (with_buffer s buf1)) in *.
  assert (Hb1 : String.buffer s1 = Some buf1).
  { subst s1. rewrite buffer_set_Size. by apply (buffer_with_buffer s buf). }
  assert (Hwf1 : String.wf s1).
  { subst s1. apply (wf_with_buffer s buf buf1 n Hwf Hb Hl1). lia. }
  assert (Hd1 : GetData String.MaxShortStringSize s1.2 = GetData String.MaxShortStringSize s.2).
  { subst s1. unfold set_Size. simpl.
    pose proof (GetData_with_buffer s buf buf1 Hb) as H.
    destruct (with_buffer_fields s buf1) as (_ & Ec & _).
    unfold GetData in *. simpl. by rewrite Ec in *. }
  assert (Hvs : String.view_size (own_view s a n) = Some n).
  { unfold String.view_size, own_view. simpl.
    assert (E : to_size_t (0 + (a + n) - (0 + a)) = n).
    { replace (0 + (a + n) - (0 + a)) with n by lia.
      apply to_size_t_small. unfold is_size_t, size_t_modulus in *. lia. }
    destruct (buffer_data s buf Hb) as (pl & -> & _ & [[_ ->]|[_ (b & -> & _)]]); simpl.
    - by rewrite E.
    - rewrite decide_True by done. by rewrite E. }
  unfold String.Assign. rewrite Hvs, Hr. cbn [outcome_bind].
  unfold own_view. cbn [String.view_begin]. rewrite <- Hd1.
  destruct (copy_loop_down (Z.to_nat n) a 0 s1 buf1 Hb1) as (s' & buf' & Hrun & Hb' & Hl' & Hlk);
    [lia|lia|].
  pose proof Hrun as Hrun0. rewrite <- (data_is_ptr_add s1 buf1 Hb1) in Hrun0.
  rewrite Hrun0. exists s'.
  destruct (copy_loop_preserves _ _ _ _ _ Hwf1 Hrun) as (Hwf' & Es & Ec & Ea).
  assert (Hcont : String.content s'
            = Some (take (Z.to_nat n) (drop (Z.to_nat a) (<[Z.to_nat n := 0]> us)))).
  { apply (holds_intro s' buf' _ Hwf' Hb'). rewrite Es. subst s1. cbn [set_Size snd Size].
    apply prefix_intro.
    - rewrite length_take, length_drop, length_insert. lia.
    - lia.
    - intros j Hj. rewrite Hlk. rewrite decide_True by lia.
      rewrite (resized_buffer_lookup buf (Size s.2) n buf1 _ ltac:(lia) ltac:(lia) Hrb).
      rewrite lookup_take_lt by lia. rewrite lookup_drop.
      replace (j - Z.to_nat 0 + Z.to_nat a)%nat with (Z.to_nat a + j)%nat by lia.
      case_decide as Hjn.
      + rewrite Hjn. rewrite list_lookup_insert_eq by lia. done.
      + rewrite decide_False by lia. rewrite list_lookup_insert_ne by lia.
        apply (prefix_lookup buf _ us _ Hpre). lia. }
  split; [done|]. split; [done|]. split; [done|]. split.
  - intros Hlt. rewrite Hcont. do 2 f_equal.
    rewrite <- (take_drop (Z.to_nat a) (<[Z.to_nat n:=0]> us)) at 1.
    rewrite drop_app_length'; [|rewrite length_take, length_insert; lia].
    rewrite <- (take_drop (Z.to_nat a) us) at 2.
    rewrite drop_app_length' by (rewrite length_take; lia).
    apply list_eq. intros j. rewrite !lookup_drop. apply list_lookup_insert_ne. lia.
  - intros Hle. eexists. split; [exact Hcont|].
    rewrite lookup_take_lt by lia. rewrite lookup_drop.
    replace (Z.to_nat a + Z.to_nat (n - a))%nat with (Z.to_nat n) by lia.
    apply list_lookup_insert_eq. lia.
Qed.

Lemma Assign_of_own_view_reads_the_new_terminator_witness :
  match String.of_list (u8 "abcdef") with
  | Returns s =>
    exists s',
      String.Assign (own_view s 1 3) s = Returns s'
      /\ String.wf s'
      /\ String.content s' = Some [98; 99; 0]
      /\ (3 < 1 -> String.content s' = Some (u8 "bcd"))
      /\ (1 <= 3 -> exists r, String.content s' = Some r /\ r !! 2%nat = Some 0)
  | _ => False
  end.
Proof.
  destruct (String.of_list (u8 "abcdef")) as [s| | |] eqn:Hs;
    try (vm_compute in Hs; discriminate).
  apply (Assign_of_own_view_reads_the_new_terminator s (u8 "abcdef") 1 3).
  - by apply (of_list_wf (u8 "abcdef")).
  - vm_compute in Hs. injection Hs as <-. reflexivity.
  - lia.
  - lia.
  - vm_compute in Hs. injection Hs as <-. vm_compute. discriminate.
Defined.

(** ** natUtil *)

(** X22.  [W2Cstr] undoes [C2Wstr] on every narrow string, whether
    [char] is signed or not, and both conversions keep the length; in
    the other direction the round trip is the identity on the units
    below 128. *)
Theorem W2Cstr_undoes_C2Wstr :
  (forall (char_is_signed : bool) str,
     Forall (fun c => if char_is_signed then - 2 ^ 7 <= c < 2 ^ 7 else 0 <= c < 2 ^ 8) str ->
     natUtil.W2Cstr char_is_signed (natUtil.C2Wstr str) = str
     /\ length (natUtil.C2Wstr str) = length str)
  /\ (forall char_is_signed wstr,
     Forall (fun w => 0 <= w < 2 ^ 7) wstr ->
     natUtil.C2Wstr (natUtil.W2Cstr char_is_signed wstr) = wstr
     /\ length (natUtil.W2Cstr char_is_signed wstr) = length wstr).
Proof.
  split.
  - intros b str Hall. unfold natUtil.W2Cstr, natUtil.C2Wstr.
    split; [|by rewrite length_fmap].
    induction Hall as [|c str Hc Hall IH]; [done|].
    rewrite !fmap_cons, IH. f_equal.
    unfold natUtil.to_char, natUtil.to_wchar_t. destruct b.
    + destruct (Z.le_gt_cases 0 c).
      * rewrite (Z.mod_small c) by lia. rewrite Z.mod_small by lia. lia.
      * replace (c mod 2 ^ 16) with (c + 2 ^ 16)
          by (apply (Z.mod_unique_pos _ _ (-1)); lia).
        replace ((c + 2 ^ 16 + 2 ^ 7) mod 2 ^ 8) with (c + 2 ^ 7)
          by (apply (Z.mod_unique_pos _ _ 256); lia).
        lia.
    + rewrite (Z.mod_small c) by lia. apply Z.mod_small. lia.
  - intros b wstr Hall. unfold natUtil.W2Cstr, natUtil.C2Wstr.
    split; [|by rewrite length_fmap].
    induction Hall as [|c str Hc Hall IH]; [done|].
    rewrite !fmap_cons, IH. f_equal.
    unfold natUtil.to_char, natUtil.to_wchar_t. destruct b.
    + rewrite (Z.mod_small (c + 2 ^ 7)) by lia.
      replace (c + 2 ^ 7 - 2 ^ 7) with c by lia. apply Z.mod_small. lia.
    + rewrite (Z.mod_small c (2 ^ 8)) by lia. apply Z.mod_small. lia.
Qed.

Lemma compare_units_first_difference stringType a : forall b,
  (compare_units stringType a b = 0 <->
   UChar stringType <$> a `prefix_of` UChar stringType <$> b
   \/ UChar stringType <$> b `prefix_of` UChar stringType <$> a)
  /\ (compare_units stringType a b <> 0 ->
      exists i x y,
        a !! i = Some x /\ b !! i = Some y
        /\ take i (UChar stringType <$> a) = take i (UChar stringType <$> b)
        /\ UChar stringType x <> UChar stringType y
        /\ compare_units stringType a b
           = if UChar stringType y <? UChar stringType x then 1 else -1).
Proof.
  induction a as [|x a IH]; intros [|y b].
  - split; [split; [intros _; by left|done]|done].
  - split; [split; [intros _; left; apply prefix_nil|done]|done].
  - split; [split; [intros _; right; apply prefix_nil|done]|done].
  - cbn [compare_units]. rewrite !fmap_cons.
    destruct (Z.eqb_spec (UChar stringType x) (UChar stringType y)) as [E|E].
    + destruct (IH b) as [Hz Hnz]. split.
      * rewrite Hz, E. split.
        -- intros [H|H]; [left|right]; by apply prefix_cons.
        -- intros [H|H]; [left|right]; by apply prefix_cons_inv_2 in H.
      * intros Hne. destruct (Hnz Hne) as (i & x' & y' & Ha & Hb & Ht & Hd & Hc).
        exists (S i), x', y'. split; [done|]. split; [done|].
        split; [simpl; by rewrite E, Ht|]. done.
    + split.
      * split.
        -- destruct (_ <? _); done.
        -- intros [H|H]; apply prefix_cons_inv_1 in H; congruence.
      * intros _. exists 0%nat, x, y. done.
Qed.

(** X23.  [Compare] is decided by the first position at which the two
    views differ as unsigned units, giving 1 or -1 by the order of the
    two units there; it returns 0 exactly when one view is a prefix of
    the other. *)
Theorem Compare_is_decided_by_the_first_difference stringType a b ua ub :
  StringView.wf a -> StringView.wf b ->
  StringView.units a = Some ua -> StringView.units b = Some ub ->
  exists c,
    StringView.Compare stringType a b = Returns c
    /\ (c = 0 <->
        UChar stringType <$> ua `prefix_of` UChar stringType <$> ub
        \/ UChar stringType <$> ub `prefix_of` UChar stringType <$> ua)
    /\ (c <> 0 ->
        exists i x y,
          ua !! i = Some x /\ ub !! i = Some y
          /\ take i (UChar stringType <$> ua) = take i (UChar stringType <$> ub)
          /\ UChar stringType x <> UChar stringType y
          /\ c = if UChar stringType y <? UChar stringType x then 1 else -1).
Proof.
  intros Ha Hb Hua Hub. exists (compare_units stringType ua ub).
  split; [by apply Compare_units|].
  apply compare_units_first_difference.
Qed.

Lemma Compare_is_decided_by_the_first_difference_witness :
  exists c,
    StringView.Compare Utf8 (StringView.of_list [97; 200]) (StringView.of_list [97; -1; 98])
    = Returns c
    /\ (c = 0 <->
        UChar Utf8 <$> [97; 200] `prefix_of` UChar Utf8 <$> [97; -1; 98]
        \/ UChar Utf8 <$> [97; -1; 98] `prefix_of` UChar Utf8 <$> [97; 200])
    /\ (c <> 0 ->
        exists i x y,
          [97; 200] !! i = Some x /\ [97; -1; 98] !! i = Some y
          /\ take i (UChar Utf8 <$> [97; 200]) = take i (UChar Utf8 <$> [97; -1; 98])
          /\ UChar Utf8 x <> UChar Utf8 y
          /\ c = if UChar Utf8 y <? UChar Utf8 x then 1 else -1).
Proof.
  apply (Compare_is_decided_by_the_first_difference Utf8
           (StringView.of_list [97; 200]) (StringView.of_list [97; -1; 98])
           [97; 200] [97; -1; 98]).
  - unfold StringView.wf, ptrdiff_t_half. simpl. lia.
  - unfold StringView.wf, ptrdiff_t_half. simpl. lia.
  - reflexivity.
  - reflexivity.
Defined.

(** X24.  [FindBackward] hands [MatchString] reverse ranges built from
    [m_StrBegin]: the pattern size it computes is [2^64] minus the
    pattern length, so the failure table is asked from the free store
    with that many entries less one, and the source range fails the
    [assert] of [MatchString].  When the table is not obtained the
    search answers [npos] for every non-empty pattern. *)
Theorem FindBackward_answers_npos_without_table v pattern nEnd :
  StringView.wf v -> StringView.wf pattern -> is_ptrdiff_t nEnd ->
  StringView.ApplyOffset_assert nEnd (StringView.GetSize v) = true ->
  StringView.GetSize pattern <> 0 ->
  let patternSize := to_size_t (StringView.crend pattern - StringView.crbegin pattern) in
  let realEnd := StringView.ApplyOffset nEnd (StringView.GetSize v) in
  patternSize = size_t_modulus - StringView.GetSize pattern
  /\ (forall heap_has_room, table_obtained heap_has_room patternSize = heap_has_room)
  /\ StringView.FindBackward false v pattern nEnd = Returns StringView.npos
  /\ (StringView.GetSize pattern <= StringView.GetSize v -> StringView.GetSize v <= realEnd ->
      MatchString_asserts (StringView.crbegin v + realEnd) (StringView.crend v)
        (StringView.crbegin pattern) (StringView.crend pattern) = false).
Proof.
  intros Hv Hp Hn Ha Hne patternSize realEnd.
  assert (Hsz : is_size_t (StringView.GetSize v)) by apply to_size_t_range.
  destruct (ApplyOffset_resolved nEnd _ Hn Hsz Ha) as [_ Hre]. fold realEnd in Hre.
  pose proof (GetSize_wf v Hv) as Ev. pose proof (GetSize_wf pattern Hp) as Ep.
  pose proof Hv as (Hv1 & Hv2 & Hv3). pose proof Hp as (Hp1 & Hp2 & Hp3).
  unfold ptrdiff_t_half in *.
  assert (Hps : patternSize = size_t_modulus - StringView.GetSize pattern).
  { subst patternSize. unfold StringView.crend, StringView.crbegin, to_size_t, size_t_modulus.
    rewrite Ep. symmetry. apply (Z.mod_unique_pos _ _ (-1)); lia. }
  assert (Htab : forall h, table_obtained h patternSize = h).
  { intros h. unfold table_obtained. rewrite Hps.
    rewrite to_size_t_small by (unfold is_size_t, size_t_modulus; lia).
    unfold MaxAllocaSize, size_t_modulus.
    destruct (Z.leb_spec (65536 / 8) (2 ^ 64 - StringView.GetSize pattern - 1)) as [|Hlt]; [done|].
    change (65536 / 8) with 8192 in Hlt. lia. }
  assert (Hlen : StringView.crend v - (StringView.crbegin v + realEnd)
                 = - (StringView.GetSize v + realEnd)).
  { unfold StringView.crend, StringView.crbegin. lia. }
  split; [done|]. split; [done|]. split.
  - unfold StringView.FindBackward. fold realEnd.
    destruct (Z.eqb_spec (StringView.GetSize pattern) 0); [done|].
    destruct (_ || _) eqn:Hguard; [done|].
    apply orb_false_iff in Hguard as [Hg1%Z.ltb_ge Hg2%Z.ltb_ge].
    unfold MatchString. fold patternSize. rewrite Htab.
    destruct (MatchString_fuel _ _) as [|fuel] eqn:Ef.
    { unfold MatchString_fuel in Ef. lia. }
    cbn [MatchString_run].
    assert (Hpt : to_ptrdiff_t patternSize = - StringView.GetSize pattern).
    { rewrite Hps. unfold to_ptrdiff_t, ptrdiff_t_half, size_t_modulus.
      replace (2 ^ 64 - StringView.GetSize pattern + 2 ^ 63)
        with (2 ^ 63 - StringView.GetSize pattern + 1 * 2 ^ 64) by lia.
      rewrite Z.mod_add by lia. rewrite Z.mod_small by lia. lia. }
    rewrite Hpt, Hlen.
    destruct (Z.ltb_spec (- (StringView.GetSize v + realEnd)) (- StringView.GetSize pattern));
      [|lia].
    by rewrite Z.eqb_refl.
  - intros Hg1 Hg2. unfold MatchString_asserts. fold patternSize. rewrite Hps, Hlen.
    apply andb_false_iff. right. apply Z.leb_gt.
    unfold to_size_t, size_t_modulus.
    replace (- (StringView.GetSize v + realEnd) mod 2 ^ 64)
      with (2 ^ 64 - (StringView.GetSize v + realEnd))
      by (apply (Z.mod_unique_pos _ _ (-1)); lia).
    lia.
Qed.

Lemma FindBackward_answers_npos_without_table_witness :
  let v := StringView.of_list (u8 "abcabc") in
  let pattern := StringView.of_list (u8 "bc") in
  to_size_t (StringView.crend pattern - StringView.crbegin pattern)
  = size_t_modulus - StringView.GetSize pattern
  /\ (forall heap_has_room,
        table_obtained heap_has_room
          (to_size_t (StringView.crend pattern - StringView.crbegin pattern)) = heap_has_room)
  /\ StringView.FindBackward false v pattern (-1) = Returns StringView.npos
  /\ (StringView.GetSize pattern <= StringView.GetSize v ->
      StringView.GetSize v <= StringView.ApplyOffset (-1) (StringView.GetSize v) ->
      MatchString_asserts
        (StringView.crbegin v + StringView.ApplyOffset (-1) (StringView.GetSize v))
        (StringView.crend v) (StringView.crbegin pattern) (StringView.crend pattern) = false).
Proof.
  apply (FindBackward_answers_npos_without_table (StringView.of_list (u8 "abcabc"))
           (StringView.of_list (u8 "bc")) (-1)).
  - unfold StringView.wf, ptrdiff_t_half. simpl. lia.
  - unfold StringView.wf, ptrdiff_t_half. simpl. lia.
  - unfold is_ptrdiff_t, ptrdiff_t_half. lia.
  - reflexivity.
  - vm_compute. discriminate.
Defined.

(** ** The failure table in the block the code obtains *)

Lemma table_store_in_room table i v :
  0 <= i < Z.of_nat (length table) -> table_store table i v = Some (table_set table i v).
Proof.
  intros Hi. unfold table_store, table_set.
  destruct (Z.leb_spec 0 i); [|lia]. destruct (Z.ltb_spec i (Z.of_nat (length table))); [|lia].
  destruct (Z.ltb_spec i 0); [lia|]. done.
Qed.

Lemma table_set_length table i v : length (table_set table i v) = length table.
Proof. unfold table_set. destruct (i <? 0); [done|]. apply length_insert. Qed.

(** On a block that holds all [patternSize - 1] entries the loop is the
    loop on the whole table. *)
Lemma build_table_loop_in_block_whole patMem patternBegin patternSize fuel :
  0 <= patternSize - 1 < size_t_modulus ->
  forall pos cand table,
    0 <= pos < patternSize - 1 -> Z.of_nat (length table) = patternSize - 1 ->
    build_table_loop_in_block fuel patMem patternBegin patternSize pos cand table
    = build_table_loop fuel patMem patternBegin patternSize pos cand table.
Proof.
  intros Hps. induction fuel as [|fuel IH]; intros pos cand table Hpos Hlen; [done|].
  assert (Hts : to_size_t (patternSize - 1) = patternSize - 1) by (by apply to_size_t_small).
  assert (Hnext : forall pos' cand' table',
            pos <= pos' <= pos + 1 -> Z.of_nat (length table') = patternSize - 1 ->
            (if to_size_t pos' <? to_size_t (patternSize - 1)
             then build_table_loop_in_block fuel patMem patternBegin patternSize pos' cand' table'
             else Returns table')
            = (if to_size_t pos' <? to_size_t (patternSize - 1)
               then build_table_loop fuel patMem patternBegin patternSize pos' cand' table'
               else Returns table')).
  { intros pos' cand' table' Hp' Hl'.
    rewrite (to_size_t_small pos') by (unfold is_size_t in *; lia). rewrite Hts.
    destruct (Z.ltb_spec pos' (patternSize - 1)); [|done]. apply IH; [lia|done]. }
  assert (Hstore : forall pos' cand' v,
            pos <= pos' <= pos + 1 ->
            match table_store table pos v with
            | Some table' =>
              if to_size_t pos' <? to_size_t (patternSize - 1)
              then build_table_loop_in_block fuel patMem patternBegin patternSize pos' cand' table'
              else Returns table'
            | None => Undefined
            end
            = (if to_size_t pos' <? to_size_t (patternSize - 1)
               then build_table_loop fuel patMem patternBegin patternSize pos' cand'
                      (table_set table pos v)
               else Returns (table_set table pos v))).
  { intros pos' cand' v Hp'. rewrite table_store_in_room by lia.
    apply Hnext; [done|]. by rewrite table_set_length. }
  cbn [build_table_loop_in_block build_table_loop].
  destruct (deref patMem (patternBegin + pos)) as [a|]; [|done].
  destruct (deref patMem (patternBegin + cand)) as [b|]; [|done].
  destruct (a =? b).
  - destruct (deref patMem (patternBegin + (pos + 1))) as [a'|]; [|done].
    destruct (deref patMem (patternBegin + (cand + 1))) as [b'|]; [|done].
    destruct (a' =? b').
    + destruct (table_get table (cand + 1 - 1)) as [f|]; [|done]. apply Hstore. lia.
    + apply Hstore. lia.
  - destruct (cand =? 0); [apply Hstore; lia|].
    destruct (table_get table (cand - 1)) as [f|]; [|done]. apply Hnext; [lia|done].
Qed.

Lemma table_room_on_the_heap patternSize :
  MaxAllocaSize / sizeof_ptrdiff_t < patternSize < ptrdiff_t_half ->
  table_room patternSize = patternSize - 1
  /\ forall heap_has_room, table_obtained heap_has_room patternSize = heap_has_room.
Proof.
  unfold table_room, table_obtained, MaxAllocaSize, sizeof_ptrdiff_t, ptrdiff_t_half.
  change (65536 / 8) with 8192. intros Hp.
  rewrite to_size_t_small by (unfold is_size_t, size_t_modulus; lia).
  destruct (Z.leb_spec 8192 (patternSize - 1)); [done|lia].
Qed.

Lemma table_room_on_the_stack patternSize :
  1 <= patternSize <= MaxAllocaSize / sizeof_ptrdiff_t ->
  table_room patternSize = (patternSize - 1) / sizeof_ptrdiff_t
  /\ forall heap_has_room, table_obtained heap_has_room patternSize = true.
Proof.
  unfold table_room, table_obtained, MaxAllocaSize, sizeof_ptrdiff_t.
  change (65536 / 8) with 8192. intros Hp.
  rewrite to_size_t_small by (unfold is_size_t, size_t_modulus; lia).
  destruct (Z.leb_spec 8192 (patternSize - 1)); [lia|done].
Qed.

Lemma build_table_in_block_on_the_heap patMem patternBegin patternSize :
  MaxAllocaSize / sizeof_ptrdiff_t < patternSize < ptrdiff_t_half ->
  build_table_in_block patMem patternBegin patternSize
  = build_table patMem patternBegin patternSize.
Proof.
  intros Hp. destruct (table_room_on_the_heap patternSize Hp) as [Hroom _].
  unfold MaxAllocaSize, sizeof_ptrdiff_t, ptrdiff_t_half in Hp. change (65536 / 8) with 8192 in Hp.
  unfold build_table_in_block, build_table. rewrite Hroom.
  rewrite (to_size_t_small (patternSize - 1)) by (unfold is_size_t, size_t_modulus; lia).
  rewrite table_store_in_room by (rewrite length_replicate; lia).
  destruct (Z.ltb_spec 2 patternSize); [|done].
  apply build_table_loop_in_block_whole.
  - unfold size_t_modulus. lia.
  - lia.
  - rewrite table_set_length, length_replicate. lia.
Qed.

Lemma MatchString_in_block_on_the_heap heap_has_room mem srcBegin srcEnd patMem
    patternBegin patternEnd :
  MaxAllocaSize / sizeof_ptrdiff_t < to_size_t (patternEnd - patternBegin) < ptrdiff_t_half ->
  MatchString_in_block heap_has_room mem srcBegin srcEnd patMem patternBegin patternEnd
  = MatchString heap_has_room mem srcBegin srcEnd patMem patternBegin patternEnd.
Proof.
  intros Hp. unfold MatchString_in_block, MatchString.
  by rewrite build_table_in_block_on_the_heap.
Qed.

Lemma Find_in_block_long_pattern heap_has_room v pattern nBegin :
  MaxAllocaSize / sizeof_ptrdiff_t < StringView.GetSize pattern < ptrdiff_t_half ->
  StringView.Find_in_block heap_has_room v pattern nBegin
  = StringView.Find heap_has_room v pattern nBegin.
Proof.
  intros Hp. unfold StringView.Find_in_block, StringView.Find.
  by rewrite MatchString_in_block_on_the_heap.
Qed.

(** On a block that holds fewer entries than the table has, the loop
    reaches a store outside the block. *)
Lemma build_table_loop_in_block_overruns patMem patternBegin p fuel :
  occurs_in patMem p patternBegin -> Z.of_nat (length p) < ptrdiff_t_half ->
  forall pos cand table,
    1 <= pos <= Z.of_nat (length table) ->
    Z.of_nat (length table) < Z.of_nat (length p) - 1 ->
    0 <= cand < pos ->
    (forall i f, table !! i = Some f -> 0 <= f <= Z.of_nat i) ->
    2 * (Z.of_nat (length table) - pos) + cand + 1 <= Z.of_nat fuel ->
    build_table_loop_in_block fuel patMem patternBegin (Z.of_nat (length p)) pos cand table
    = Undefined.
Proof.
  intros Hpat Hsmall. unfold ptrdiff_t_half in Hsmall.
  assert (Hunit : forall j, 0 <= j < Z.of_nat (length p) ->
            exists x, deref patMem (patternBegin + j) = Some x).
  { intros j Hj. destruct (lookup_lt_is_Some_2 p (Z.to_nat j) ltac:(lia)) as [x Hx].
    exists x. rewrite <- Hx. rewrite <- (Hpat (Z.to_nat j) ltac:(lia)). f_equal. lia. }
  induction fuel as [|fuel IH]; intros pos cand table Hpos Hroom Hcand Hent Hfuel; [lia|].
  assert (Hts : to_size_t (Z.of_nat (length p) - 1) = Z.of_nat (length p) - 1).
  { apply to_size_t_small. unfold is_size_t, size_t_modulus. lia. }
  assert (Hget : forall c, 0 <= c < pos ->
            exists f, table_get table c = Some f /\ 0 <= f <= c).
  { intros c Hc. unfold table_get. destruct (Z.ltb_spec c 0); [lia|].
    destruct (lookup_lt_is_Some_2 table (Z.to_nat c) ltac:(lia)) as [f Hf].
    exists f. split; [done|]. specialize (Hent _ _ Hf). lia. }
  assert (Hstore : forall cand' v, 0 <= cand' <= cand + 1 -> 0 <= v <= pos ->
            match table_store table pos v with
            | Some table' =>
              if to_size_t (pos + 1) <? to_size_t (Z.of_nat (length p) - 1)
              then build_table_loop_in_block fuel patMem patternBegin (Z.of_nat (length p))
                     (pos + 1) cand' table'
              else Returns table'
            | None => Undefined
            end = Undefined).
  { intros cand' v Hc' Hv. unfold table_store.
    destruct (Z.leb_spec 0 pos); [|lia].
    destruct (Z.ltb_spec pos (Z.of_nat (length table))) as [Hin|Hout]; [|done].
    cbn [andb].
    rewrite (to_size_t_small (pos + 1)) by (unfold is_size_t, size_t_modulus; lia).
    rewrite Hts. destruct (Z.ltb_spec (pos + 1) (Z.of_nat (length p) - 1)); [|lia].
    apply IH.
    - rewrite length_insert. lia.
    - by rewrite length_insert.
    - lia.
    - intros i f Hi. destruct (decide (i = Z.to_nat pos)) as [->|Hne].
      + rewrite list_lookup_insert_eq in Hi by lia. injection Hi as <-. lia.
      + rewrite list_lookup_insert_ne in Hi by done. by apply Hent.
    - rewrite length_insert. lia. }
  cbn [build_table_loop_in_block].
  destruct (Hunit pos ltac:(lia)) as [a ->]. destruct (Hunit cand ltac:(lia)) as [b ->].
  destruct (a =? b).
  - destruct (Hunit (pos + 1) ltac:(lia)) as [a' ->].
    destruct (Hunit (cand + 1) ltac:(lia)) as [b' ->].
    destruct (a' =? b').
    + destruct (Hget (cand + 1 - 1) ltac:(lia)) as (f & -> & Hf). apply Hstore; lia.
    + apply Hstore; lia.
  - destruct (Z.eqb_spec cand 0) as [->|Hne]; [apply Hstore; lia|].
    destruct (Hget (cand - 1) ltac:(lia)) as (f & -> & Hf).
    rewrite (to_size_t_small pos) by (unfold is_size_t, size_t_modulus; lia).
    rewrite Hts. destruct (Z.ltb_spec pos (Z.of_nat (length p) - 1)); [|lia].
    apply IH; [done|done|lia|done|lia].
Qed.

Lemma build_table_in_block_overruns pattern p :
  StringView.wf pattern -> StringView.units pattern = Some p ->
  1 <= Z.of_nat (length p) <= MaxAllocaSize / sizeof_ptrdiff_t ->
  build_table_in_block (StringView.underlying pattern) (StringView.m_StrBegin pattern)
    (StringView.GetSize pattern) = Undefined.
Proof.
  intros Hwf Hus Hm.
  destruct (units_length pattern p Hwf Hus) as [Hlen Hsmall]. rewrite <- Hlen.
  destruct (table_room_on_the_stack _ Hm) as [Hroom _].
  unfold MaxAllocaSize, sizeof_ptrdiff_t in *. change (65536 / 8) with 8192 in Hm.
  unfold build_table_in_block. rewrite Hroom.
  set (room := (Z.of_nat (length p) - 1) / 8).
  assert (Hr : 0 <= room /\ 8 * room <= Z.of_nat (length p) - 1).
  { subst room. pose proof (Z.mul_div_le (Z.of_nat (length p) - 1) 8 ltac:(lia)).
    pose proof (Z.div_pos (Z.of_nat (length p) - 1) 8 ltac:(lia) ltac:(lia)). lia. }
  unfold table_store at 1. rewrite length_replicate.
  destruct (Z.ltb_spec 0 (Z.of_nat (Z.to_nat room))) as [Hpos|Hzero]; [|done].
  cbn [Z.leb andb Z.compare]. 
  destruct (Z.ltb_spec 2 (Z.of_nat (length p))); [|lia].
  assert (Hpat : occurs_in (StringView.underlying pattern) p (StringView.m_StrBegin pattern)).
  { intros j Hj. destruct (units_deref pattern p j Hwf Hus Hj) as (c & Hc & Hd).
    by rewrite Hd, Hc. }
  apply (build_table_loop_in_block_overruns _ _ p _ Hpat Hsmall).
  - rewrite length_insert, length_replicate. lia.
  - rewrite length_insert, length_replicate. lia.
  - lia.
  - intros i f Hi. destruct (decide (i = 0%nat)) as [->|Hne].
    + rewrite list_lookup_insert_eq in Hi by (rewrite length_replicate; lia).
      injection Hi as <-. lia.
    + rewrite list_lookup_insert_ne in Hi by done.
      apply lookup_replicate in Hi as [-> _]. lia.
  - rewrite length_insert, length_replicate. lia.
Qed.

Lemma units_of_list l : StringView.units (StringView.of_list l) = Some l.
Proof.
  unfold StringView.units, StringView.of_list. cbn [StringView.m_StrBegin StringView.m_StrEnd
    StringView.underlying].
  destruct (Z.leb_spec 0 0); [|lia].
  destruct (Z.leb_spec 0 (Z.of_nat (length l))); [|lia].
  destruct (Z.leb_spec (Z.of_nat (length l)) (Z.of_nat (length l))); [|lia].
  cbn [andb]. change (Z.to_nat 0) with 0%nat. rewrite drop_0, take_ge by lia. done.
Qed.

Lemma wf_of_list l :
  Z.of_nat (length l) < ptrdiff_t_half -> StringView.wf (StringView.of_list l).
Proof.
  intros Hl. unfold StringView.wf, StringView.of_list.
  cbn [StringView.m_StrBegin StringView.m_StrEnd StringView.underlying]. lia.
Qed.

Lemma build_table_in_block_filled pattern p :
  StringView.wf pattern -> StringView.units pattern = Some p ->
  MaxAllocaSize / sizeof_ptrdiff_t < Z.of_nat (length p) ->
  exists table,
    build_table_in_block (StringView.underlying pattern) (StringView.m_StrBegin pattern)
      (StringView.GetSize pattern) = Returns table
    /\ length table = (length p - 1)%nat
    /\ Border.table_filled p table (length p - 1).
Proof.
  intros Hwf Hus Hm. destruct (units_length pattern p Hwf Hus) as [Hlen Hsmall].
  rewrite build_table_in_block_on_the_heap by (rewrite <- Hlen; lia).
  apply build_table_filled; [done|done|].
  unfold MaxAllocaSize, sizeof_ptrdiff_t in Hm. change (65536 / 8) with 8192 in Hm. lia.
Qed.

(** C8 as stated fails on a run of 8193 copies of one unit, whose table
    comes from the free store: entry 1 is 0, while the longest proper
    border of the first two units has length 1. *)
Lemma failure_table_of_a_run_is_not_the_border_lengths :
  let p := replicate (Z.to_nat 8193) 97 in
  let pattern := StringView.of_list p in
  exists table,
    build_table_in_block (StringView.underlying pattern) (StringView.m_StrBegin pattern)
      (StringView.GetSize pattern) = Returns table
    /\ table !! 1%nat = Some 0
    /\ Border.longest_border p 2 = 1%nat.
Proof.
  intros p pattern.
  assert (Hl : length p = Z.to_nat 8193) by apply length_replicate.
  destruct (build_table_in_block_filled pattern p) as (table & Hrun & Hlen & Hfill).
  - apply wf_of_list. rewrite Hl. unfold ptrdiff_t_half. lia.
  - apply units_of_list.
  - rewrite Hl. unfold MaxAllocaSize, sizeof_ptrdiff_t. change (65536 / 8) with 8192. lia.
  - exists table. split; [exact Hrun|]. split.
    + rewrite (Hfill 1%nat) by lia. reflexivity.
    + reflexivity.
Qed.

(** C8, amended: for a pattern of [m] units whose table is obtained
    from the free store ([m - 1 >= MaxAllocaSize / sizeof(std::ptrdiff_t)]),
    the block holds [m - 1] entries, the table built in it has [m - 1]
    entries and, for every [i] in [[0, m-2]], [table[i]] is the length
    of the longest proper border [b] of [pattern[0..i]] that is not
    followed by the unit that follows that prefix
    ([pattern[b] <> pattern[i+1]]), and 0 when no border is; the loop
    that fills it ends within [2 * (m - 2)] iterations. *)
Theorem failure_table_holds_longest_differing_borders pattern p :
  StringView.wf pattern -> StringView.units pattern = Some p ->
  MaxAllocaSize / sizeof_ptrdiff_t < Z.of_nat (length p) ->
  table_room (StringView.GetSize pattern) = Z.of_nat (length p) - 1
  /\ exists table,
    build_table_in_block (StringView.underlying pattern) (StringView.m_StrBegin pattern)
      (StringView.GetSize pattern) = Returns table
    /\ length table = (length p - 1)%nat
    /\ (forall i, (i < length p - 1)%nat ->
          table !! i = Some (Z.of_nat (Border.longest_differing_border p (S i))))
    /\ build_table_loop_in_block (2 * (length p - 2)) (StringView.underlying pattern)
         (StringView.m_StrBegin pattern) (StringView.GetSize pattern) 1 0
         (replicate (length p - 1) 0) = Returns table.
Proof.
  intros Hwf Hus Hm. destruct (units_length pattern p Hwf Hus) as [Hlen Hsmall].
  destruct (table_room_on_the_heap (StringView.GetSize pattern)) as [Hroom _];
    [rewrite <- Hlen; lia|].
  split; [by rewrite Hroom, Hlen|].
  destruct (build_table_in_block_filled pattern p Hwf Hus Hm) as (table & Hrun & Hl & Hfill).
  exists table. split; [exact Hrun|]. split; [exact Hl|]. split; [exact Hfill|].
  unfold MaxAllocaSize, sizeof_ptrdiff_t in Hm. change (65536 / 8) with 8192 in Hm.
  unfold ptrdiff_t_half in Hsmall. rewrite <- Hlen.
  rewrite build_table_loop_in_block_whole;
    [|unfold size_t_modulus; lia|lia|rewrite length_replicate; lia].
  destruct (build_table_loop_from_start pattern p (2 * (length p - 2)) Hwf Hus)
    as (table' & Hrun' & Hl' & Hfill'); [lia|lia|].
  rewrite Hrun'. f_equal.
  apply (table_filled_unique p table' table (length p - 1)); done.
Qed.

Lemma failure_table_holds_longest_differing_borders_witness :
  let p := replicate (Z.to_nat 8193) 97 in
  let pattern := StringView.of_list p in
  table_room (StringView.GetSize pattern) = Z.of_nat (length p) - 1
  /\ exists table,
    build_table_in_block (StringView.underlying pattern) (StringView.m_StrBegin pattern)
      (StringView.GetSize pattern) = Returns table
    /\ length table = (length p - 1)%nat
    /\ (forall i, (i < length p - 1)%nat ->
          table !! i = Some (Z.of_nat (Border.longest_differing_border p (S i))))
    /\ build_table_loop_in_block (2 * (length p - 2)) (StringView.underlying pattern)
         (StringView.m_StrBegin pattern) (StringView.GetSize pattern) 1 0
         (replicate (length p - 1) 0) = Returns table.
Proof.
  apply (failure_table_holds_longest_differing_borders
           (StringView.of_list (replicate (Z.to_nat 8193) 97)) (replicate (Z.to_nat 8193) 97)).
  - apply wf_of_list. vm_compute. reflexivity.
  - apply units_of_list.
  - vm_compute. reflexivity.
Defined.

Lemma Find_in_block_empty_pattern heap_has_room v pattern nBegin :
  StringView.GetSize pattern = 0 ->
  StringView.Find_in_block heap_has_room v pattern nBegin
  = StringView.Find heap_has_room v pattern nBegin.
Proof. intros H. unfold StringView.Find_in_block, StringView.Find. by rewrite H. Qed.

Lemma Find_in_block_short_pattern heap_has_room v pattern nBegin p :
  StringView.wf pattern -> StringView.units pattern = Some p ->
  1 <= Z.of_nat (length p) <= MaxAllocaSize / sizeof_ptrdiff_t ->
  Find_calls_MatchString v pattern nBegin = true ->
  StringView.Find_in_block heap_has_room v pattern nBegin = Undefined.
Proof.
  intros Hwf Hus Hm Hcall. destruct (units_length pattern p Hwf Hus) as [Hlen _].
  unfold Find_calls_MatchString in Hcall. unfold StringView.Find_in_block.
  apply andb_true_iff in Hcall as [H0%negb_true_iff Hg%negb_true_iff].
  rewrite H0, Hg. unfold MatchString_in_block. fold (StringView.GetSize pattern).
  destruct (table_room_on_the_stack (StringView.GetSize pattern)) as [_ Hobt];
    [rewrite <- Hlen; lia|].
  rewrite Hobt. by rewrite (build_table_in_block_overruns pattern p Hwf Hus Hm).
Qed.

(** X18.  For an empty pattern, and for a pattern of more than
    [MaxAllocaSize / sizeof(std::ptrdiff_t)] units (whose table is asked
    from the free store): whenever the pattern occurs in the view at or
    after the resolved offset, [Find] returns the offset of the first
    such occurrence, the answer of the reference search; an answer of
    [npos] is given only when the pattern does not occur there. *)
Theorem Find_returns_the_first_occurrence heap_has_room v pattern nBegin s p :
  StringView.wf v -> StringView.wf pattern ->
  StringView.units v = Some s -> StringView.units pattern = Some p ->
  is_ptrdiff_t nBegin ->
  StringView.ApplyOffset_assert nBegin (StringView.GetSize v) = true ->
  p = [] \/ MaxAllocaSize / sizeof_ptrdiff_t < Z.of_nat (length p) ->
  let from := Z.to_nat (StringView.ApplyOffset nBegin (StringView.GetSize v)) in
  (StringView.reference_Find s p from <> StringView.npos ->
   StringView.Find_in_block heap_has_room v pattern nBegin
   = Returns (StringView.reference_Find s p from))
  /\ (StringView.Find_in_block heap_has_room v pattern nBegin = Returns StringView.npos ->
      StringView.reference_Find s p from = StringView.npos).
Proof.
  intros Hv Hp Hs Hpu Hn Ha Hcase from.
  destruct (units_length pattern p Hp Hpu) as [Hlen Hsmall].
  assert (E : StringView.Find_in_block heap_has_room v pattern nBegin
              = StringView.Find heap_has_room v pattern nBegin).
  { destruct Hcase as [->|Hlong].
    - apply Find_in_block_empty_pattern. by rewrite <- Hlen.
    - apply Find_in_block_long_pattern. rewrite <- Hlen. lia. }
  rewrite E.
  apply (Find_on_whole_table_returns_the_first_occurrence heap_has_room v pattern nBegin s p);
    done.
Qed.

(** A run of 8193 copies of one unit, sought in itself. *)
Lemma Find_in_block_of_a_long_run :
  let s := replicate (Z.to_nat 8193) 97 in
  StringView.reference_Find s s 0 = 0
  /\ StringView.Find_in_block true (StringView.of_list s) (StringView.of_list s) 0 = Returns 0.
Proof.
  intros s.
  assert (Hl : length s = Z.to_nat 8193) by apply length_replicate.
  assert (Href : StringView.reference_Find s s 0 = 0) by (vm_compute; reflexivity).
  split; [done|].
  rewrite Find_in_block_long_pattern.
  2:{ unfold StringView.GetSize, StringView.of_list.
      cbn [StringView.m_StrBegin StringView.m_StrEnd]. rewrite Hl. vm_compute. split; reflexivity. }
  destruct (Find_on_whole_table_returns_the_first_occurrence true (StringView.of_list s)
              (StringView.of_list s) 0 s s) as [Hfind _].
  - apply wf_of_list. rewrite Hl. vm_compute. reflexivity.
  - apply wf_of_list. rewrite Hl. vm_compute. reflexivity.
  - apply units_of_list.
  - apply units_of_list.
  - unfold is_ptrdiff_t, ptrdiff_t_half. lia.
  - unfold StringView.ApplyOffset_assert, StringView.ApplyOffset, StringView.GetSize,
      StringView.of_list. cbn [StringView.m_StrBegin StringView.m_StrEnd]. rewrite Hl.
    vm_compute. reflexivity.
  - assert (Hfrom : Z.to_nat (StringView.ApplyOffset 0
                      (StringView.GetSize (StringView.of_list s))) = 0%nat).
    { unfold StringView.ApplyOffset. vm_compute. reflexivity. }
    cbv zeta in Hfind. rewrite Hfrom, Href in Hfind. apply Hfind.
    unfold StringView.npos, npos. vm_compute. discriminate.
Qed.

Lemma Find_returns_the_first_occurrence_witness :
  let s := replicate (Z.to_nat 8193) 97 in
  let v := StringView.of_list s in
  let from := Z.to_nat (StringView.ApplyOffset 0 (StringView.GetSize v)) in
  (StringView.reference_Find s s from <> StringView.npos ->
   StringView.Find_in_block true v v 0 = Returns (StringView.reference_Find s s from))
  /\ (StringView.Find_in_block true v v 0 = Returns StringView.npos ->
      StringView.reference_Find s s from = StringView.npos).
Proof.
  apply (Find_returns_the_first_occurrence true
           (StringView.of_list (replicate (Z.to_nat 8193) 97))
           (StringView.of_list (replicate (Z.to_nat 8193) 97)) 0
           (replicate (Z.to_nat 8193) 97) (replicate (Z.to_nat 8193) 97)).
  - apply wf_of_list. vm_compute. reflexivity.
  - apply wf_of_list. vm_compute. reflexivity.
  - apply units_of_list.
  - apply units_of_list.
  - unfold is_ptrdiff_t, ptrdiff_t_half. lia.
  - vm_compute. reflexivity.
  - right. vm_compute. reflexivity.
Defined.

(** X19.  [Find] returns an offset other than [npos], for a non-empty
    pattern, only when the pattern has more than
    [MaxAllocaSize / sizeof(std::ptrdiff_t)] units; the offset is then at
    or after the resolved one, and the units of the pattern stand at it
    in the sequence the view borrows. *)
Theorem Find_answer_is_an_occurrence_in_memory heap_has_room v pattern nBegin p pos :
  StringView.wf v -> StringView.wf pattern ->
  StringView.units pattern = Some p -> p <> [] ->
  is_ptrdiff_t nBegin ->
  StringView.ApplyOffset_assert nBegin (StringView.GetSize v) = true ->
  StringView.Find_in_block heap_has_room v pattern nBegin = Returns pos ->
  pos <> StringView.npos ->
  MaxAllocaSize / sizeof_ptrdiff_t < Z.of_nat (length p)
  /\ StringView.ApplyOffset nBegin (StringView.GetSize v) <= pos
  /\ forall j, (j < length p)%nat ->
       StringView.UncheckGet v (pos + Z.of_nat j) = lift (p !! j).
Proof.
  intros Hv Hp Hpu Hne Hn Ha Hfind Hpos.
  destruct (units_length pattern p Hp Hpu) as [Hlen Hsmall].
  assert (Hl : (0 < length p)%nat) by (destruct p; [done|simpl; lia]).
  destruct (Z.lt_ge_cases (MaxAllocaSize / sizeof_ptrdiff_t) (Z.of_nat (length p)))
    as [Hlong|Hshort].
  - split; [done|].
    rewrite Find_in_block_long_pattern in Hfind by (rewrite <- Hlen; lia).
    by apply (Find_on_whole_table_answer_is_an_occurrence heap_has_room v pattern nBegin p pos).
  - exfalso.
    destruct (Find_calls_MatchString v pattern nBegin) eqn:Hcall.
    + rewrite (Find_in_block_short_pattern heap_has_room v pattern nBegin p Hp Hpu) in Hfind;
        [done|lia|done].
    + unfold Find_calls_MatchString in Hcall. unfold StringView.Find_in_block in Hfind.
      rewrite <- Hlen in *.
      destruct (Z.eqb_spec (Z.of_nat (length p)) 0); [lia|].
      cbn [negb andb] in Hcall. apply negb_false_iff in Hcall. rewrite Hcall in Hfind.
      injection Hfind as <-. done.
Qed.

Lemma Find_answer_is_an_occurrence_in_memory_witness :
  let s := replicate (Z.to_nat 8193) 97 in
  let v := StringView.of_list s in
  MaxAllocaSize / sizeof_ptrdiff_t < Z.of_nat (length s)
  /\ StringView.ApplyOffset 0 (StringView.GetSize v) <= 0
  /\ forall j, (j < length s)%nat ->
       StringView.UncheckGet v (0 + Z.of_nat j) = lift (s !! j).
Proof.
  apply (Find_answer_is_an_occurrence_in_memory true
           (StringView.of_list (replicate (Z.to_nat 8193) 97))
           (StringView.of_list (replicate (Z.to_nat 8193) 97)) 0
           (replicate (Z.to_nat 8193) 97) 0).
  - apply wf_of_list. vm_compute. reflexivity.
  - apply wf_of_list. vm_compute. reflexivity.
  - apply units_of_list.
  - vm_compute. discriminate.
  - unfold is_ptrdiff_t, ptrdiff_t_half. lia.
  - vm_compute. reflexivity.
  - apply Find_in_block_of_a_long_run.
  - vm_compute. discriminate.
Defined.

(** X25.  For a non-empty pattern of at most
    [MaxAllocaSize / sizeof(std::ptrdiff_t)] units the table is placed in
    [alloca(tableSize)], a block of [tableSize] bytes that holds an
    eighth of the entries: building the table stores outside the block,
    and so does every call of [Find] that reaches [MatchString]. *)
Theorem Find_stores_outside_the_alloca_block heap_has_room v pattern nBegin p :
  StringView.wf pattern -> StringView.units pattern = Some p ->
  Z.of_nat (length p) <= MaxAllocaSize / sizeof_ptrdiff_t ->
  Find_calls_MatchString v pattern nBegin = true ->
  table_obtained heap_has_room (StringView.GetSize pattern) = true
  /\ table_room (StringView.GetSize pattern) = (Z.of_nat (length p) - 1) / sizeof_ptrdiff_t
  /\ table_room (StringView.GetSize pattern) < Z.of_nat (length p)
  /\ build_table_in_block (StringView.underlying pattern) (StringView.m_StrBegin pattern)
       (StringView.GetSize pattern) = Undefined
  /\ StringView.Find_in_block heap_has_room v pattern nBegin = Undefined.
Proof.
  intros Hwf Hus Hm Hcall. destruct (units_length pattern p Hwf Hus) as [Hlen _].
  assert (H1 : 1 <= Z.of_nat (length p)).
  { unfold Find_calls_MatchString in Hcall.
    apply andb_true_iff in Hcall as [H0%negb_true_iff%Z.eqb_neq _]. lia. }
  destruct (table_room_on_the_stack (StringView.GetSize pattern)) as [Hroom Hobt];
    [rewrite <- Hlen; lia|].
  split; [by apply Hobt|]. split; [by rewrite Hroom, Hlen|]. split.
  { rewrite Hroom, <- Hlen. unfold sizeof_ptrdiff_t.
    pose proof (Z.mul_div_le (Z.of_nat (length p) - 1) 8 ltac:(lia)).
    pose proof (Z.div_pos (Z.of_nat (length p) - 1) 8 ltac:(lia) ltac:(lia)). lia. }
  split.
  - apply (build_table_in_block_overruns pattern p Hwf Hus). lia.
  - apply (Find_in_block_short_pattern heap_has_room v pattern nBegin p Hwf Hus); [lia|done].
Qed.

Lemma Find_stores_outside_the_alloca_block_witness :
  let v := StringView.of_list (u8 "AABAACAADAABAABA") in
  let pattern := StringView.of_list (u8 "AABA") in
  table_obtained true (StringView.GetSize pattern) = true
  /\ table_room (StringView.GetSize pattern) = (Z.of_nat (length (u8 "AABA")) - 1) / sizeof_ptrdiff_t
  /\ table_room (StringView.GetSize pattern) < Z.of_nat (length (u8 "AABA"))
  /\ build_table_in_block (StringView.underlying pattern) (StringView.m_StrBegin pattern)
       (StringView.GetSize pattern) = Undefined
  /\ StringView.Find_in_block true v pattern 0 = Undefined.
Proof.
  apply (Find_stores_outside_the_alloca_block true
           (StringView.of_list (u8 "AABAACAADAABAABA")) (StringView.of_list (u8 "AABA")) 0
           (u8 "AABA")).
  - unfold StringView.wf, ptrdiff_t_half. simpl. lia.
  - reflexivity.
  - vm_compute. discriminate.
  - reflexivity.
Defined.

(** X26.  The copy the compiler generates between two storages of one
    type shares the array of a heap-backed donor: the copy points to the
    donor's array and shows its code units, and after the donor is
    destroyed the destructor of the copy releases that array a second
    time. *)
Theorem implicit_copy_shares_the_array h other b buf :
  owns (h, other) b -> live h !! b = Some buf ->
  owns (h, implicit_copy other) b
  /\ String.content (h, implicit_copy other) = String.content (h, other)
  /\ exists h1,
       StringStorage_destroy String.MaxShortStringSize h other = Returns h1
       /\ live h1 !! b = None
       /\ StringStorage_destroy String.MaxShortStringSize h1 (implicit_copy other) = Undefined.
Proof.
  intros [Hin HM] Hl. unfold String.is_inline in Hin. simpl in Hin, HM.
  apply Z.leb_gt in Hin.
  split; [split; [unfold String.is_inline; simpl; by apply Z.leb_gt|done]|].
  split; [done|].
  unfold StringStorage_destroy. simpl.
  destruct (Z.ltb_spec String.MaxShortStringSize (Capacity other)); [|lia].
  rewrite HM. simpl. rewrite Hl. eexists. split; [reflexivity|]. simpl.
  rewrite lookup_delete_eq. done.
Qed.

Lemma implicit_copy_shares_the_array_witness :
  match String.of_list (u8 "0123456789abcdef0123456789abcdef01234567") with
  | Returns long =>
    exists b,
      owns (long.1, implicit_copy long.2) b
      /\ String.content (long.1, implicit_copy long.2) = String.content (long.1, long.2)
      /\ exists h1,
           StringStorage_destroy String.MaxShortStringSize long.1 long.2 = Returns h1
           /\ live h1 !! b = None
           /\ StringStorage_destroy String.MaxShortStringSize h1 (implicit_copy long.2)
              = Undefined
  | _ => False
  end.
Proof.
  destruct (String.of_list (u8 "0123456789abcdef0123456789abcdef01234567"))
    as [long| | |] eqn:Hl; try (vm_compute in Hl; discriminate).
  vm_compute in Hl. injection Hl as <-.
  exists 0%nat. eapply implicit_copy_shares_the_array.
  - split; reflexivity.
  - reflexivity.
Defined.
